(** * AI-enhanced process monitor: analytics and alerting core

    A shallow embedding of the JavaScript services of the backend
    (isolation forest, data preprocessor, LSTM predictor wrapper, process
    classifier, ML service history store, alert service) together with the
    properties of the specification that concern them and further
    properties of the code: tree growing, windows, trends and missing
    values, training sequences and labels, the analysis of a process, the
    life cycle of an alert.

    Conventions of the embedding.
    - A JavaScript exception is an explicit result: [Throw e] against
      [Ok v]; [try { .. } catch { .. }] is [try_catch].
    - [this] is a record that is passed in and returned (state passing).
      An [async] check of the alert service is modelled twice: as the
      invocation that nothing interrupts ([AlertService.invoke]) and as a
      task that runs from one [await] to the next on the shared service
      ([AlertService.resume], [AlertService.overlap]).
    - Numbers are exact: rounding of binary64 is not modelled, and
      overflow is modelled where the preprocessor scales and sums
      ([JsNum.add64] and the like). The isolation forest, which calls
      [Math.log] and [Math.pow], and the preprocessor, whose [Math.min]
      and [Math.max] are infinite on an empty array, use [JsNum.num]: a
      real number, an infinity or NaN. The predictor, the classifier and
      the two services only add, scale and compare finite readings; there
      a number is a rational [Q], and the definitions compute.
    - [Date.now()], the random alert-id suffix, [toFixed] and the outcome of
      the persistence layer are supplied by an environment record. *)

From Stdlib Require Import QArith Qreals Reals Lra Lia.
From stdpp Require Import base option list strings gmap pretty sorting.

Set Default Proof Using "Type".

(** ** Exceptions *)

Inductive exn : Type :=
| Error (message : string)
| TypeError (message : string).

Inductive result (A : Type) : Type :=
| Ok (a : A)
| Throw (e : exn).
Arguments Ok {A} a.
Arguments Throw {A} e.

Definition rbind {A B : Type} (m : result A) (k : A -> result B) : result B :=
  match m with
  | Ok a => k a
  | Throw e => Throw e
  end.

Definition try_catch {A : Type} (body : result A) (handler : exn -> result A) : result A :=
  match body with
  | Ok a => Ok a
  | Throw e => handler e
  end.

Definition raises {A : Type} (m : result A) : Prop :=
  match m with
  | Ok _ => False
  | Throw _ => True
  end.

#[global] Instance result_ret : MRet result := fun _ a => Ok a.
#[global] Instance result_bind : MBind result := fun _ _ k m => rbind m k.

(** ** JavaScript numbers with their special values *)

Module JsNum.

Local Open Scope R_scope.

Inductive num : Type :=
| Fin (r : R)
| PInf
| NInf
| NaN.

Definition of_nat (n : nat) : num := Fin (INR n).

Definition neg (x : num) : num :=
  match x with
  | Fin r => Fin (- r)
  | PInf => NInf
  | NInf => PInf
  | NaN => NaN
  end.

Definition add (x y : num) : num :=
  match x, y with
  | NaN, _ | _, NaN => NaN
  | Fin a, Fin b => Fin (a + b)
  | PInf, NInf | NInf, PInf => NaN
  | PInf, _ | _, PInf => PInf
  | NInf, _ | _, NInf => NInf
  end.

Definition sub (x y : num) : num := add x (neg y).

(** The sign of a real: [Lt] negative, [Eq] zero, [Gt] positive. *)
Definition sign (r : R) : comparison :=
  match total_order_T r 0 with
  | inleft (left _) => Lt
  | inleft (right _) => Eq
  | inright _ => Gt
  end.

(** An infinity scaled by a real of the given sign. *)
Definition scale_inf (positive_inf : bool) (s : comparison) : num :=
  match s with
  | Eq => NaN
  | Gt => if positive_inf then PInf else NInf
  | Lt => if positive_inf then NInf else PInf
  end.

Definition mul (x y : num) : num :=
  match x, y with
  | NaN, _ | _, NaN => NaN
  | Fin a, Fin b => Fin (a * b)
  | Fin a, PInf | PInf, Fin a => scale_inf true (sign a)
  | Fin a, NInf | NInf, Fin a => scale_inf false (sign a)
  | PInf, PInf | NInf, NInf => PInf
  | PInf, NInf | NInf, PInf => NaN
  end.

(** Division. Every zero divisor of the modelled code is a count or a
    difference, hence the positive zero: a non-zero dividend keeps its sign. *)
Definition div (x y : num) : num :=
  match x, y with
  | NaN, _ | _, NaN => NaN
  | Fin a, Fin b =>
      match sign b with
      | Eq => match sign a with
              | Eq => NaN
              | Gt => PInf
              | Lt => NInf
              end
      | _ => Fin (a / b)
      end
  | Fin _, (PInf | NInf) => Fin 0
  | PInf, Fin b => match sign b with Lt => NInf | _ => PInf end
  | NInf, Fin b => match sign b with Lt => PInf | _ => NInf end
  | (PInf | NInf), (PInf | NInf) => NaN
  end.

(** [Math.log] *)
Definition log (x : num) : num :=
  match x with
  | NaN | NInf => NaN
  | PInf => PInf
  | Fin r => match sign r with
             | Lt => NaN
             | Eq => NInf
             | Gt => Fin (ln r)
             end
  end.

(** [Math.pow(2, x)] *)
Definition pow2 (x : num) : num :=
  match x with
  | NaN => NaN
  | PInf => PInf
  | NInf => Fin 0
  | Fin r => Fin (Rpower 2 r)
  end.

(** [Math.sqrt] *)
Definition sqrt (x : num) : num :=
  match x with
  | NaN | NInf => NaN
  | PInf => PInf
  | Fin r => match sign r with
             | Lt => NaN
             | _ => Fin (R_sqrt.sqrt r)
             end
  end.

(** [x || d] on numbers: [0] and NaN are falsy. *)
Definition or_else (x d : num) : num :=
  match x with
  | NaN => d
  | Fin r => match sign r with Eq => d | _ => x end
  | _ => x
  end.

(** [Math.min(a, b)] and [Math.max(a, b)]; NaN wins. *)
Definition min2 (x y : num) : num :=
  match x, y with
  | NaN, _ | _, NaN => NaN
  | NInf, _ | _, NInf => NInf
  | PInf, z | z, PInf => z
  | Fin a, Fin b => Fin (Rmin a b)
  end.

Definition max2 (x y : num) : num :=
  match x, y with
  | NaN, _ | _, NaN => NaN
  | PInf, _ | _, PInf => PInf
  | NInf, z | z, NInf => z
  | Fin a, Fin b => Fin (Rmax a b)
  end.

(** [Math.min(...values)] is [Infinity] and [Math.max(...values)] is
    [-Infinity] on no argument. *)
Definition min_of (values : list num) : num := foldr min2 PInf values.
Definition max_of (values : list num) : num := foldr max2 NInf values.

(** [x < y]; false as soon as one side is NaN. *)
Definition lt (x y : num) : bool :=
  match x, y with
  | NaN, _ | _, NaN => false
  | Fin a, Fin b => if Rlt_dec a b then true else false
  | NInf, (Fin _ | PInf) => true
  | Fin _, PInf => true
  | _, _ => false
  end.

(** *** The range of binary64

    The operations above are exact. Those below have the range of a
    JavaScript number as well: a result at or beyond [2 ^ 1024 - 2 ^ 970],
    the point from which binary64 rounds to an infinity, is that infinity.
    Rounding within the range is not modelled. *)
Definition overflow_bound : R := 2 ^ 1024 - 2 ^ 970.

Definition in_range (r : R) : num :=
  if Rle_dec overflow_bound r then PInf
  else if Rle_dec r (- overflow_bound) then NInf
  else Fin r.

Definition ranged (x : num) : num :=
  match x with
  | Fin r => in_range r
  | _ => x
  end.

Definition add64 (x y : num) : num := ranged (add x y).
Definition sub64 (x y : num) : num := ranged (sub x y).
Definition mul64 (x y : num) : num := ranged (mul x y).
Definition div64 (x y : num) : num := ranged (div x y).

End JsNum.

(** ** Isolation forest (ml/anomalyDetector.js) *)

Module IsolationForest.
Import JsNum.

(** An isolation tree: [{type:'leaf', size}] or
    [{type:'internal', featureIndex, splitValue, left, right}]. *)
Inductive tree : Type :=
| Leaf (size : nat)
| Internal (featureIndex : nat) (splitValue : num) (left right : tree).

Record forest : Type := Forest {
  numTrees : nat;
  sampleSize : nat;
  contamination : num;
  trees : list tree;
  trained : bool
}.

(** [new IsolationForest(numTrees = 100, sampleSize = 256, contamination = 0.1)] *)
Definition create (numTrees sampleSize : nat) (contamination : num) : forest :=
  Forest numTrees sampleSize contamination [] false.

Definition create_default : forest := create 100 256 (Fin (1 / 10)).

(** The argument of [predict]: an array of numbers, or [None] for [null] and
    [undefined], on which an element access throws. *)
Definition point : Type := option (list num).

(** [0.5772156649] *)
Definition euler_gamma : R := (5772156649 / 10000000000)%R.

(** [2 * (Math.log(n - 1) + 0.5772156649) - (2 * (n - 1) / n)], the average
    path length of an unsuccessful search in a binary search tree; it is
    written twice in the source, for [tree.size] and for [this.sampleSize]. *)
Definition avg_path_bst (n : nat) : num :=
  sub (mul (Fin 2) (add (log (sub (of_nat n) (Fin 1))) (Fin euler_gamma)))
      (div (mul (Fin 2) (sub (of_nat n) (Fin 1))) (of_nat n)).

(** The value of that expression on a size above one, as a real number. *)
Definition c_real (n : nat) : R :=
  (2 * (ln (INR n - 1) + euler_gamma) - 2 * (INR n - 1) / INR n)%R.

(** [const c = tree.size > 1 ? ... : 0] *)
Definition leaf_correction (size : nat) : num :=
  if (1 <? size)%nat then avg_path_bst size else Fin 0.

(** [point[i] < splitValue], where a missing element is [undefined] and
    compares false. *)
Definition elem_lt (p : list num) (i : nat) (splitValue : num) : bool :=
  match p !! i with
  | Some v => lt v splitValue
  | None => false
  end.

Fixpoint pathLength (pt : point) (t : tree) (currentDepth : nat) : result num :=
  match t with
  | Leaf size => Ok (add (of_nat currentDepth) (leaf_correction size))
  | Internal featureIndex splitValue tleft tright =>
      match pt with
      | None => Throw (TypeError "Cannot read properties of undefined")
      | Some p =>
          if elem_lt p featureIndex splitValue
          then pathLength pt tleft (S currentDepth)
          else pathLength pt tright (S currentDepth)
      end
  end.

(** [this.trees.reduce((sum, tree) => sum + this.pathLength(point, tree), 0)] *)
Fixpoint sum_path_lengths (pt : point) (ts : list tree) (sum : num) : result num :=
  match ts with
  | [] => Ok sum
  | t :: ts' =>
      match pathLength pt t 0 with
      | Ok len => sum_path_lengths pt ts' (add sum len)
      | Throw e => Throw e
      end
  end.

(** The body of the [try] block of [predict]. *)
Definition anomaly_score (f : forest) (pt : point) : result num :=
  match sum_path_lengths pt (trees f) (Fin 0) with
  | Throw e => Throw e
  | Ok total =>
      let avgPathLength := div total (of_nat (numTrees f)) in
      let c := avg_path_bst (sampleSize f) in
      Ok (pow2 (div (neg avgPathLength) c))
  end.

Definition predict (f : forest) (pt : point) : result num :=
  if negb (trained f) || (length (trees f) =? 0)%nat
  then Ok (Fin 0)
  else try_catch (anomaly_score f pt) (fun _ => Ok (Fin 0)).

(** [data.map(point => this.predict(point))] *)
Fixpoint predict_each (f : forest) (data : list point) : result (list num) :=
  match data with
  | [] => Ok []
  | pt :: rest =>
      match predict f pt, predict_each f rest with
      | Ok s, Ok ss => Ok (s :: ss)
      | Throw e, _ | _, Throw e => Throw e
      end
  end.

(** [predictBatch]: [None] is an argument that is not an array. *)
Definition predictBatch (f : forest) (data : option (list point)) : result (list num) :=
  match data with
  | None => Ok []
  | Some pts => predict_each f pts
  end.

(** [fit(data)]: [numTrees] trees are pushed and [trained] is set. The tree
    built for the [i]-th bootstrap sample depends on [Math.random]; [grow]
    stands for [buildTree] applied to that sample. *)
Definition fit (grow : nat -> list (list num) -> tree) (f : forest)
    (data : list (list num)) : forest :=
  Forest (numTrees f) (sampleSize f) (contamination f)
         (map (fun i => grow i data) (seq 0 (numTrees f))) true.

(** With a sample size of 0 every bootstrap sample is empty and every tree
    is a leaf of size 0; the normaliser is [Math.log(-1)]. *)
Definition degenerate_forest : forest :=
  fit (fun _ _ => Leaf 0) (create 1 0 (Fin (1 / 10)%R)) [[Fin 1%R]].

(** *** Growing the trees *)

(** A value of [Math.random()]: a real in [0, 1). The random source is the
    sequence of the values drawn, and the number of values drawn so far is
    passed along. *)
Record unit_draw : Type := UnitDraw {
  draw : R;
  draw_range : (0 <= draw < 1)%R
}.

Definition random_source : Type := nat -> unit_draw.

(** [Math.floor(Math.random() * n)] *)
Definition random_below (u : unit_draw) (n : nat) : nat :=
  Z.to_nat (Int_part (draw u * INR n)).

(** [point[i]] as a number: a missing element is [undefined], which is NaN
    to [Math.min], [Math.max] and the comparisons. *)
Definition elem (p : list num) (i : nat) : num := default NaN (p !! i).

(** [x >= y]; false as soon as one side is NaN. *)
Definition ge (x y : num) : bool :=
  match x, y with
  | NaN, _ | _, NaN => false
  | _, _ => negb (lt x y)
  end.

(** [Math.ceil(Math.log2(sampleSize))]: [-Infinity], written [None], for a
    sample size of 0, else the least [d] with [sampleSize <= 2 ^ d]. *)
Definition ceil_log2 (sampleSize : nat) : option nat :=
  if (sampleSize =? 0)%nat then None else Some (Nat.log2_up sampleSize).

(** [currentDepth >= maxDepth] *)
Definition depth_reached (currentDepth : nat) (maxDepth : option nat) : bool :=
  match maxDepth with
  | None => true
  | Some d => (d <=? currentDepth)%nat
  end.

(** [buildTree(data, currentDepth, maxDepth)] with [drawn] values of the
    random source used so far; the result carries the number used
    afterwards. Both parts of a split are non-empty and disjoint, so each
    recursive call is on a shorter array and [fuel] is the length of the
    array. *)
Fixpoint buildTree_rec (fuel : nat) (random : random_source) (drawn : nat)
    (data : list (list num)) (currentDepth : nat) (maxDepth : option nat)
    : tree * nat :=
  if (length data <=? 1)%nat || depth_reached currentDepth maxDepth
  then (Leaf (length data), drawn)
  else
    match fuel with
    | O => (Leaf (length data), drawn)
    | S fuel' =>
        let numFeatures := length (default [] (head data)) in
        let featureIndex := random_below (random drawn) numFeatures in
        let featureValues := map (fun point => elem point featureIndex) data in
        let minVal := min_of featureValues in
        let maxVal := max_of featureValues in
        let splitValue :=
          add minVal (mul (Fin (draw (random (S drawn)))) (sub maxVal minVal)) in
        let leftData :=
          filter (fun point => lt (elem point featureIndex) splitValue = true)
                 data in
        let rightData :=
          filter (fun point => ge (elem point featureIndex) splitValue = true)
                 data in
        if (length leftData =? 0)%nat || (length rightData =? 0)%nat
        then (Leaf (length data), S (S drawn))
        else
          let '(tleft, drawn1) :=
            buildTree_rec fuel' random (S (S drawn)) leftData
                          (S currentDepth) maxDepth in
          let '(tright, drawn2) :=
            buildTree_rec fuel' random drawn1 rightData
                          (S currentDepth) maxDepth in
          (Internal featureIndex splitValue tleft tright, drawn2)
    end.

Definition buildTree (random : random_source) (drawn : nat)
    (data : list (list num)) (currentDepth : nat) (maxDepth : option nat)
    : tree * nat :=
  buildTree_rec (length data) random drawn data currentDepth maxDepth.

(** The inner loop of [fit]: [remaining] draws with replacement. An index
    below [data.length] always holds a point. *)
Fixpoint bootstrap (random : random_source) (drawn : nat)
    (data : list (list num)) (remaining : nat) (sample : list (list num))
    : list (list num) * nat :=
  match remaining with
  | O => (sample, drawn)
  | S remaining' =>
      let randomIndex := random_below (random drawn) (length data) in
      bootstrap random (S drawn) data remaining'
                (sample ++ option_list (data !! randomIndex))
  end.

(** The outer loop of [fit]. *)
Fixpoint grow_trees (random : random_source) (drawn : nat) (sampleSize : nat)
    (data : list (list num)) (remaining : nat) (trees : list tree)
    : list tree * nat :=
  match remaining with
  | O => (trees, drawn)
  | S remaining' =>
      let '(sample, drawn1) :=
        bootstrap random drawn data (Nat.min sampleSize (length data)) [] in
      let '(t, drawn2) :=
        buildTree random drawn1 sample 0 (ceil_log2 sampleSize) in
      grow_trees random drawn2 sampleSize data remaining' (trees ++ [t])
  end.

(** [fit(data)] with its random choices made. *)
Definition fit_random (random : random_source) (drawn : nat) (f : forest)
    (data : list (list num)) : forest * nat :=
  let '(grown, drawn') :=
    grow_trees random drawn (sampleSize f) data (numTrees f) [] in
  (Forest (numTrees f) (sampleSize f) (contamination f) grown true, drawn').

(** *** Notions used to state the properties *)

(** The sizes of the leaves of a tree, added up, and the length of its
    longest branch. *)
Fixpoint leaf_total (t : tree) : nat :=
  match t with
  | Leaf size => size
  | Internal _ _ tleft tright => (leaf_total tleft + leaf_total tright)%nat
  end.

Fixpoint height (t : tree) : nat :=
  match t with
  | Leaf _ => O
  | Internal _ _ tleft tright => S (Nat.max (height tleft) (height tright))
  end.

(** Every leaf holds at least one point. *)
Fixpoint leaves_inhabited (t : tree) : bool :=
  match t with
  | Leaf size => (1 <=? size)%nat
  | Internal _ _ tleft tright => leaves_inhabited tleft && leaves_inhabited tright
  end.

End IsolationForest.

(** [arr.slice(from, to)] for [0 <= from <= to]: the elements at the
    indices from [from] up to but without [to], as far as the array goes. *)
Definition slice {A : Type} (from to : nat) (arr : list A) : list A :=
  take (to - from) (drop from arr).

(** ** Data preprocessor (ml/dataPreprocessor.js) *)

Module DataPreprocessor.
Import JsNum.

(** The objects stored in [this.scalers]: [{min, max, range}] by [normalize],
    [{mean, std}] by [standardize]. *)
Inductive scaler : Type :=
| MinMax (min max range : num)
| Standard (mean std : num).

(** [scaler.range] and [scaler.min]; [None] is [undefined]. *)
Definition scaler_range (s : scaler) : option num :=
  match s with
  | MinMax _ _ range => Some range
  | Standard _ _ => None
  end.

Definition scaler_min (s : scaler) : option num :=
  match s with
  | MinMax min _ _ => Some min
  | Standard _ _ => None
  end.

Record preprocessor : Type := Preprocessor {
  scalers : gmap string scaler
}.

Definition create : preprocessor := Preprocessor ∅.

(** The [data] argument: an array, or a single number that is wrapped by
    [Array.isArray(data) ? data : [data]]. *)
Inductive data_arg : Type :=
| Many (values : list num)
| One (value : num).

Definition as_values (data : data_arg) : list num :=
  match data with
  | Many values => values
  | One value => [value]
  end.

Definition normalize (data : data_arg) (featureName : string) (this : preprocessor)
    : list num * preprocessor :=
  let values := as_values data in
  let min := min_of values in
  let max := max_of values in
  let range := or_else (sub64 max min) (Fin 1) in
  (map (fun val => div64 (sub64 val min) range) values,
   Preprocessor (<[featureName := MinMax min max range]> (scalers this))).

Definition denormalize (normalizedData : data_arg) (featureName : string)
    (this : preprocessor) : result (list num) :=
  match scalers this !! featureName with
  | None => Throw (Error ("No scaler found for feature: " +:+ featureName))
  | Some scaler =>
      let values := as_values normalizedData in
      Ok (map (fun val =>
                 match scaler_range scaler, scaler_min scaler with
                 | Some range, Some min => add64 (mul64 val range) min
                 | _, _ => NaN
                 end) values)
  end.

(** [values.reduce((sum, val) => sum + f(val), 0)] *)
Definition sum_with (f : num -> num) (values : list num) : num :=
  foldl (fun sum val => add sum (f val)) (Fin 0) values.

(** The same sum with the range of binary64. *)
Definition sum_with64 (f : num -> num) (values : list num) : num :=
  foldl (fun sum val => add64 sum (f val)) (Fin 0) values.

Definition standardize (data : data_arg) (featureName : string) (this : preprocessor)
    : list num * preprocessor :=
  let values := as_values data in
  let n := of_nat (length values) in
  let mean := div64 (sum_with64 (fun val => val) values) n in
  let variance :=
    div64 (sum_with64 (fun val => mul64 (sub64 val mean) (sub64 val mean)) values)
          n in
  let std := or_else (sqrt variance) (Fin 1) in
  (map (fun val => div64 (sub64 val mean) std) values,
   Preprocessor (<[featureName := Standard mean std]> (scalers this))).

(** *** Notions used to state the properties *)

(** A call that records scaling parameters, and a sequence of such calls. *)
Inductive scaling_call : Type :=
| CallNormalize (data : data_arg) (featureName : string)
| CallStandardize (data : data_arg) (featureName : string).

Definition call_feature (c : scaling_call) : string :=
  match c with
  | CallNormalize _ featureName | CallStandardize _ featureName => featureName
  end.

Definition perform (this : preprocessor) (c : scaling_call) : preprocessor :=
  match c with
  | CallNormalize data featureName => (normalize data featureName this).2
  | CallStandardize data featureName => (standardize data featureName this).2
  end.

Definition perform_all (calls : list scaling_call) (this : preprocessor)
    : preprocessor :=
  foldl perform this calls.

(** *** Trend, windows and missing values *)

(** [x === 0] *)
Definition is_zero (x : num) : bool :=
  match x with
  | Fin r => match sign r with Eq => true | _ => false end
  | _ => false
  end.

(** The [for] loop of [calculateTrend] from the index [i] on;
    [Math.pow(x, 2)] is [x * x]. The arithmetic of the scalings and of the
    trend has the range of binary64. *)
Fixpoint trend_sums (xMean yMean : num) (i : nat) (rest : list num)
    (numerator denominator : num) : num * num :=
  match rest with
  | [] => (numerator, denominator)
  | y :: rest' =>
      trend_sums xMean yMean (S i) rest'
        (add64 numerator (mul64 (sub64 (of_nat i) xMean) (sub64 y yMean)))
        (add64 denominator
               (mul64 (sub64 (of_nat i) xMean) (sub64 (of_nat i) xMean)))
  end.

Definition calculateTrend (data : list num) : num :=
  let n := length data in
  if (n <? 2)%nat then Fin 0
  else
    let xMean := div64 (sub64 (of_nat n) (Fin 1)) (Fin 2) in
    let yMean := div64 (sum_with64 (fun val => val) data) (of_nat n) in
    let '(numerator, denominator) :=
      trend_sums xMean yMean 0 data (Fin 0) (Fin 0) in
    if is_zero denominator then Fin 0 else div64 numerator denominator.

(** The [for] loop of [createWindows] from the index [i] on, for at most
    [fuel] rounds. *)
Fixpoint windows_from {A : Type} (fuel : nat) (data : list A)
    (windowSize stride i : nat) : list (list A) :=
  match fuel with
  | O => []
  | S fuel' =>
      if (i + windowSize <=? length data)%nat
      then slice i (i + windowSize) data
             :: windows_from fuel' data windowSize stride (i + stride)
      else []
  end.

(** [createWindows(data, windowSize = 10, stride = 1)] for natural numbers.
    With a stride of 0 the index never moves: unless the first test fails
    the loop does not end, which is [None]. Otherwise the index passes
    [data.length] within [data.length + 1] rounds. *)
Definition createWindows {A : Type} (data : list A) (windowSize stride : nat)
    : option (list (list A)) :=
  if (stride =? 0)%nat && (windowSize <=? length data)%nat then None
  else Some (windows_from (S (length data)) data windowSize stride 0).

(** An element of the array given to [fillMissing]: a number, or [None] for
    [null] and [undefined]. The test
    [val !== null && val !== undefined && !isNaN(val)]: *)
Definition present (val : option num) : bool :=
  match val with
  | None | Some NaN => false
  | Some _ => true
  end.

(** The order that the comparator [(a, b) => a - b] sorts by; on numbers
    that are not NaN it is a total preorder whose ties are equal numbers, so
    that the sorted array does not depend on the sorting algorithm. *)
Definition sorts_before (a b : num) : Prop := lt b a = false.

#[global] Instance sorts_before_dec : RelDecision sorts_before.
Proof. intros a b. unfold sorts_before. apply _. Defined.

(** [data.filter(val => val !== null && val !== undefined && !isNaN(val))] *)
Definition kept (data : list (option num)) : list num :=
  omap (fun val => if present val then val else None) data.

(** [fillMissing(data, strategy = 'mean')] *)
Definition fillMissing (data : list (option num)) (strategy : string)
    : list (option num) :=
  let values := kept data in
  if (length values =? 0)%nat then data
  else
    let fillValue :=
      if String.eqb strategy "mean"
      then Some (div (sum_with (fun val => val) values) (of_nat (length values)))
      else if String.eqb strategy "median"
      then merge_sort sorts_before values !! (length values / 2)%nat
      else Some (Fin 0) in
    map (fun val => if present val then val else fillValue) data.

End DataPreprocessor.

(** [x || d] on an exact rational: only [0] is falsy. *)
Definition q_or_else (x d : Q) : Q := if Qeq_bool x 0%Q then d else x.

(** [arr.slice(-n)]: the last [n] elements; [slice(-0)] is [slice(0)], the
    whole array. *)
Definition slice_last {A : Type} (n : nat) (arr : list A) : list A :=
  if (n =? 0)%nat then arr else drop (length arr - n) arr.

(** ** Sequence predictor (ml/timeSeriesPredictor.js) *)

Module LSTMPredictor.
Local Open Scope Q_scope.

(** The fitted TensorFlow model as [predict] uses it: building the input
    tensor, [model.predict], [prediction.data()], reading [value[0]] and
    disposing of the tensors. Any of these may throw, and all of them stand
    inside the [try] block. *)
Definition network : Type := list Q -> result Q.

Record norm_params : Type := NormParams { min : Q; max : Q }.

Record predictor : Type := Predictor {
  inputShape : nat;
  hiddenUnits : nat;
  model : option network;
  normParams : option norm_params;
  trained : bool
}.

(** [new LSTMPredictor(inputShape = 10, hiddenUnits = 50)] *)
Definition create (inputShape hiddenUnits : nat) : predictor :=
  Predictor inputShape hiddenUnits None None false.

(** [denormalize(value, min, max)] *)
Definition denormalize (value min max : Q) : Q := value * (max - min) + min.

(** [Array.isArray(sequence) && sequence.length ? sequence[sequence.length - 1] : 0];
    a [sequence] that is not an array is [None]. *)
Definition last_known (sequence : option (list Q)) : Q :=
  match sequence with
  | Some values => default 0 (last values)
  | None => 0
  end.

(** [!this.trained || !this.model || !this.normParams] *)
Definition unusable (this : predictor) : bool :=
  negb (trained this) || negb (bool_decide (is_Some (model this)))
  || negb (bool_decide (is_Some (normParams this))).

(** The body of the [try] block of [predict]. *)
Definition infer (net : network) (np : norm_params) (sequence : option (list Q))
    : result Q :=
  match sequence with
  | None => Throw (TypeError "sequence.map is not a function")
  | Some values =>
      let normalized :=
        map (fun val => (val - min np) / q_or_else (max np - min np) 1) values in
      value ← net normalized;
      Ok (denormalize value (min np) (max np))
  end.

Definition predict (this : predictor) (sequence : option (list Q)) : result Q :=
  let last := last_known sequence in
  match trained this, model this, normParams this with
  | true, Some net, Some np => try_catch (infer net np sequence) (fun _ => Ok last)
  | _, _, _ => Ok last
  end.

(** The [for] loop of [predictMultiStep]; [remaining] is [steps - i]. *)
Fixpoint multi_step_loop (this : predictor) (remaining : nat)
    (predictions currentSequence : list Q) : result (list Q) :=
  match remaining with
  | O => Ok predictions
  | S remaining' =>
      let window := slice_last (inputShape this) currentSequence in
      nextValue ← predict this (Some window);
      multi_step_loop this remaining' (predictions ++ [nextValue])
                      (currentSequence ++ [nextValue])
  end.

Definition predictMultiStep (this : predictor) (sequence : option (list Q))
    (steps : nat) : result (list Q) :=
  let last := last_known sequence in
  if unusable this
  then Ok (replicate steps last)
  else
    match sequence with
    | None => Throw (TypeError "sequence is not iterable")
    | Some values => multi_step_loop this steps [] values
    end.

(** [load(path)]: [tf.loadLayersModel] gives the network or throws; the
    scaling parameters are set by [train] only and stay as they are. *)
Definition load (loaded : result network) (this : predictor) : result predictor :=
  net ← loaded;
  Ok (Predictor (inputShape this) (hiddenUnits this) (Some net)
                (normParams this) true).

(** [denormalize] on every number that [value[0]] can be, NaN and the
    infinities included, with the range of binary64. *)
Definition denormalize_num (value min max : JsNum.num) : JsNum.num :=
  JsNum.add64 (JsNum.mul64 value (JsNum.sub64 max min)) min.

(** The [for] loop of [prepareSequences] from the index [i] on: [remaining]
    is [data.length - lookback - i]. [y] takes [data[i + lookback]], which
    is [undefined], written [None], outside the array. *)
Fixpoint sequences_from {A : Type} (data : list A) (lookback : nat)
    (remaining i : nat) (X : list (list A)) (y : list (option A))
    : list (list A) * list (option A) :=
  match remaining with
  | O => (X, y)
  | S remaining' =>
      sequences_from data lookback remaining' (S i)
        (X ++ [slice i (i + lookback) data]) (y ++ [data !! (i + lookback)%nat])
  end.

(** [prepareSequences(data, lookback = 10)]: the loop runs while
    [i < data.length - lookback]. *)
Definition prepareSequences {A : Type} (data : list A) (lookback : nat)
    : list (list A) * list (option A) :=
  sequences_from data lookback (length data - lookback) 0 [] [].

End LSTMPredictor.

(** ** Process classifier (ml/processClassifier.js) *)

Module ProcessClassifier.
Local Open Scope Q_scope.

(** The random-forest model of [ml-random-forest] as [predict] uses it.
    [rf_predict] answers [const [prediction] = this.model.predict([features])],
    with [None] for an [undefined] first element; [rf_predictionProba] is
    absent when the model has no such method, and its answer is the first
    element [proba] of what it returns. *)
Record rf_model : Type := RfModel {
  rf_predict : list Q -> result (option nat);
  rf_predictionProba : option (list Q -> result (option (list Q)))
}.

Record classifier : Type := Classifier {
  model : option rf_model;
  classes : list string;
  trained : bool
}.

Definition create : classifier :=
  Classifier None
    ["web-server"; "database"; "application"; "cache"; "ml-training"; "system"]
    false.

Record process : Type := Process {
  cpu : Q;
  memory : Q;
  threads : Q;
  priority : Q;
  ioRead : Q;
  ioWrite : Q;
  networkSent : Q;
  networkReceived : Q
}.

(** [{class, confidence, probabilities}]; [class] is [None] when
    [this.classes[prediction]] is [undefined]. *)
Record prediction : Type := Prediction {
  class : option string;
  confidence : Q;
  probabilities : gmap string Q
}.

Definition defaultResult : prediction := Prediction (Some "unknown") 0 ∅.

(** The argument of [predict] is [None] for [null] and [undefined]. *)
Definition extractFeatures (proc : option process) : result (list Q) :=
  match proc with
  | None => Throw (TypeError "Cannot read properties of undefined")
  | Some p =>
      Ok [ q_or_else (cpu p) 0; q_or_else (memory p) 0; q_or_else (threads p) 1;
           q_or_else (priority p) 0; q_or_else (ioRead p) 0;
           q_or_else (ioWrite p) 0; q_or_else (networkSent p) 0;
           q_or_else (networkReceived p) 0 ]
  end.

(** [proba?.[i] ?? 0] *)
Definition proba_at (proba : option (list Q)) (i : option nat) : Q :=
  match proba, i with
  | Some ps, Some i => default 0 (ps !! i)
  | _, _ => 0
  end.

(** [this.classes.reduce((acc, cls, idx) => { acc[cls] = proba?.[idx] ?? 0; return acc }, {})] *)
Fixpoint class_probabilities (proba : option (list Q)) (cls : list string)
    (idx : nat) (acc : gmap string Q) : gmap string Q :=
  match cls with
  | [] => acc
  | c :: rest =>
      class_probabilities proba rest (S idx) (<[c := proba_at proba (Some idx)]> acc)
  end.

(** The body of the [try] block of [predict]. *)
Definition classify (this : classifier) (m : rf_model) (proc : option process)
    : result prediction :=
  features ← extractFeatures proc;
  pred ← rf_predict m features;
  let className := pred ≫= (fun i => classes this !! i) in
  match rf_predictionProba m with
  | None => Ok (Prediction className 0 ∅)
  | Some predictionProba =>
      proba ← predictionProba features;
      Ok (Prediction className (proba_at proba pred)
                     (class_probabilities proba (classes this) 0%nat ∅))
  end.

Definition predict (this : classifier) (proc : option process) : result prediction :=
  match trained this, model this with
  | true, Some m => try_catch (classify this m proc) (fun _ => Ok defaultResult)
  | _, _ => Ok defaultResult
  end.

End ProcessClassifier.

(** ** Model trainer (ml/modelTrainer.js): labelled data for the classifier *)

Module ModelTrainer.
Local Open Scope Q_scope.

(** [name.includes(part)] *)
Fixpoint includes (name part : string) : bool :=
  String.prefix part name
  || match name with
     | EmptyString => false
     | String _ rest => includes rest part
     end.

(** A letter of [A-Z] in lower case; [toLowerCase] on an ASCII name. *)
Definition lower (c : Ascii.ascii) : Ascii.ascii :=
  let n := Ascii.nat_of_ascii c in
  if (65 <=? n)%nat && (n <=? 90)%nat then Ascii.ascii_of_nat (n + 32) else c.

Fixpoint toLowerCase (s : string) : string :=
  match s with
  | EmptyString => EmptyString
  | String c rest => String (lower c) (toLowerCase rest)
  end.

(** A stored record as [createLabeledData] reads it: [processName] and the
    fields of [metrics]. *)
Record metrics_record : Type := MetricsRecord {
  processName : string;
  r_cpu : Q;
  r_memory : Q;
  r_threads : Q;
  r_ioRead : Q;
  r_ioWrite : Q
}.

(** [{process, label}] *)
Record labeled_item : Type := LabeledItem {
  process : ProcessClassifier.process;
  label : string
}.

(** The heuristic labelling of one record. *)
Definition label_of (record : metrics_record) : string :=
  let name := toLowerCase (processName record) in
  if includes name "nginx" || includes name "apache" || includes name "httpd"
  then "web-server"
  else if includes name "postgres" || includes name "mysql"
          || includes name "mongo"
  then "database"
  else if includes name "redis" || includes name "memcache"
  then "cache"
  else if includes name "python" && negb (Qle_bool (r_cpu record) 50)
  then "ml-training"
  else if includes name "system" || includes name "kernel"
  then "system"
  else "application".

(** [createLabeledData(data)]; [random] lists the values of [Math.random()]
    in the order they are drawn, two for each record. *)
Definition createLabeledData (random : nat -> Q) (data : list metrics_record)
    : list labeled_item :=
  imap (fun i record =>
          LabeledItem
            (ProcessClassifier.Process
               (q_or_else (r_cpu record) 0) (q_or_else (r_memory record) 0)
               (q_or_else (r_threads record) 1) 10
               (q_or_else (r_ioRead record) 0) (q_or_else (r_ioWrite record) 0)
               (random (2 * i)%nat * 1000) (random (2 * i + 1)%nat * 1000))
            (label_of record))
       data.

(** [this.classes.indexOf(label)]: the first index of the label, -1 when
    the label is not a class. *)
Definition indexOf (classes : list string) (label : string) : Z :=
  match list_find (fun c => c = label) classes with
  | Some (i, _) => Z.of_nat i
  | None => (-1)%Z
  end.

(** [trainingData.map(item => this.classes.indexOf(item.label))], the label
    vector that [ProcessClassifier.train] hands to the random forest. *)
Definition training_labels (this : ProcessClassifier.classifier)
    (trainingData : list labeled_item) : list Z :=
  map (fun item => indexOf (ProcessClassifier.classes this) (label item))
      trainingData.

End ModelTrainer.

(** ** ML service (services/mlService.js) *)

Module MLService.
Local Open Scope Q_scope.

(** A key of the [metricsHistory] map: the numeric pid that
    [analyzeProcess] receives, or the string of a request parameter. *)
Inductive process_id : Type :=
| PidNum (n : Z)
| PidStr (s : string).

#[global] Instance process_id_eq_dec : EqDecision process_id.
Proof. solve_decision. Defined.

#[global] Instance process_id_countable : Countable process_id.
Proof.
  refine (inj_countable'
            (fun p => match p with PidNum n => inl n | PidStr s => inr s end)
            (fun x => match x with inl n => PidNum n | inr s => PidStr s end) _).
  intros []; reflexivity.
Defined.

(** The [metrics] argument of [storeMetrics]. *)
Record metrics : Type := Metrics {
  m_cpu : Q;
  m_memory : Q;
  m_ioRead : Q;
  m_ioWrite : Q
}.

(** [{...metrics, timestamp: Date.now()}] *)
Record snapshot : Type := Snapshot {
  cpu : Q;
  memory : Q;
  ioRead : Q;
  ioWrite : Q;
  timestamp : Z
}.

Definition stamp (m : metrics) (now : Z) : snapshot :=
  Snapshot (m_cpu m) (m_memory m) (m_ioRead m) (m_ioWrite m) now.

Record service : Type := Service {
  anomalyDetector : IsolationForest.forest;
  predictor : LSTMPredictor.predictor;
  classifier : ProcessClassifier.classifier;
  preprocessor : DataPreprocessor.preprocessor;
  metricsHistory : gmap process_id (list snapshot);
  maxHistorySize : nat;
  isTraining : bool
}.

Definition create : service :=
  Service (IsolationForest.create 100 256 (JsNum.Fin (1 / 10)%R))
          (LSTMPredictor.create 10 50)
          ProcessClassifier.create
          DataPreprocessor.create
          ∅ 100 false.

Definition with_history (this : service) (h : gmap process_id (list snapshot))
    : service :=
  Service (anomalyDetector this) (predictor this) (classifier this)
          (preprocessor this) h (maxHistorySize this) (isTraining this).

(** [history.shift()] *)
Definition shift {A : Type} (arr : list A) : list A := tail arr.

(** [storeMetrics(processId, metrics)] at the instant [now]. The array held
    by the map is updated in place: an entry is created when missing, the
    snapshot is pushed, and the first element is shifted out when the length
    exceeds [maxHistorySize]. *)
Definition storeMetrics (processId : process_id) (m : metrics) (now : Z)
    (this : service) : service :=
  let history := default [] (metricsHistory this !! processId) in
  let pushed := history ++ [stamp m now] in
  let kept :=
    if (maxHistorySize this <? length pushed)%nat then shift pushed else pushed in
  with_history this (<[processId := kept]> (metricsHistory this)).

(** The history of a process as the service holds it. *)
Definition history_of (this : service) (processId : process_id) : list snapshot :=
  default [] (metricsHistory this !! processId).

(** [predictFuture(processId, steps = 5)]; [None] is [null]. *)
Definition predictFuture (this : service) (processId : process_id) (steps : nat)
    : result (option (list Q)) :=
  try_catch
    (if negb (LSTMPredictor.trained (predictor this)) then Ok None
     else
       match metricsHistory this !! processId with
       | None => Ok None
       | Some history =>
           if (length history <? 10)%nat then Ok None
           else
             let cpuHistory := map (fun m => q_or_else (cpu m) 0) history in
             predictions ←
               LSTMPredictor.predictMultiStep (predictor this)
                 (Some (slice_last 10 cpuHistory)) steps;
             Ok (Some predictions)
       end)
    (fun _ => Ok None).

(** *** Notions used to state the properties *)

(** A sequence of [storeMetrics] calls: process id, metrics and the reading
    of [Date.now()]. *)
Definition append_all (calls : list (process_id * metrics * Z)) (this : service)
    : service :=
  foldl (fun s '(processId, m, now) => storeMetrics processId m now s) this calls.

(** The snapshots that a sequence of calls appends for one process, in the
    order of the calls. *)
Definition appended_for (processId : process_id)
    (calls : list (process_id * metrics * Z)) : list snapshot :=
  omap (fun '(p, m, now) =>
          if decide (p = processId) then Some (stamp m now) else None) calls.

(** The [n] most recent elements of a sequence, oldest first. *)
Definition most_recent {A : Type} (n : nat) (l : list A) : list A :=
  drop (length l - n) l.

(** A service whose predictor is trained (its network always answers 1/2,
    its data ranged from 0 to 100), after [n] snapshots of process 7 with
    a cpu reading of 40. *)
Definition trained_service (n : nat) : service :=
  append_all
    (map (fun i => (PidNum 7, Metrics 40 200 0 0, Z.of_nat i)) (seq 0 n))
    (Service (anomalyDetector create)
       (LSTMPredictor.Predictor 10 50 (Some (fun _ => Ok (1 # 2)))
          (Some (LSTMPredictor.NormParams 0 100)) true)
       (classifier create) (preprocessor create) ∅ 100 false).

(** *** Analysis of one process *)

(** A rational reading as a JavaScript number. *)
Definition to_num (q : Q) : JsNum.num := JsNum.Fin (Q2R q).

(** [{isAnomaly, score, severity}] *)
Record anomaly_report : Type := AnomalyReport {
  isAnomaly : bool;
  score : JsNum.num;
  severity : string
}.

(** [detectAnomalies(process)]; [None] is a [null] or [undefined] process. *)
Definition detectAnomalies (this : service)
    (proc : option ProcessClassifier.process) : result anomaly_report :=
  try_catch
    (match proc with
     | None => Throw (TypeError "Cannot read properties of undefined")
     | Some p =>
         let features :=
           [ to_num (q_or_else (ProcessClassifier.cpu p) 0);
             to_num (q_or_else (ProcessClassifier.memory p) 0);
             to_num (q_or_else (ProcessClassifier.ioRead p) 0);
             to_num (q_or_else (ProcessClassifier.ioWrite p) 0) ] in
         anomalyScore ←
           IsolationForest.predict (anomalyDetector this) (Some features);
         Ok (AnomalyReport
               (JsNum.lt (JsNum.Fin (6 / 10)%R) anomalyScore)
               anomalyScore
               (if JsNum.lt (JsNum.Fin (8 / 10)%R) anomalyScore then "critical"
                else if JsNum.lt (JsNum.Fin (6 / 10)%R) anomalyScore
                     then "warning" else "normal"))
     end)
    (fun _ => Ok (AnomalyReport false (JsNum.Fin 0%R) "normal")).

(** [classifyProcess(process)] *)
Definition classifyProcess (this : service)
    (proc : option ProcessClassifier.process)
    : result ProcessClassifier.prediction :=
  try_catch (ProcessClassifier.predict (classifier this) proc)
            (fun _ => Ok ProcessClassifier.defaultResult).

(** [{anomaly, classification, predictions, timestamp}] *)
Record analysis : Type := Analysis {
  anomaly : anomaly_report;
  classification : ProcessClassifier.prediction;
  predictions : option (list Q);
  an_timestamp : Z
}.

(** [analyzeProcess(process, processId)]: the snapshot is stored at the
    instant [storedAt], the result is stamped at [finishedAt]. Reading
    [process.cpu] of a [null] process throws before anything is stored. *)
Definition analyzeProcess (proc : option ProcessClassifier.process)
    (processId : process_id) (storedAt finishedAt : Z) (this : service)
    : result (analysis * service) :=
  match proc with
  | None => Throw (TypeError "Cannot read properties of null")
  | Some p =>
      let this' :=
        storeMetrics processId
          (Metrics (ProcessClassifier.cpu p) (ProcessClassifier.memory p)
                   (q_or_else (ProcessClassifier.ioRead p) 0)
                   (q_or_else (ProcessClassifier.ioWrite p) 0))
          storedAt this in
      anomalyResult ← detectAnomalies this' proc;
      classification ← classifyProcess this' proc;
      predictions ← predictFuture this' processId 5;
      Ok (Analysis anomalyResult classification predictions finishedAt, this')
  end.

(** Analyses made one after another, each under a numeric pid as the server
    passes it: [mlService.analyzeProcess(proc, proc.pid)]. *)
Fixpoint analyze_all
    (calls : list (ProcessClassifier.process * Z * Z * Z)) (this : service)
    : result (list analysis * service) :=
  match calls with
  | [] => Ok ([], this)
  | (p, pid, storedAt, finishedAt) :: rest =>
      '(a, this') ← analyzeProcess (Some p) (PidNum pid) storedAt finishedAt this;
      '(others, final) ← analyze_all rest this';
      Ok (a :: others, final)
  end.

End MLService.

(** ** Alert service (services/alertService.js) *)

Module AlertService.
Local Open Scope Q_scope.

(** [x > y] on numbers *)
Definition gt (x y : Q) : bool := negb (Qle_bool x y).

Record tier_cutoffs : Type := Cutoffs { warning : Q; critical : Q }.

Record threshold_table : Type := Thresholds {
  th_cpu : tier_cutoffs;
  th_memory : tier_cutoffs;
  th_disk : tier_cutoffs;
  th_anomalyScore : tier_cutoffs
}.

(** [details] of an alert document; an absent field is [None]. *)
Record alert_details : Type := Details {
  currentValue : option Q;
  threshold : option Q;
  anomalyScore : option Q;
  prediction : option Q
}.

(** The object literal handed to [createAlert]. *)
Record alert_data : Type := AlertData {
  type : string;
  source : string;
  processId : option string;
  processName : option string;
  metric : string;
  message : string;
  details : alert_details;
  mlDetected : bool;
  algorithm : option string
}.

(** [new Alert({alertId, severity, ...alertData})] *)
Record alert : Type := Alert {
  alertId : string;
  severity : nat;
  data : alert_data
}.

Record service : Type := Service {
  activeAlerts : gmap string alert;
  thresholds : threshold_table;
  alertCooldown : gmap string Z;
  cooldownPeriod : Z
}.

Definition create : service :=
  Service ∅
    (Thresholds (Cutoffs 70 85) (Cutoffs 75 90) (Cutoffs 80 95)
                (Cutoffs (6 # 10) (8 # 10)))
    ∅ 60000.

(** What one invocation takes from its surroundings: the reading of
    [Date.now()], number formatting, the random suffix of the alert id and
    whether [alert.save()] succeeds (it throws otherwise). An invocation
    runs to its end before the next one starts, and the instants that it
    reads are taken to be one instant [now]. *)
Record env : Type := Env {
  now : Z;
  toFixed : Q -> nat -> string;
  randomSuffix : alert_data -> string;
  save : alert -> bool
}.

Definition isInCooldown (e : env) (key : string) (this : service) : bool :=
  match alertCooldown this !! key with
  | None => false
  | Some lastAlert =>
      if (lastAlert =? 0)%Z then false
      else (now e - lastAlert <? cooldownPeriod this)%Z
  end.

Definition setCooldown (e : env) (key : string) (this : service) : service :=
  Service (activeAlerts this) (thresholds this)
          (<[key := now e]> (alertCooldown this)) (cooldownPeriod this).

Definition calculateSeverity (type : string) : nat :=
  if String.eqb type "critical" then 9%nat
  else if String.eqb type "warning" then 6%nat
  else if String.eqb type "info" then 3%nat
  else 5%nat.

(** [new Alert({alertId: `${Date.now()}-${random}`, severity, ...alertData})] *)
Definition new_alert (e : env) (alertData : alert_data) : alert :=
  Alert (pretty (now e) +:+ "-" +:+ randomSuffix e alertData)
        (calculateSeverity (type alertData)) alertData.

(** [createAlert(alertData)]: [None] is the [null] of the [catch] branch. *)
Definition createAlert (e : env) (alertData : alert_data) (this : service)
    : option alert * service :=
  let alert := new_alert e alertData in
  if save e alert
  then (Some alert,
        Service (<[alertId alert := alert]> (activeAlerts this)) (thresholds this)
                (alertCooldown this) (cooldownPeriod this))
  else (None, this).

(** The block that every rule repeats:
    [if (!this.isInCooldown(key)) { alerts.push(await this.createAlert({..})); this.setCooldown(key); }] *)
Definition alert_once (e : env) (key : string) (alertData : alert_data)
    (acc : list (option alert) * service) : list (option alert) * service :=
  let '(alerts, this) := acc in
  if isInCooldown e key this then (alerts, this)
  else
    let '(created, this') := createAlert e alertData this in
    (alerts ++ [created], setCooldown e key this').

Record system_stats : Type := Stats {
  cpu_usage : Q;
  memory_usage : Q
}.

(** The object literals of the three system rules. *)
Definition system_alert (type metric message : string) (value cutoff : Q)
    : alert_data :=
  AlertData type "threshold" None None metric message
            (Details (Some value) (Some cutoff) None None) false None.

Definition cpu_critical_alert (e : env) (th : threshold_table) (stats : system_stats)
    : alert_data :=
  system_alert "critical" "cpu"
    ("System CPU usage critical at " +:+ toFixed e (cpu_usage stats) 1 +:+ "%")
    (cpu_usage stats) (critical (th_cpu th)).

Definition cpu_warning_alert (e : env) (th : threshold_table) (stats : system_stats)
    : alert_data :=
  system_alert "warning" "cpu"
    ("System CPU usage elevated at " +:+ toFixed e (cpu_usage stats) 1 +:+ "%")
    (cpu_usage stats) (warning (th_cpu th)).

Definition memory_critical_alert (e : env) (th : threshold_table) (stats : system_stats)
    : alert_data :=
  system_alert "critical" "memory"
    ("System memory usage critical at " +:+ toFixed e (memory_usage stats) 1 +:+ "%")
    (memory_usage stats) (critical (th_memory th)).

Definition checkSystemThresholds (e : env) (stats : system_stats) (this : service)
    : list (option alert) * service :=
  let th := thresholds this in
  let acc := ([], this) in
  let acc :=
    if gt (cpu_usage stats) (critical (th_cpu th)) then
      alert_once e "system-cpu-critical" (cpu_critical_alert e th stats) acc
    else if gt (cpu_usage stats) (warning (th_cpu th)) then
      alert_once e "system-cpu-warning" (cpu_warning_alert e th stats) acc
    else acc in
  let acc :=
    if gt (memory_usage stats) (critical (th_memory th)) then
      alert_once e "system-memory-critical" (memory_critical_alert e th stats) acc
    else acc in
  acc.

Record process : Type := Process {
  pid : Z;
  name : string;
  cpu : Q
}.

(** [mlAnalysis.anomaly] *)
Record anomaly_result : Type := Anomaly {
  isAnomaly : bool;
  score : Q;
  an_severity : string
}.

(** [mlAnalysis]; a [null] or missing field is [None]. *)
Record ml_analysis : Type := Analysis {
  anomaly : option anomaly_result;
  predictions : option (list Q)
}.

(** [predictions.reduce((a, b) => a + b, 0)] *)
Definition sum_of (values : list Q) : Q := foldl Qplus 0 values.

(** [mlAnalysis.predictions.reduce(..) / mlAnalysis.predictions.length] *)
Definition average (values : list Q) : Q :=
  sum_of values / inject_Z (Z.of_nat (length values)).

(** [`process-${process.pid}-${rule}`] *)
Definition process_key (p : process) (rule : string) : string :=
  "process-" +:+ pretty (pid p) +:+ "-" +:+ rule.

(** The object literals of the three process rules. *)
Definition process_cpu_alert (e : env) (p : process) : alert_data :=
  AlertData "warning" "threshold" (Some (pretty (pid p))) (Some (name p)) "cpu"
    ("Process " +:+ name p +:+ " using " +:+ toFixed e (cpu p) 1 +:+ "% CPU")
    (Details (Some (cpu p)) (Some 90) None None) false None.

Definition anomaly_alert (e : env) (th : threshold_table) (p : process)
    (an : anomaly_result) : alert_data :=
  AlertData
    (if String.eqb (an_severity an) "critical" then "critical" else "warning")
    "anomaly" (Some (pretty (pid p))) (Some (name p)) "anomaly"
    ("Anomaly detected in " +:+ name p +:+ " (score: "
       +:+ toFixed e (score an) 2 +:+ ")")
    (Details None (Some (warning (th_anomalyScore th))) (Some (score an)) None)
    true (Some "Isolation Forest").

Definition prediction_alert (e : env) (p : process) (avgPrediction : Q)
    : alert_data :=
  AlertData "warning" "prediction" (Some (pretty (pid p))) (Some (name p)) "cpu"
    ("LSTM predicts " +:+ name p +:+ " will reach "
       +:+ toFixed e avgPrediction 1 +:+ "% CPU")
    (Details (Some (cpu p)) None None (Some avgPrediction))
    true (Some "LSTM Neural Network").

(** [mlAnalysis && mlAnalysis.anomaly && mlAnalysis.anomaly.isAnomaly] *)
Definition anomaly_flagged (mlAnalysis : option ml_analysis) : option anomaly_result :=
  an ← mlAnalysis ≫= anomaly;
  if isAnomaly an then Some an else None.

(** [mlAnalysis && mlAnalysis.predictions], then [avgPrediction > 85]. An
    empty array is truthy and averages to [0 / 0], NaN, which is not above
    85. *)
Definition prediction_flagged (mlAnalysis : option ml_analysis) : option Q :=
  preds ← mlAnalysis ≫= predictions;
  match preds with
  | [] => None
  | _ => if gt (average preds) 85 then Some (average preds) else None
  end.

Definition checkProcessThresholds (e : env) (p : process)
    (mlAnalysis : option ml_analysis) (this : service)
    : list (option alert) * service :=
  let th := thresholds this in
  let acc := ([], this) in
  let acc :=
    if gt (cpu p) 90 then
      alert_once e (process_key p "cpu") (process_cpu_alert e p) acc
    else acc in
  let acc :=
    match anomaly_flagged mlAnalysis with
    | Some an => alert_once e (process_key p "anomaly") (anomaly_alert e th p an) acc
    | None => acc
    end in
  let acc :=
    match prediction_flagged mlAnalysis with
    | Some avgPrediction =>
        alert_once e (process_key p "prediction") (prediction_alert e p avgPrediction) acc
    | None => acc
    end in
  acc.

(** One invocation of either check, and a sequence of invocations, each in
    its own environment; the results are kept with the instant they were
    produced at. *)
Inductive call : Type :=
| CheckSystem (stats : system_stats)
| CheckProcess (p : process) (mlAnalysis : option ml_analysis).

Definition invoke (e : env) (c : call) (this : service)
    : list (option alert) * service :=
  match c with
  | CheckSystem stats => checkSystemThresholds e stats this
  | CheckProcess p mlAnalysis => checkProcessThresholds e p mlAnalysis this
  end.

Fixpoint run (calls : list (env * call)) (this : service)
    : list (Z * list (option alert)) * service :=
  match calls with
  | [] => ([], this)
  | (e, c) :: rest =>
      let '(alerts, this') := invoke e c this in
      let '(outs, final) := run rest this' in
      ((now e, alerts) :: outs, final)
  end.

(** *** Notions used to state the properties *)

(** The rules whose condition holds in a call, in the order the source
    evaluates them: the cooldown key with the alert literal. *)
Definition fired_rules (e : env) (th : threshold_table) (c : call)
    : list (string * alert_data) :=
  match c with
  | CheckSystem stats =>
      (if gt (cpu_usage stats) (critical (th_cpu th))
       then [("system-cpu-critical", cpu_critical_alert e th stats)]
       else if gt (cpu_usage stats) (warning (th_cpu th))
       then [("system-cpu-warning", cpu_warning_alert e th stats)]
       else [])
      ++ (if gt (memory_usage stats) (critical (th_memory th))
          then [("system-memory-critical", memory_critical_alert e th stats)]
          else [])
  | CheckProcess p mlAnalysis =>
      (if gt (cpu p) 90
       then [(process_key p "cpu", process_cpu_alert e p)] else [])
      ++ match anomaly_flagged mlAnalysis with
         | Some an => [(process_key p "anomaly", anomaly_alert e th p an)]
         | None => []
         end
      ++ match prediction_flagged mlAnalysis with
         | Some avg => [(process_key p "prediction", prediction_alert e p avg)]
         | None => []
         end
  end.

(** The deduplication key of an alert, read back from its fields: system
    alerts carry no process id and are keyed by metric and tier, process
    alerts by pid and rule (the metric of a threshold rule, else the
    source). *)
Definition dedupKey (d : alert_data) : string :=
  match processId d with
  | None => "system-" +:+ metric d +:+ "-" +:+ type d
  | Some p =>
      "process-" +:+ p +:+ "-"
        +:+ (if String.eqb (source d) "threshold" then metric d else source d)
  end.

(** The alerts of a result array, without the [null]s of failed saves, and
    those of one key. *)
Definition created (alerts : list (option alert)) : list alert :=
  omap (fun a => a) alerts.

Definition created_for (key : string) (alerts : list (option alert)) : list alert :=
  filter (fun a => dedupKey (data a) = key) (created alerts).

(** What [createAlert] pushes for an alert literal: the saved alert, or
    [null]. *)
Definition entry (e : env) (alertData : alert_data) : option alert :=
  if save e (new_alert e alertData) then Some (new_alert e alertData) else None.

(** The repeated block applied to a list of rules in turn. *)
Definition fold_rules (e : env) (rules : list (string * alert_data))
    (acc : list (option alert) * service) : list (option alert) * service :=
  foldl (fun acc r => alert_once e r.1 r.2 acc) acc rules.

(** The rules whose key is not in cooldown in a given state. *)
Definition live_rules (e : env) (this : service)
    (rules : list (string * alert_data)) : list (string * alert_data) :=
  filter (fun r => isInCooldown e r.1 this = false) rules.

(** A sample environment: the instant [now], every save succeeding. *)
Definition sample_env (now : Z) : env :=
  Env now (fun _ _ => "n") (fun _ => "r4nd0m") (fun _ => true).

(** The same with a persistence layer that is down. *)
Definition failing_env (now : Z) : env :=
  Env now (fun _ _ => "n") (fun _ => "r4nd0m") (fun _ => false).

(** The rules of one key. *)
Definition keyed (k : string) (rules : list (string * alert_data))
    : list (string * alert_data) :=
  filter (fun r => r.1 = k) rules.

(** *** Overlapping invocations

    The two checks are [async] and the service is one shared object: an
    invocation runs until it awaits, and other invocations run meanwhile.
    In its block
    [if (!this.isInCooldown(key)) { alerts.push(await this.createAlert({..})); this.setCooldown(key); }]
    an invocation is suspended at [await alert.save()] inside
    [createAlert], with the cooldown checked and not yet set, and once
    more at [await this.createAlert(..)] before it pushes the result and
    sets the cooldown. [invoke] above is the invocation that nothing
    interrupts. *)
Inductive task : Type :=
| NotStarted (rules : list (string * alert_data))
| AwaitSave (key : string) (alertData : alert_data)
            (rest : list (string * alert_data)) (alerts : list (option alert))
| AwaitCreate (key : string) (created : option alert)
              (rest : list (string * alert_data)) (alerts : list (option alert))
| Returned (alerts : list (option alert)).

(** An invocation runs on from the start of a block to its next [await],
    passing the blocks whose key is in cooldown. *)
Fixpoint advance (e : env) (rules : list (string * alert_data))
    (alerts : list (option alert)) (this : service) : task :=
  match rules with
  | [] => Returned alerts
  | (key, alertData) :: rest =>
      if isInCooldown e key this then advance e rest alerts this
      else AwaitSave key alertData rest alerts
  end.

(** An invocation is started or resumed and runs to its next [await]. *)
Definition resume (e : env) (t : task) (this : service) : task * service :=
  match t with
  | NotStarted rules => (advance e rules [] this, this)
  | AwaitSave key alertData rest alerts =>
      let '(created, this') := createAlert e alertData this in
      (AwaitCreate key created rest alerts, this')
  | AwaitCreate key created rest alerts =>
      let this' := setCooldown e key this in
      (advance e rest (alerts ++ [created]) this', this')
  | Returned alerts => (t, this)
  end.

Definition invocation (e : env) (c : call) (this : service) : task :=
  NotStarted (fired_rules e (thresholds this) c).

(** Two invocations on the shared service; the schedule says which of them
    runs next. *)
Inductive turn : Type := First | Second.

Fixpoint overlap (schedule : list turn) (e1 e2 : env) (t1 t2 : task)
    (this : service) : task * task * service :=
  match schedule with
  | [] => (t1, t2, this)
  | First :: later =>
      let '(t1', this') := resume e1 t1 this in
      overlap later e1 e2 t1' t2 this'
  | Second :: later =>
      let '(t2', this') := resume e2 t2 this in
      overlap later e1 e2 t1 t2' this'
  end.

(** The array that an invocation has returned. *)
Definition returned (t : task) : list (option alert) :=
  match t with
  | Returned alerts => alerts
  | _ => []
  end.

(** *** Acknowledging and resolving *)

(** The update handed to [Alert.findOneAndUpdate]:
    [{acknowledged: true, acknowledgedAt, acknowledgedBy}] or
    [{resolved: true, resolvedAt}]. *)
Inductive alert_update : Type :=
| Acknowledge (acknowledgedAt : Z) (acknowledgedBy : string)
| Resolve (resolvedAt : Z).

(** [Alert.findOneAndUpdate({alertId}, update, {new: true})]: the updated
    document as the store returns it, [None] when no document has the id;
    the call may throw. *)
Definition alert_store : Type :=
  string -> alert_update -> result (option alert).

(** [this.activeAlerts.delete(alertId)] *)
Definition forget_active (alertId : string) (this : service) : service :=
  Service (delete alertId (activeAlerts this)) (thresholds this)
          (alertCooldown this) (cooldownPeriod this).

(** The common body of [acknowledgeAlert] and [resolveAlert]; [None] is
    [null]. *)
Definition update_alert (findOneAndUpdate : alert_store) (alertId : string)
    (update : alert_update) (this : service) : option alert * service :=
  match try_catch
          (found ← findOneAndUpdate alertId update;
           Ok (found, if found is Some _ then forget_active alertId this else this))
          (fun _ => Ok (None, this)) with
  | Ok r => r
  | Throw _ => (None, this)
  end.

(** [acknowledgeAlert(alertId, acknowledgedBy = 'system')] *)
Definition acknowledgeAlert (findOneAndUpdate : alert_store) (e : env)
    (alertId acknowledgedBy : string) (this : service) : option alert * service :=
  update_alert findOneAndUpdate alertId (Acknowledge (now e) acknowledgedBy) this.

(** [resolveAlert(alertId)] *)
Definition resolveAlert (findOneAndUpdate : alert_store) (e : env)
    (alertId : string) (this : service) : option alert * service :=
  update_alert findOneAndUpdate alertId (Resolve (now e)) this.

(** *** Statistics *)

(** [{total, byType, mlDetected, timeRange}] *)
Record alert_stats : Type := AlertStats {
  total : nat;
  byType : gmap string nat;
  st_mlDetected : nat;
  timeRange : Z
}.

(** [getAlertStats(timeRange = 24 * 60 * 60 * 1000)]. [aggregate] is the
    answer of [Alert.aggregate([{$match}, {$group: {_id: '$type', count}}])],
    a list of [{_id, count}], and [countDocuments] that of
    [Alert.countDocuments]; [None] is [null]. *)
Definition getAlertStats (aggregate : result (list (string * nat)))
    (countDocuments : result nat) (timeRange : Z) : option alert_stats :=
  match try_catch
          (stats ← aggregate;
           mlAlerts ← countDocuments;
           Ok (Some (AlertStats
                       (foldl (fun sum item => (sum + item.2)%nat) 0%nat stats)
                       (foldl (fun acc item => <[item.1 := item.2]> acc) ∅ stats)
                       mlAlerts timeRange)))
          (fun _ => Ok None) with
  | Ok r => r
  | Throw _ => None
  end.

(** The values that the Alert schema admits for [type] and [source]. *)
Definition schema_types : list string := ["info"; "warning"; "critical"].
Definition schema_sources : list string :=
  ["threshold"; "ml"; "anomaly"; "prediction"; "system"].

End AlertService.

(** * Properties *)

(** ** Arithmetic of JavaScript numbers *)

Module JsNumFacts.
Import JsNum.
Local Open Scope R_scope.

Lemma sign_pos (r : R) : 0 < r -> sign r = Gt.
Proof.
  intros Hr. unfold sign.
  destruct (total_order_T r 0) as [[Hlt | Heq] | Hgt]; [lra | lra | reflexivity].
Qed.

Lemma sign_neg (r : R) : r < 0 -> sign r = Lt.
Proof.
  intros Hr. unfold sign.
  destruct (total_order_T r 0) as [[Hlt | Heq] | Hgt]; [reflexivity | lra | lra].
Qed.

Lemma sign_zero (r : R) : r = 0 -> sign r = Eq.
Proof.
  intros Hr. unfold sign.
  destruct (total_order_T r 0) as [[Hlt | Heq] | Hgt]; [lra | reflexivity | lra].
Qed.

Lemma sign_Eq_inv (r : R) : sign r = Eq -> r = 0.
Proof.
  unfold sign.
  destruct (total_order_T r 0) as [[Hlt | Heq] | Hgt]; [discriminate | auto | discriminate].
Qed.

Lemma div_fin (a b : R) : b <> 0 -> div (Fin a) (Fin b) = Fin (a / b).
Proof.
  intros Hb. unfold div.
  destruct (sign b) eqn:Hs; try reflexivity.
  apply sign_Eq_inv in Hs. contradiction.
Qed.

Lemma log_fin (r : R) : 0 < r -> log (Fin r) = Fin (ln r).
Proof. intros Hr. unfold log. now rewrite sign_pos. Qed.

Lemma Rpower_2_nonpos (x : R) : x <= 0 -> 0 < Rpower 2 x <= 1.
Proof.
  intros Hx. unfold Rpower. split; [apply exp_pos |].
  rewrite <- exp_0.
  destruct (Req_dec (x * ln 2) 0) as [-> | Hne]; [lra |].
  left. apply exp_increasing.
  pose proof ln_lt_2. nra.
Qed.

Lemma INR_ge_2 (n : nat) : (2 <= n)%nat -> 2 <= INR n.
Proof. intros Hn. apply le_INR in Hn. simpl in Hn. lra. Qed.

(** The range of binary64. *)
Lemma overflow_bound_large : 2 ^ 1023 < overflow_bound.
Proof.
  unfold overflow_bound.
  assert (H : 2 ^ 970 < 2 ^ 1023) by (apply Rlt_pow; [lra | lia]).
  change (2 ^ 1024) with (2 * 2 ^ 1023). lra.
Qed.

Lemma overflow_bound_below : overflow_bound < 2 ^ 1024.
Proof.
  unfold overflow_bound.
  assert (H : 0 < 2 ^ 970) by (apply pow_lt; lra). lra.
Qed.

Lemma overflow_bound_thousands : 2 ^ 20 < overflow_bound.
Proof.
  pose proof overflow_bound_large.
  assert (2 ^ 20 < 2 ^ 1023) by (apply Rlt_pow; [lra | lia]). lra.
Qed.

Lemma in_range_fin (r : R) :
  - overflow_bound < r < overflow_bound -> in_range r = Fin r.
Proof.
  intros [Hlo Hhi]. unfold in_range.
  destruct (Rle_dec overflow_bound r); [lra|].
  destruct (Rle_dec r (- overflow_bound)); [lra | reflexivity].
Qed.

Lemma in_range_abs (r : R) : Rabs r < overflow_bound -> in_range r = Fin r.
Proof.
  intros Habs. apply in_range_fin. apply Rabs_def2 in Habs. lra.
Qed.

Lemma in_range_high (r : R) : overflow_bound <= r -> in_range r = PInf.
Proof.
  intros Hr. unfold in_range.
  destruct (Rle_dec overflow_bound r); [reflexivity | lra].
Qed.

(** The four operations on finite operands whose exact result is in range. *)
Lemma add64_fin (a b : R) :
  Rabs (a + b) < overflow_bound -> add64 (Fin a) (Fin b) = Fin (a + b).
Proof. intros H. unfold add64. cbn [add ranged]. now apply in_range_abs. Qed.

Lemma sub64_fin (a b : R) :
  Rabs (a - b) < overflow_bound -> sub64 (Fin a) (Fin b) = Fin (a - b).
Proof.
  intros H. unfold sub64, sub. cbn [neg add ranged].
  replace (a + - b) with (a - b) by lra. now apply in_range_abs.
Qed.

Lemma mul64_fin (a b : R) :
  Rabs (a * b) < overflow_bound -> mul64 (Fin a) (Fin b) = Fin (a * b).
Proof. intros H. unfold mul64. cbn [mul ranged]. now apply in_range_abs. Qed.

Lemma div64_fin (a b : R) :
  b <> 0 -> Rabs (a / b) < overflow_bound ->
  div64 (Fin a) (Fin b) = Fin (a / b).
Proof.
  intros Hb H. unfold div64. rewrite div_fin by exact Hb.
  cbn [ranged]. now apply in_range_abs.
Qed.

End JsNumFacts.

(** ** Isolation forest *)

Module IsolationForestFacts.
Import JsNum JsNumFacts IsolationForest.
Local Open Scope R_scope.

Lemma avg_path_bst_fin (n : nat) :
  (2 <= n)%nat -> avg_path_bst n = Fin (c_real n).
Proof.
  intros Hn. apply INR_ge_2 in Hn.
  unfold avg_path_bst, c_real, of_nat, sub, neg, add.
  replace (INR n + - (1)) with (INR n - 1) by lra.
  rewrite log_fin by lra. cbn [mul].
  rewrite div_fin by lra. cbn [neg add].
  reflexivity.
Qed.

Lemma c_real_pos (n : nat) : (2 <= n)%nat -> 0 < c_real n.
Proof.
  intros Hn. unfold c_real, euler_gamma.
  assert (Hn2 : 2 <= INR n) by now apply INR_ge_2.
  assert (Hfrac : 2 * (INR n - 1) / INR n < 2).
  { apply (Rmult_lt_reg_r (INR n)); [lra |].
    unfold Rdiv. rewrite Rmult_assoc, Rinv_l by lra. lra. }
  destruct (Req_dec (INR n) 2) as [H2 | Hne].
  - rewrite H2. replace (2 - 1) with 1 by lra. rewrite ln_1. lra.
  - assert (Hln : ln 2 <= ln (INR n - 1)).
    { destruct (Req_dec (INR n - 1) 2) as [-> | Hne2]; [lra |].
      left. apply ln_increasing; [lra |].
      assert (H3 : (3 <= n)%nat).
      { destruct (le_lt_dec 3 n) as [H | H]; [exact H |].
        assert (n = 2%nat) by lia. subst n. simpl in Hne. lra. }
      apply le_INR in H3. simpl in H3. lra. }
    pose proof ln_lt_2. lra.
Qed.

Lemma avg_path_bst_one : avg_path_bst 1 = NInf.
Proof.
  unfold avg_path_bst, of_nat, sub, neg, add. simpl INR.
  unfold log. rewrite sign_zero by lra.
  cbn [mul]. rewrite (sign_pos 2) by lra. cbn [scale_inf].
  rewrite div_fin by lra. reflexivity.
Qed.

Lemma avg_path_bst_zero : avg_path_bst 0 = NaN.
Proof.
  unfold avg_path_bst, of_nat, sub, neg, add. simpl INR.
  unfold log. rewrite sign_neg by lra. reflexivity.
Qed.

Lemma leaf_correction_fin (size : nat) :
  exists r, leaf_correction size = Fin r /\ 0 <= r.
Proof.
  unfold leaf_correction.
  destruct (1 <? size)%nat eqn:Hs.
  - apply Nat.ltb_lt in Hs.
    exists (c_real size). split; [apply avg_path_bst_fin; lia |].
    left. apply c_real_pos. lia.
  - exists 0. split; [reflexivity | lra].
Qed.

Lemma pathLength_fin (p : list num) (t : tree) :
  forall depth, exists r, pathLength (Some p) t depth = Ok (Fin r) /\ 0 <= r.
Proof.
  induction t as [size | fi sv l IHl r IHr]; intros depth; simpl.
  - destruct (leaf_correction_fin size) as (c & -> & Hc).
    exists (INR depth + c). split; [reflexivity |].
    pose proof (pos_INR depth). lra.
  - destruct (elem_lt p fi sv); [apply IHl | apply IHr].
Qed.

Lemma sum_path_lengths_fin (p : list num) (ts : list tree) :
  forall acc, 0 <= acc ->
    exists r, sum_path_lengths (Some p) ts (Fin acc) = Ok (Fin r) /\ 0 <= r.
Proof.
  induction ts as [| t ts IH]; intros acc Hacc; simpl.
  - exists acc. split; [reflexivity | exact Hacc].
  - destruct (pathLength_fin p t 0) as (len & -> & Hlen).
    cbn [add]. apply IH. lra.
Qed.

Lemma fit_trees_length grow f0 data :
  length (trees (fit grow f0 data)) = numTrees f0.
Proof. simpl. now rewrite length_map, length_seq. Qed.

(** The score of a trained forest with trees, on an array argument. *)
Lemma predict_trained (f : forest) (p : list num) :
  trained f = true -> (1 <= length (trees f))%nat ->
  exists total, 0 <= total /\
    predict f (Some p) =
      Ok (pow2 (div (neg (div (Fin total) (of_nat (numTrees f))))
                    (avg_path_bst (sampleSize f)))).
Proof.
  intros Htr Hlen. unfold predict, anomaly_score.
  rewrite Htr. simpl negb. simpl orb.
  destruct (Nat.eqb_spec (length (trees f)) 0) as [H0 | _]; [lia |].
  destruct (sum_path_lengths_fin p (trees f) 0 (Rle_refl 0)) as (total & -> & Htot).
  exists total. split; [exact Htot | reflexivity].
Qed.

(** C3, for a sample size of at least one. A forest on which [fit] has
    completed and that has at least one tree scores every array of numbers
    strictly above 0 and at most 1. The correction term of a leaf
    is 0 for size 1 and [2 * (ln (n - 1) + 0.5772156649) - 2 * (n - 1) / n]
    for a size [n] above 1. *)
Theorem predict_score_in_unit_interval
    (grow : nat -> list (list num) -> tree) (f0 : forest)
    (data : list (list num)) (p : list num) :
  (1 <= sampleSize f0)%nat ->
  trees (fit grow f0 data) <> [] ->
  (exists s, predict (fit grow f0 data) (Some p) = Ok (Fin s) /\ 0 < s <= 1)
  /\ leaf_correction 1 = Fin 0
  /\ (forall n, (1 < n)%nat ->
        leaf_correction n =
          Fin (2 * (ln (INR n - 1) + 5772156649 / 10000000000)
               - 2 * (INR n - 1) / INR n)).
Proof.
  intros Hsample Htrees. split; [| split].
  - assert (Hn : (1 <= numTrees f0)%nat).
    { rewrite <- (fit_trees_length grow f0 data).
      destruct (trees (fit grow f0 data)); [contradiction | simpl; lia]. }
    destruct (predict_trained (fit grow f0 data) p) as (total & Htot & ->).
    { reflexivity. }
    { rewrite fit_trees_length. exact Hn. }
    cbn [numTrees sampleSize fit].
    assert (HnR : 1 <= INR (numTrees f0)).
    { apply le_INR in Hn. simpl in Hn. exact Hn. }
    unfold of_nat at 1. rewrite div_fin by lra. cbn [neg].
    assert (Havg : 0 <= total / INR (numTrees f0)).
    { apply Rmult_le_pos; [exact Htot |]. left. apply Rinv_0_lt_compat. lra. }
    destruct (le_lt_dec 2 (sampleSize f0)) as [H2 | H1].
    + rewrite avg_path_bst_fin by exact H2.
      pose proof (c_real_pos _ H2) as Hc.
      rewrite div_fin by lra. cbn [pow2].
      eexists. split; [reflexivity |].
      apply Rpower_2_nonpos.
      assert (0 <= total / INR (numTrees f0) / c_real (sampleSize f0)).
      { apply Rmult_le_pos; [exact Havg |]. left. now apply Rinv_0_lt_compat. }
      unfold Rdiv in *. lra.
    + assert (Hone : sampleSize f0 = 1%nat) by lia.
      rewrite Hone, avg_path_bst_one. cbn [div pow2].
      exists (Rpower 2 0). split; [reflexivity |].
      rewrite Rpower_O by lra. lra.
  - reflexivity.
  - intros n Hn. unfold leaf_correction.
    destruct (Nat.ltb_spec 1 n) as [_ | Hle]; [| lia].
    rewrite avg_path_bst_fin by lia. reflexivity.
Qed.

(** The default configuration of the service, fitted on one sample, scores
    within the unit interval. *)
Lemma predict_score_in_unit_interval_default :
  (1 <= sampleSize create_default)%nat
  /\ trees (fit (fun _ _ => Leaf 1) create_default [[Fin 1]]) <> []
  /\ exists s,
       predict (fit (fun _ _ => Leaf 1) create_default [[Fin 1]]) (Some [Fin 1])
         = Ok (Fin s) /\ 0 < s <= 1.
Proof.
  assert (H1 : (1 <= sampleSize create_default)%nat) by (simpl; lia).
  assert (H2 : trees (fit (fun _ _ => Leaf 1) create_default [[Fin 1]]) <> [])
    by (simpl; discriminate).
  split; [exact H1 | split; [exact H2 |]].
  exact (proj1 (predict_score_in_unit_interval
                  (fun _ _ => Leaf 1) create_default [[Fin 1]] [Fin 1] H1 H2)).
Defined.

Lemma degenerate_forest_score : predict degenerate_forest (Some [Fin 1]) = Ok NaN.
Proof.
  unfold degenerate_forest, predict, anomaly_score. simpl.
  rewrite avg_path_bst_zero, (sign_pos 1) by lra. reflexivity.
Qed.

(** The score of a forest fitted with a sample size of 0 is NaN, which lies
    in no interval. *)
Lemma predict_sample_size_zero_is_nan :
  trained degenerate_forest = true
  /\ trees degenerate_forest <> []
  /\ predict degenerate_forest (Some [Fin 1]) = Ok NaN
  /\ ~ (exists s, predict degenerate_forest (Some [Fin 1]) = Ok (Fin s) /\ 0 < s <= 1).
Proof.
  repeat split.
  - simpl. discriminate.
  - exact degenerate_forest_score.
  - intros (s & Hs & _). rewrite degenerate_forest_score in Hs. discriminate.
Qed.

End IsolationForestFacts.

(** ** Fail-safe inference *)

Module InferenceFacts.
Import JsNum JsNumFacts.
Local Open Scope Q_scope.

Lemma forest_predict_total (f : IsolationForest.forest) (pt : IsolationForest.point) :
  exists s, IsolationForest.predict f pt = Ok s.
Proof.
  unfold IsolationForest.predict.
  destruct (negb _ || _); [eexists; reflexivity |].
  destruct (IsolationForest.anomaly_score f pt); eexists; reflexivity.
Qed.

Lemma lstm_predict_total (this : LSTMPredictor.predictor) (sequence : option (list Q)) :
  exists v, LSTMPredictor.predict this sequence = Ok v.
Proof.
  unfold LSTMPredictor.predict.
  destruct (LSTMPredictor.trained this), (LSTMPredictor.model this) as [net |],
    (LSTMPredictor.normParams this) as [np |]; try (eexists; reflexivity).
  destruct (LSTMPredictor.infer net np sequence); eexists; reflexivity.
Qed.

Lemma last_known_snoc (window : list Q) (x : Q) :
  LSTMPredictor.last_known (Some (window ++ [x])) = x.
Proof. unfold LSTMPredictor.last_known. now rewrite last_snoc. Qed.

(** A trained forest asked about [null]: the element access throws inside
    the [try] block and the answer is 0. *)
Lemma forest_predict_null_caught :
  raises (IsolationForest.anomaly_score
            (IsolationForest.Forest 1 256 (Fin (1 / 10))
               [IsolationForest.Internal 0 (Fin 5)
                  (IsolationForest.Leaf 1) (IsolationForest.Leaf 1)] true)
            None)
  /\ IsolationForest.predict
       (IsolationForest.Forest 1 256 (Fin (1 / 10))
          [IsolationForest.Internal 0 (Fin 5)
             (IsolationForest.Leaf 1) (IsolationForest.Leaf 1)] true)
       None = Ok (Fin 0).
Proof. split; [exact I | reflexivity]. Qed.

(** A trained predictor whose network throws answers the last value of the
    window; one whose network answers 1/2 denormalizes it. *)
Lemma lstm_predict_examples :
  LSTMPredictor.predict
    (LSTMPredictor.Predictor 10 50 (Some (fun _ => Throw (Error "shape")))
       (Some (LSTMPredictor.NormParams 0 100)) true)
    (Some [10; 20; 30]) = Ok 30
  /\ LSTMPredictor.predict
       (LSTMPredictor.Predictor 10 50 (Some (fun _ => Ok (1 # 2)))
          (Some (LSTMPredictor.NormParams 0 100)) true)
       (Some [10; 20; 30]) = Ok ((1 # 2) * (100 - 0) + 0).
Proof. split; reflexivity. Qed.

(** C4, for steps that throw. Neither [predict] raises, whatever the
    argument.
    The anomaly detector answers 0 when it is untrained, has no trees, or
    the scoring step throws; the sequence predictor answers the last element
    of its window (0 for an empty window or an argument that is no array)
    when it is untrained, has no model or no scaling parameters, or
    inference throws. *)
Theorem inference_never_raises_and_defaults :
  (forall f pt, exists s, IsolationForest.predict f pt = Ok s)
  /\ (forall f pt,
        IsolationForest.trained f = false
        \/ IsolationForest.trees f = []
        \/ raises (IsolationForest.anomaly_score f pt) ->
        IsolationForest.predict f pt = Ok (Fin 0))
  /\ (forall this sequence, exists v, LSTMPredictor.predict this sequence = Ok v)
  /\ (forall this sequence,
        LSTMPredictor.trained this = false
        \/ LSTMPredictor.model this = None
        \/ LSTMPredictor.normParams this = None
        \/ (exists net np,
              LSTMPredictor.model this = Some net
              /\ LSTMPredictor.normParams this = Some np
              /\ raises (LSTMPredictor.infer net np sequence)) ->
        LSTMPredictor.predict this sequence
          = Ok (LSTMPredictor.last_known sequence))
  /\ LSTMPredictor.last_known (Some []) = 0
  /\ LSTMPredictor.last_known None = 0
  /\ (forall window x, LSTMPredictor.last_known (Some (window ++ [x])) = x).
Proof.
  split; [exact forest_predict_total |].
  split.
  { intros f pt H. unfold IsolationForest.predict.
    destruct H as [Htr | [Hts | Hthrow]].
    - now rewrite Htr.
    - rewrite Hts. simpl. now rewrite orb_true_r.
    - destruct (negb _ || _); [reflexivity |].
      destruct (IsolationForest.anomaly_score f pt); [contradiction | reflexivity]. }
  split; [exact lstm_predict_total |].
  split.
  { intros this sequence H. unfold LSTMPredictor.predict.
    destruct H as [Htr | [Hm | [Hnp | (net & np & Hm & Hnp & Hthrow)]]].
    - now rewrite Htr.
    - rewrite Hm. now destruct (LSTMPredictor.trained this).
    - rewrite Hnp.
      now destruct (LSTMPredictor.trained this), (LSTMPredictor.model this).
    - rewrite Hm, Hnp. destruct (LSTMPredictor.trained this); [| reflexivity].
      destruct (LSTMPredictor.infer net np sequence); [contradiction | reflexivity]. }
  split; [reflexivity |].
  split; [reflexivity |].
  exact last_known_snoc.
Qed.

(** A numeric step that goes wrong throws nothing. With a sample size of
    0 the normaliser takes [Math.log(-1)], which is NaN, and the fitted
    forest answers NaN instead of 0. *)
Lemma predict_numeric_fault_not_zero :
  log (sub (of_nat (IsolationForest.sampleSize IsolationForest.degenerate_forest))
           (Fin 1)) = NaN
  /\ IsolationForest.predict IsolationForest.degenerate_forest (Some [Fin 1%R])
       = Ok NaN
  /\ IsolationForest.predict IsolationForest.degenerate_forest (Some [Fin 1%R])
       <> Ok (Fin 0).
Proof.
  split; [| split].
  - simpl. unfold log. now rewrite sign_neg by lra.
  - exact IsolationForestFacts.degenerate_forest_score.
  - rewrite IsolationForestFacts.degenerate_forest_score. discriminate.
Qed.

End InferenceFacts.

(** ** Process classifier *)

Module ProcessClassifierFacts.
Import ProcessClassifier.
Local Open Scope Q_scope.

(** C5. On a classifier that is not trained, [predict] returns, for every
    argument, the record [{class: 'unknown', confidence: 0, probabilities: {}}]
    and does not raise. *)
Theorem predict_untrained_is_unknown (this : classifier) (proc : option process) :
  trained this = false ->
  predict this proc = Ok (Prediction (Some "unknown") 0 ∅).
Proof. intros Htr. unfold predict. now rewrite Htr. Qed.

Lemma predict_untrained_is_unknown_fresh :
  trained create = false
  /\ predict create (Some (Process 50 200 4 0 0 0 0 0))
       = Ok (Prediction (Some "unknown") 0 ∅).
Proof.
  split; [reflexivity |].
  apply (predict_untrained_is_unknown create); reflexivity.
Defined.

End ProcessClassifierFacts.

(** ** Data preprocessor *)

Module DataPreprocessorFacts.
Import JsNum JsNumFacts DataPreprocessor.
Local Open Scope R_scope.

Lemma min_of_fin (values : list R) :
  values <> [] ->
  exists m, min_of (map Fin values) = Fin m
            /\ Forall (fun v => m <= v) values /\ In m values.
Proof.
  induction values as [| v vs IH]; [contradiction |]. intros _.
  destruct vs as [| w ws].
  - exists v. split; [reflexivity |].
    split; [constructor; [lra | constructor] | now left].
  - destruct IH as (m & Hm & Hall & Hin); [discriminate |].
    exists (Rmin v m). unfold min_of in *.
    change (foldr min2 PInf (map Fin (v :: w :: ws)))
      with (min2 (Fin v) (foldr min2 PInf (map Fin (w :: ws)))).
    rewrite Hm. split; [reflexivity |]. split.
    + constructor; [apply Rmin_l |].
      eapply Forall_impl; [exact Hall |]. intros x Hx. simpl in Hx.
      pose proof (Rmin_r v m). lra.
    + apply Rmin_case; [now left | now right].
Qed.

Lemma max_of_fin (values : list R) :
  values <> [] ->
  exists m, max_of (map Fin values) = Fin m
            /\ Forall (fun v => v <= m) values /\ In m values.
Proof.
  induction values as [| v vs IH]; [contradiction |]. intros _.
  destruct vs as [| w ws].
  - exists v. split; [reflexivity |].
    split; [constructor; [lra | constructor] | now left].
  - destruct IH as (m & Hm & Hall & Hin); [discriminate |].
    exists (Rmax v m). unfold max_of in *.
    change (foldr max2 NInf (map Fin (v :: w :: ws)))
      with (max2 (Fin v) (foldr max2 NInf (map Fin (w :: ws)))).
    rewrite Hm. split; [reflexivity |]. split.
    + constructor; [apply Rmax_l |].
      eapply Forall_impl; [exact Hall |]. intros x Hx. simpl in Hx.
      pose proof (Rmax_r v m). lra.
    + apply Rmax_case; [now left | now right].
Qed.

(** [max - min || 1] for a spread that is in range: the spread, or 1 when
    [max = min]. *)
Lemma range64_value (lo hi : R) :
  lo <= hi -> hi - lo < overflow_bound ->
  or_else (sub64 (Fin hi) (Fin lo)) (Fin 1)
  = Fin (if Req_dec_T hi lo then 1 else hi - lo).
Proof.
  intros Hle Hspread.
  rewrite sub64_fin by (rewrite Rabs_pos_eq; lra).
  unfold or_else. destruct (Req_dec_T hi lo) as [-> | Hne].
  - rewrite sign_zero by lra. reflexivity.
  - rewrite sign_pos by lra. reflexivity.
Qed.

(** One value through [normalize]: a number between 0 and 1. *)
Lemma normalized_value (lo hi v : R) :
  lo <= v <= hi -> hi - lo < overflow_bound ->
  div64 (sub64 (Fin v) (Fin lo)) (Fin (if Req_dec_T hi lo then 1 else hi - lo))
  = Fin ((v - lo) / (if Req_dec_T hi lo then 1 else hi - lo))
  /\ 0 <= (v - lo) / (if Req_dec_T hi lo then 1 else hi - lo) <= 1.
Proof.
  intros [Hlo Hhi] Hspread.
  pose proof overflow_bound_thousands as Hbig.
  assert (H20 : 2 ^ 20 = 1048576) by (simpl; lra).
  assert (Hunit : 0 <= (v - lo) / (if Req_dec_T hi lo then 1 else hi - lo) <= 1).
  { destruct (Req_dec_T hi lo) as [Heq | Hne].
    - assert (v = lo) by lra. subst v. split; lra.
    - split.
      + apply Rmult_le_pos; [lra|]. left. apply Rinv_0_lt_compat. lra.
      + apply (Rmult_le_reg_r (hi - lo)); [lra|].
        unfold Rdiv. rewrite Rmult_assoc, Rinv_l by lra. lra. }
  split; [|exact Hunit].
  rewrite sub64_fin by (rewrite Rabs_pos_eq; lra).
  apply div64_fin.
  - destruct (Req_dec_T hi lo); lra.
  - rewrite Rabs_pos_eq; lra.
Qed.




Lemma perform_other_feature (this : preprocessor) (c : scaling_call) (key : string) :
  call_feature c <> key -> scalers (perform this c) !! key = scalers this !! key.
Proof.
  intros Hne. destruct c as [data f | data f]; simpl in *;
    now rewrite lookup_insert_ne.
Qed.

Lemma perform_all_other_features (calls : list scaling_call) (key : string) :
  forall this,
    Forall (fun c => call_feature c <> key) calls ->
    scalers (perform_all calls this) !! key = scalers this !! key.
Proof.
  unfold perform_all.
  induction calls as [| c calls IH]; intros this Hall; [reflexivity |].
  inversion Hall as [| ? ? Hc Hrest]; subst. simpl.
  rewrite IH by exact Hrest. now apply perform_other_feature.
Qed.

Lemma perform_keeps_scaler (this : preprocessor) (c : scaling_call) (key : string) :
  is_Some (scalers this !! key) -> is_Some (scalers (perform this c) !! key).
Proof.
  intros Hsome. destruct c as [data f | data f]; simpl;
    (destruct (decide (f = key)) as [-> | Hne];
     [rewrite lookup_insert_eq; eauto | now rewrite lookup_insert_ne]).
Qed.

Lemma perform_all_keeps_scaler (calls : list scaling_call) (key : string) :
  forall this,
    is_Some (scalers this !! key) ->
    is_Some (scalers (perform_all calls this) !! key).
Proof.
  unfold perform_all.
  induction calls as [| c calls IH]; intros this Hsome; [exact Hsome |].
  simpl. apply IH. now apply perform_keeps_scaler.
Qed.

(** C9. As long as no [normalize] or [standardize] call has recorded scaling
    parameters for a feature name, [denormalize] for it raises the
    unknown-scaler error, an [Error] whose message names the feature; once
    [normalize] has run for that name, [denormalize] does not raise,
    whatever is normalized or standardized afterwards. *)
Theorem denormalize_needs_recorded_scaler
    (calls : list scaling_call) (key : string) (data : data_arg) :
  (Forall (fun c => call_feature c <> key) calls ->
   denormalize data key (perform_all calls create)
     = Throw (Error ("No scaler found for feature: " +:+ key)))
  /\ (forall this data0,
        ~ raises (denormalize data key
                    (perform_all calls (normalize data0 key this).2))).
Proof.
  split.
  - intros Hall. unfold denormalize.
    rewrite (perform_all_other_features calls key create Hall).
    reflexivity.
  - intros this data0. unfold denormalize.
    destruct (perform_all_keeps_scaler calls key (normalize data0 key this).2)
      as [sc ->].
    + unfold normalize. cbn [snd scalers]. rewrite lookup_insert_eq. eauto.
    + simpl. tauto.
Qed.

End DataPreprocessorFacts.

(** ** ML service: history store and forecasts *)

Module MLServiceFacts.
Import MLService.
Local Open Scope nat_scope.

Lemma storeMetrics_cap (processId : process_id) (m : metrics) (now : Z)
    (this : service) :
  maxHistorySize (storeMetrics processId m now this) = maxHistorySize this.
Proof. reflexivity. Qed.

Lemma storeMetrics_history (processId other : process_id) (m : metrics) (now : Z)
    (this : service) :
  history_of (storeMetrics processId m now this) other =
    if decide (processId = other)
    then
      let pushed := history_of this other ++ [stamp m now] in
      if maxHistorySize this <? length pushed then shift pushed else pushed
    else history_of this other.
Proof.
  unfold history_of, storeMetrics, with_history. cbn [metricsHistory maxHistorySize].
  destruct (decide (processId = other)) as [-> | Hne].
  - now rewrite lookup_insert_eq.
  - now rewrite lookup_insert_ne.
Qed.

Lemma tail_drop {A : Type} (n : nat) (l : list A) :
  tail (drop n l) = drop (S n) l.
Proof.
  revert l. induction n as [| n IH]; intros [| y l]; try reflexivity.
  simpl. apply IH.
Qed.

(** Pushing onto the [cap] most recent elements and shifting when the result
    is longer than [cap] keeps the [cap] most recent elements. *)
Lemma most_recent_push {A : Type} (cap : nat) (all : list A) (x : A) :
  (let pushed := most_recent cap all ++ [x] in
   if cap <? length pushed then shift pushed else pushed)
  = most_recent cap (all ++ [x]).
Proof.
  unfold most_recent, shift. cbv zeta.
  rewrite !length_app, length_drop. simpl length.
  destruct (Nat.ltb_spec cap (length all - (length all - cap) + 1)) as [Hlt | Hge].
  - assert (Hcap : cap <= length all) by lia.
    replace (length all + 1 - cap) with (S (length all - cap)) by lia.
    rewrite <- drop_app_le by lia.
    apply tail_drop.
  - replace (length all - cap) with 0 by lia.
    replace (length all + 1 - cap) with 0 by lia.
    reflexivity.
Qed.

Lemma most_recent_length {A : Type} (cap : nat) (l : list A) :
  length (most_recent cap l) <= cap.
Proof. unfold most_recent. rewrite length_drop. lia. Qed.

Lemma most_recent_all {A : Type} (cap : nat) (l : list A) :
  length l <= cap -> most_recent cap l = l.
Proof.
  intros Hle. unfold most_recent.
  replace (length l - cap) with 0 by lia. reflexivity.
Qed.

Lemma appended_for_cons (processId p : process_id) (m : metrics) (now : Z)
    (calls : list (process_id * metrics * Z)) :
  appended_for processId ((p, m, now) :: calls)
  = (if decide (p = processId) then [stamp m now] else [])
      ++ appended_for processId calls.
Proof.
  unfold appended_for. simpl. now destruct (decide (p = processId)).
Qed.

Lemma append_all_history (processId : process_id)
    (calls : list (process_id * metrics * Z)) :
  forall this all,
    history_of this processId = most_recent (maxHistorySize this) all ->
    history_of (append_all calls this) processId
      = most_recent (maxHistorySize this) (all ++ appended_for processId calls).
Proof.
  induction calls as [| [[p m] now] calls IH]; intros this all Hinv.
  - simpl. now rewrite app_nil_r.
  - change (append_all (((p, m), now) :: calls) this)
      with (append_all calls (storeMetrics p m now this)).
    rewrite appended_for_cons.
    destruct (decide (p = processId)) as [-> | Hne].
    + rewrite (IH _ (all ++ [stamp m now])).
      * rewrite storeMetrics_cap. now rewrite <- app_assoc.
      * rewrite storeMetrics_history, decide_True by reflexivity.
        rewrite Hinv, storeMetrics_cap. apply most_recent_push.
    + rewrite (IH _ all).
      * now rewrite storeMetrics_cap.
      * rewrite storeMetrics_history, decide_False by exact Hne.
        now rewrite storeMetrics_cap.
Qed.

(** C6. Whatever snapshots are appended for whatever processes, after every
    [storeMetrics] call the history of a process is no longer than
    [maxHistorySize], and it holds the most recently appended snapshots of
    that process, oldest first. *)
Theorem history_is_bounded_fifo
    (this : service) (calls : list (process_id * metrics * Z))
    (processId : process_id) :
  length (history_of this processId) <= maxHistorySize this ->
  length (history_of (append_all calls this) processId) <= maxHistorySize this
  /\ history_of (append_all calls this) processId
     = most_recent (maxHistorySize this)
         (history_of this processId ++ appended_for processId calls).
Proof.
  intros Hlen.
  assert (Heq : history_of (append_all calls this) processId
                = most_recent (maxHistorySize this)
                    (history_of this processId ++ appended_for processId calls)).
  { apply append_all_history. symmetry. now apply most_recent_all. }
  split; [| exact Heq].
  rewrite Heq. apply most_recent_length.
Qed.

Lemma history_is_bounded_fifo_fresh :
  length (history_of create (PidNum 7)) <= maxHistorySize create
  /\ length (history_of
               (append_all [(PidNum 7, Metrics 10 20 0 0, 1000%Z);
                            (PidNum 8, Metrics 50 60 0 0, 1001%Z);
                            (PidNum 7, Metrics 11 21 0 0, 3000%Z)] create)
               (PidNum 7)) <= maxHistorySize create.
Proof.
  assert (H : length (history_of create (PidNum 7)) <= maxHistorySize create)
    by (vm_compute; lia).
  split; [exact H |].
  exact (proj1 (history_is_bounded_fifo create
                  [(PidNum 7, Metrics 10 20 0 0, 1000%Z);
                   (PidNum 8, Metrics 50 60 0 0, 1001%Z);
                   (PidNum 7, Metrics 11 21 0 0, 3000%Z)] (PidNum 7) H)).
Defined.

(** With a cap of 2, three snapshots of one process leave the last two,
    oldest first; the snapshot of another process is kept apart. *)
Lemma history_eviction_example :
  map timestamp
      (history_of
         (append_all [(PidNum 7, Metrics 10 20 0 0, 1000%Z);
                      (PidNum 8, Metrics 50 60 0 0, 1500%Z);
                      (PidNum 7, Metrics 11 21 0 0, 2000%Z);
                      (PidNum 7, Metrics 12 22 0 0, 3000%Z)]
            (Service (anomalyDetector create) (predictor create)
                     (classifier create) (preprocessor create) ∅ 2 false))
         (PidNum 7))
  = [2000%Z; 3000%Z].
Proof. vm_compute. reflexivity. Qed.

(** The loop of [predictMultiStep] never throws and adds one value per
    step. *)
Lemma multi_step_loop_length (this : LSTMPredictor.predictor) (remaining : nat) :
  forall predictions currentSequence,
    exists out,
      LSTMPredictor.multi_step_loop this remaining predictions currentSequence
        = Ok out
      /\ length out = length predictions + remaining.
Proof.
  induction remaining as [| remaining IH]; intros predictions currentSequence.
  - exists predictions. split; [reflexivity | lia].
  - simpl.
    destruct (InferenceFacts.lstm_predict_total this
                (Some (slice_last (LSTMPredictor.inputShape this) currentSequence)))
      as (v & ->).
    simpl.
    destruct (IH (predictions ++ [v]) (currentSequence ++ [v])) as (out & -> & Hlen).
    exists out. split; [reflexivity |].
    rewrite Hlen, length_app. simpl. lia.
Qed.

Lemma predictMultiStep_length (this : LSTMPredictor.predictor) (values : list Q)
    (steps : nat) :
  exists out,
    LSTMPredictor.predictMultiStep this (Some values) steps = Ok out
    /\ length out = steps.
Proof.
  unfold LSTMPredictor.predictMultiStep.
  destruct (LSTMPredictor.unusable this).
  - eexists. split; [reflexivity | apply length_replicate].
  - destruct (multi_step_loop_length this steps [] values) as (out & -> & Hlen).
    exists out. split; [reflexivity | exact Hlen].
Qed.

(** C8. [predictFuture] returns [null] when the predictor is not trained or
    fewer than 10 snapshots are stored for the process; otherwise it returns
    a sequence of exactly [steps] values. It never raises. *)
Theorem predictFuture_null_or_steps
    (this : service) (processId : process_id) (steps : nat) :
  (LSTMPredictor.trained (predictor this) = false
   \/ length (history_of this processId) < 10 ->
   predictFuture this processId steps = Ok None)
  /\ (LSTMPredictor.trained (predictor this) = true ->
      10 <= length (history_of this processId) ->
      exists forecast,
        predictFuture this processId steps = Ok (Some forecast)
        /\ length forecast = steps).
Proof.
  unfold predictFuture, history_of. split.
  - intros [Htr | Hlen].
    + now rewrite Htr.
    + destruct (LSTMPredictor.trained (predictor this)); [| reflexivity].
      simpl negb. cbv iota.
      destruct (metricsHistory this !! processId) as [history |]; [| reflexivity].
      simpl in Hlen.
      destruct (Nat.ltb_spec (length history) 10) as [_ | Hge]; [reflexivity | lia].
  - intros Htr Hlen. rewrite Htr. simpl negb. cbv iota.
    destruct (metricsHistory this !! processId) as [history |];
      simpl in Hlen; [| lia].
    destruct (Nat.ltb_spec (length history) 10) as [Hlt | _]; [lia |].
    destruct (predictMultiStep_length (predictor this)
                (slice_last 10 (map (fun m => q_or_else (cpu m) 0%Q) history)) steps)
      as (out & Hout & Hsteps).
    rewrite Hout. exists out. split; [reflexivity | exact Hsteps].
Qed.

(** With 9 snapshots the forecast is [null]; with 10 it has [steps] values,
    each the denormalized answer of the network; an untrained service
    answers [null] whatever is stored. *)
Lemma predictFuture_examples :
  predictFuture (trained_service 9) (PidNum 7) 3 = Ok None
  /\ predictFuture (trained_service 10) (PidNum 7) 3
     = Ok (Some [(1 # 2) * (100 - 0) + 0; (1 # 2) * (100 - 0) + 0;
                 (1 # 2) * (100 - 0) + 0]%Q)
  /\ predictFuture (trained_service 10) (PidStr "7") 3 = Ok None
  /\ predictFuture create (PidNum 7) 3 = Ok None.
Proof. repeat split; vm_compute; reflexivity. Qed.

End MLServiceFacts.

(** ** Alert service: cooldown discipline *)

Module AlertServiceFacts.
Import AlertService.
Local Open Scope Z_scope.

Lemma createAlert_spec (e : env) (d : alert_data) (this : service) :
  (createAlert e d this).1 = entry e d
  /\ alertCooldown (createAlert e d this).2 = alertCooldown this
  /\ cooldownPeriod (createAlert e d this).2 = cooldownPeriod this
  /\ thresholds (createAlert e d this).2 = thresholds this.
Proof.
  unfold createAlert, entry. destruct (save e (new_alert e d)); simpl; auto.
Qed.

Lemma alert_once_spec (e : env) (k : string) (d : alert_data)
    (alerts : list (option alert)) (this : service) :
  exists this',
    alert_once e k d (alerts, this)
      = (alerts ++ (if isInCooldown e k this then [] else [entry e d]), this')
    /\ alertCooldown this'
         = (if isInCooldown e k this then alertCooldown this
            else <[k := now e]> (alertCooldown this))
    /\ cooldownPeriod this' = cooldownPeriod this
    /\ thresholds this' = thresholds this.
Proof.
  unfold alert_once.
  destruct (isInCooldown e k this).
  - exists this. rewrite app_nil_r. auto.
  - destruct (createAlert_spec e d this) as (H1 & H2 & H3 & H4).
    destruct (createAlert e d this) as [created this1]. simpl in *. subst created.
    eexists. split; [reflexivity |]. simpl. rewrite H2. auto.
Qed.

Lemma isInCooldown_ext (e : env) (k : string) (a b : service) :
  alertCooldown a !! k = alertCooldown b !! k ->
  cooldownPeriod a = cooldownPeriod b ->
  isInCooldown e k a = isInCooldown e k b.
Proof. intros Hm Hp. unfold isInCooldown. now rewrite Hm, Hp. Qed.

Lemma live_rules_ext (e : env) (a b : service) (rules : list (string * alert_data)) :
  (forall r, r ∈ rules -> isInCooldown e r.1 a = isInCooldown e r.1 b) ->
  live_rules e a rules = live_rules e b rules.
Proof.
  intros Hext. unfold live_rules.
  induction rules as [| r rules IH]; [reflexivity |].
  rewrite !filter_cons, (Hext r) by (left; reflexivity).
  rewrite IH; [reflexivity |]. intros r' Hr'. apply Hext. now right.
Qed.

Lemma live_rules_cons (e : env) (this : service) (k : string) (d : alert_data)
    (rules : list (string * alert_data)) :
  live_rules e this ((k, d) :: rules)
  = if isInCooldown e k this then live_rules e this rules
    else (k, d) :: live_rules e this rules.
Proof.
  unfold live_rules. rewrite filter_cons. cbn [fst].
  destruct (isInCooldown e k this).
  - now rewrite decide_False by discriminate.
  - now rewrite decide_True by reflexivity.
Qed.

(** The result of the rules of one invocation: one entry per rule that is
    not in cooldown, and the instant of the invocation as the cooldown stamp
    of exactly those keys. *)
Lemma fold_rules_spec (e : env) (rules : list (string * alert_data)) :
  forall alerts0 this0,
    NoDup rules.*1 ->
    exists final,
      fold_rules e rules (alerts0, this0)
        = (alerts0 ++ map (fun r => entry e r.2) (live_rules e this0 rules), final)
      /\ (forall k,
            alertCooldown final !! k
              = if decide (k ∈ (live_rules e this0 rules).*1)
                then Some (now e) else alertCooldown this0 !! k)
      /\ cooldownPeriod final = cooldownPeriod this0
      /\ thresholds final = thresholds this0.
Proof.
  induction rules as [| [k d] rules IH]; intros alerts0 this0 Hnd.
  - exists this0. simpl. rewrite app_nil_r. repeat split.
  - rewrite fmap_cons in Hnd. cbn [fst] in Hnd.
    apply NoDup_cons in Hnd as [Hk Hnd].
    destruct (alert_once_spec e k d alerts0 this0) as (this1 & Hstep & Hcd & Hper & Hth).
    destruct (IH (alerts0 ++ (if isInCooldown e k this0 then [] else [entry e d]))
                 this1 Hnd) as (final & Hrun & Hmap & Hper' & Hth').
    assert (Hlive : live_rules e this1 rules = live_rules e this0 rules).
    { apply live_rules_ext. intros r Hr. apply isInCooldown_ext; [| exact Hper].
      rewrite Hcd. destruct (isInCooldown e k this0); [reflexivity |].
      apply lookup_insert_ne. intros Heq. apply Hk. rewrite Heq.
      apply list_elem_of_fmap_2. exact Hr. }
    exists final.
    change (fold_rules e ((k, d) :: rules) (alerts0, this0))
      with (fold_rules e rules (alert_once e k d (alerts0, this0))).
    rewrite Hstep, Hrun, Hlive, live_rules_cons.
    split; [| split; [| split; congruence]].
    + destruct (isInCooldown e k this0).
      * now rewrite app_nil_r.
      * cbn [map snd]. now rewrite <- app_assoc.
    + intros k'. rewrite Hmap, Hlive, Hcd.
      destruct (isInCooldown e k this0); [reflexivity |].
      rewrite fmap_cons. cbn [fst].
      destruct (decide (k' = k)) as [-> | Hne].
      * rewrite lookup_insert_eq.
        rewrite (decide_True (P := k ∈ k :: _)) by (left; reflexivity).
        now destruct (decide _).
      * rewrite lookup_insert_ne by congruence.
        destruct (decide (k' ∈ (live_rules e this0 rules).*1)) as [Hin' | Hnin].
        -- rewrite decide_True by (right; exact Hin'). reflexivity.
        -- rewrite decide_False; [reflexivity |].
           intros [-> | Htl]%elem_of_cons; [congruence | contradiction].
Qed.

(** Either check is the repeated block applied to its fired rules. *)
Lemma invoke_fired_rules (e : env) (c : call) (this : service) :
  invoke e c this = fold_rules e (fired_rules e (thresholds this) c) ([], this).
Proof.
  destruct c as [stats | p mlAnalysis]; unfold invoke, fired_rules, fold_rules.
  - unfold checkSystemThresholds.
    destruct (gt (cpu_usage stats) (critical (th_cpu (thresholds this))));
      [| destruct (gt (cpu_usage stats) (warning (th_cpu (thresholds this))))];
      destruct (gt (memory_usage stats) (critical (th_memory (thresholds this))));
      reflexivity.
  - unfold checkProcessThresholds.
    destruct (gt (cpu p) 90), (anomaly_flagged mlAnalysis),
      (prediction_flagged mlAnalysis); reflexivity.
Qed.

(** The key under which a rule fires is the key read back from its alert. *)
Lemma fired_rules_keys (e : env) (th : threshold_table) (c : call) :
  Forall (fun r => dedupKey r.2 = r.1) (fired_rules e th c).
Proof.
  destruct c as [stats | p mlAnalysis]; unfold fired_rules.
  - destruct (gt (cpu_usage stats) (critical (th_cpu th)));
      [| destruct (gt (cpu_usage stats) (warning (th_cpu th)))];
      destruct (gt (memory_usage stats) (critical (th_memory th)));
      repeat constructor.
  - destruct (gt (cpu p) 90), (anomaly_flagged mlAnalysis),
      (prediction_flagged mlAnalysis); repeat constructor.
Qed.

Lemma process_key_inj (p : process) (rule1 rule2 : string) :
  process_key p rule1 = process_key p rule2 -> rule1 = rule2.
Proof.
  unfold process_key. intros H.
  do 3 apply String.app_inj in H. exact H.
Qed.

(** No two rules of one invocation share a key. *)
Lemma fired_rules_NoDup (e : env) (th : threshold_table) (c : call) :
  NoDup (fired_rules e th c).*1.
Proof.
  destruct c as [stats | p mlAnalysis]; unfold fired_rules.
  - destruct (gt (cpu_usage stats) (critical (th_cpu th)));
      [| destruct (gt (cpu_usage stats) (warning (th_cpu th)))];
      destruct (gt (memory_usage stats) (critical (th_memory th)));
      simpl; repeat (apply NoDup_cons; split);
      try apply NoDup_nil_2; rewrite ?elem_of_cons, ?elem_of_nil;
      intuition discriminate.
  - destruct (gt (cpu p) 90), (anomaly_flagged mlAnalysis),
      (prediction_flagged mlAnalysis);
      simpl; repeat (apply NoDup_cons; split);
      try apply NoDup_nil_2; rewrite ?elem_of_cons, ?elem_of_nil;
      intuition (try match goal with
                     | H : process_key _ _ = process_key _ _ |- _ =>
                         apply process_key_inj in H; discriminate
                     end).
Qed.

Lemma created_for_cons (k : string) (o : option alert)
    (alerts : list (option alert)) :
  created_for k (o :: alerts)
  = match o with
    | Some a => if decide (dedupKey (data a) = k) then [a] else []
    | None => []
    end ++ created_for k alerts.
Proof.
  unfold created_for, created. destruct o as [a |]; simpl; [| reflexivity].
  rewrite filter_cons. now destruct (decide (dedupKey (data a) = k)).
Qed.

Section Entries.
Context (e : env) (k : string).

Lemma keyed_cons (r : string * alert_data) (rules : list (string * alert_data)) :
  keyed k (r :: rules) = (if decide (r.1 = k) then [r] else []) ++ keyed k rules.
Proof. unfold keyed. rewrite filter_cons. now destruct (decide (r.1 = k)). Qed.

(** The alerts created for a key come from the rules of that key. *)
Lemma created_for_entries_le (rules : list (string * alert_data)) :
  Forall (fun r => dedupKey r.2 = r.1) rules ->
  (length (created_for k (map (fun r => entry e r.2) rules))
     <= length (keyed k rules))%nat.
Proof.
  induction 1 as [| [k' d] rules Hkey _ IH]; [reflexivity |].
  cbn [map snd fst] in *. rewrite created_for_cons, keyed_cons, !length_app.
  cbn [fst]. unfold entry at 1.
  destruct (save e (new_alert e d)); cbn [data new_alert].
  - rewrite Hkey. destruct (decide (k' = k)); simpl; lia.
  - destruct (decide (k' = k)); simpl; lia.
Qed.

Lemma keyed_absent (rules : list (string * alert_data)) :
  k ∉ rules.*1 -> keyed k rules = [].
Proof.
  induction rules as [| [k' d] rules IH]; intros Hk; [reflexivity |].
  rewrite fmap_cons in Hk. cbn [fst] in Hk.
  apply not_elem_of_cons in Hk as [Hne Hk].
  rewrite keyed_cons. cbn [fst].
  rewrite decide_False by congruence. now apply IH.
Qed.

Lemma keyed_NoDup (rules : list (string * alert_data)) :
  NoDup rules.*1 -> (length (keyed k rules) <= 1)%nat.
Proof.
  induction rules as [| [k' d] rules IH]; intros Hnd; [simpl; lia |].
  rewrite fmap_cons in Hnd. cbn [fst] in Hnd.
  apply NoDup_cons in Hnd as [Hk Hnd].
  rewrite keyed_cons, length_app. cbn [fst].
  destruct (decide (k' = k)) as [-> | Hne]; [| simpl; auto].
  rewrite keyed_absent by exact Hk. simpl. lia.
Qed.

Lemma keyed_nonempty (rules : list (string * alert_data)) :
  (1 <= length (keyed k rules))%nat -> k ∈ rules.*1.
Proof.
  intros Hlen. destruct (keyed k rules) as [| r rest] eqn:Hk; [simpl in Hlen; lia |].
  assert (Hr : r ∈ keyed k rules) by (rewrite Hk; left).
  unfold keyed in Hr. apply list_elem_of_filter in Hr as [Hrk Hin].
  rewrite <- Hrk. now apply list_elem_of_fmap_2.
Qed.
Lemma created_for_entries_absent (rules : list (string * alert_data)) :
  Forall (fun r => dedupKey r.2 = r.1) rules ->
  k ∉ rules.*1 ->
  created_for k (map (fun r => entry e r.2) rules) = [].
Proof.
  intros Hkeys Hk. pose proof (created_for_entries_le rules Hkeys) as Hle.
  rewrite keyed_absent in Hle by exact Hk.
  destruct (created_for k _); [reflexivity | simpl in Hle; lia].
Qed.

Lemma created_for_entries_exact (rules : list (string * alert_data))
    (d : alert_data) :
  Forall (fun r => dedupKey r.2 = r.1) rules ->
  NoDup rules.*1 ->
  (k, d) ∈ rules ->
  created_for k (map (fun r => entry e r.2) rules)
  = match entry e d with Some a => [a] | None => [] end.
Proof.
  induction rules as [| [k' d'] rules IH]; intros Hkeys Hnd Hin; [inversion Hin |].
  apply Forall_cons in Hkeys as [Hkey Hkeys]. cbn [fst snd] in Hkey.
  rewrite fmap_cons in Hnd. cbn [fst] in Hnd. apply NoDup_cons in Hnd as [Hk' Hnd].
  cbn [map snd]. rewrite created_for_cons.
  apply elem_of_cons in Hin as [Heq | Hin].
  - injection Heq as Hk1 Hd1. subst d'. rewrite <- Hk1 in Hk', Hkey.
    rewrite created_for_entries_absent by assumption. rewrite app_nil_r.
    unfold entry. destruct (save e (new_alert e d)); [| reflexivity].
    cbn [data new_alert]. now rewrite decide_True.
  - rewrite IH by assumption.
    assert (Hne : k' <> k).
    { intros ->. apply Hk'. now apply (list_elem_of_fmap_2 fst) in Hin. }
    unfold entry at 1. destruct (save e (new_alert e d')); [| reflexivity].
    cbn [data new_alert]. rewrite decide_False by congruence. reflexivity.
Qed.
End Entries.

Lemma live_rules_NoDup (e : env) (this : service)
    (rules : list (string * alert_data)) :
  NoDup rules.*1 -> NoDup (live_rules e this rules).*1.
Proof.
  induction rules as [| [k d] rules IH]; intros Hnd; [constructor |].
  rewrite fmap_cons in Hnd. cbn [fst] in Hnd.
  apply NoDup_cons in Hnd as [Hk Hnd]. rewrite live_rules_cons.
  destruct (isInCooldown e k this); [now apply IH |].
  rewrite fmap_cons. cbn [fst]. apply NoDup_cons. split; [| now apply IH].
  intros ([k' d'] & Heq & Hin)%list_elem_of_fmap. cbn [fst] in Heq. subst k'.
  apply Hk. unfold live_rules in Hin. apply list_elem_of_filter in Hin as [_ Hin].
  now apply (list_elem_of_fmap_2 fst) in Hin.
Qed.

Lemma live_rules_keys (e : env) (this : service)
    (rules : list (string * alert_data)) :
  Forall (fun r => dedupKey r.2 = r.1) rules ->
  Forall (fun r => dedupKey r.2 = r.1) (live_rules e this rules).
Proof.
  rewrite !Forall_forall. intros H r Hr. apply H.
  unfold live_rules in Hr. now apply list_elem_of_filter in Hr as [_ Hr].
Qed.

Lemma live_rules_elem (e : env) (this : service) (k : string)
    (rules : list (string * alert_data)) :
  k ∈ (live_rules e this rules).*1 <->
  k ∈ rules.*1 /\ isInCooldown e k this = false.
Proof.
  unfold live_rules. split.
  - intros ([k' d] & -> & [Hcd Hin]%list_elem_of_filter)%list_elem_of_fmap.
    split; [now apply (list_elem_of_fmap_2 fst) in Hin | exact Hcd].
  - intros [([k' d] & -> & Hin)%list_elem_of_fmap Hcd].
    apply (list_elem_of_fmap_2 fst (filter _ rules) (k', d)).
    apply list_elem_of_filter. split; [exact Hcd | exact Hin].
Qed.

(** One invocation, in full: the entries of the rules that fire outside
    their cooldown, whose keys are stamped with the instant of the call. *)
Lemma invoke_spec (e : env) (c : call) (this : service) :
  (invoke e c this).1
    = map (fun r => entry e r.2)
          (live_rules e this (fired_rules e (thresholds this) c))
  /\ (forall k,
        alertCooldown (invoke e c this).2 !! k
          = if decide (k ∈ (live_rules e this
                              (fired_rules e (thresholds this) c)).*1)
            then Some (now e) else alertCooldown this !! k)
  /\ cooldownPeriod (invoke e c this).2 = cooldownPeriod this
  /\ thresholds (invoke e c this).2 = thresholds this.
Proof.
  rewrite invoke_fired_rules.
  destruct (fold_rules_spec e (fired_rules e (thresholds this) c) [] this
              (fired_rules_NoDup e (thresholds this) c))
    as (final & -> & Hmap & Hper & Hth).
  simpl. auto.
Qed.

Lemma invoke_created_le (e : env) (c : call) (this : service) (k : string) :
  (length (created_for k (invoke e c this).1)
   <= length (keyed k (live_rules e this (fired_rules e (thresholds this) c))))%nat.
Proof.
  destruct (invoke_spec e c this) as (-> & _).
  apply created_for_entries_le, live_rules_keys, fired_rules_keys.
Qed.

(** A key in cooldown gets no alert. *)
Lemma invoke_suppressed (e : env) (c : call) (this : service) (k : string) :
  isInCooldown e k this = true -> created_for k (invoke e c this).1 = [].
Proof.
  intros Hcd. pose proof (invoke_created_le e c this k) as Hle.
  rewrite keyed_absent in Hle.
  - destruct (created_for k (invoke e c this).1); [reflexivity | simpl in Hle; lia].
  - rewrite live_rules_elem. intros [_ Hfalse]. congruence.
Qed.

(** At most one alert per key and invocation. *)
Lemma invoke_unique (e : env) (c : call) (this : service) (k : string) :
  (length (created_for k (invoke e c this).1) <= 1)%nat.
Proof.
  etransitivity; [apply invoke_created_le |].
  apply keyed_NoDup, live_rules_NoDup, fired_rules_NoDup.
Qed.

(** An alert created for a key stamps the key with the instant of the call,
    and the key was not in cooldown. *)
Lemma invoke_created_stamp (e : env) (c : call) (this : service) (k : string) :
  created_for k (invoke e c this).1 <> [] ->
  isInCooldown e k this = false
  /\ alertCooldown (invoke e c this).2 !! k = Some (now e).
Proof.
  intros Hne.
  assert (Hin : k ∈ (live_rules e this (fired_rules e (thresholds this) c)).*1).
  { apply keyed_nonempty. pose proof (invoke_created_le e c this k) as Hle.
    destruct (created_for k (invoke e c this).1); [contradiction | simpl in Hle; lia]. }
  split; [now apply live_rules_elem in Hin |].
  destruct (invoke_spec e c this) as (_ & Hmap & _).
  rewrite Hmap. now rewrite decide_True.
Qed.

(** The stamp of a key after an invocation: unchanged, or the instant of
    the call when the key was not in cooldown. *)
Lemma invoke_cooldown_frame (e : env) (c : call) (this : service) (k : string) :
  alertCooldown (invoke e c this).2 !! k = alertCooldown this !! k
  \/ (isInCooldown e k this = false
      /\ alertCooldown (invoke e c this).2 !! k = Some (now e)).
Proof.
  destruct (invoke_spec e c this) as (_ & Hmap & _). rewrite Hmap.
  destruct (decide (k ∈ _)) as [Hin | Hnin]; [right | left; reflexivity].
  split; [now apply live_rules_elem in Hin | reflexivity].
Qed.

(** A rule that fires outside its cooldown contributes what [createAlert]
    returns for its literal, and nothing else is created for its key. *)
Lemma invoke_fired (e : env) (c : call) (this : service) (k : string)
    (d : alert_data) :
  (k, d) ∈ fired_rules e (thresholds this) c ->
  isInCooldown e k this = false ->
  created_for k (invoke e c this).1
  = match entry e d with Some a => [a] | None => [] end.
Proof.
  intros Hrule Hcd.
  destruct (invoke_spec e c this) as (-> & _).
  apply created_for_entries_exact.
  - apply live_rules_keys, fired_rules_keys.
  - apply live_rules_NoDup, fired_rules_NoDup.
  - unfold live_rules. apply list_elem_of_filter. split; [exact Hcd | exact Hrule].
Qed.

(** When the cooldown of a key has elapsed, or the key was never stamped,
    the key is not in cooldown. *)
Lemma elapsed_not_in_cooldown (e : env) (k : string) (this : service) :
  (forall t, alertCooldown this !! k = Some t -> cooldownPeriod this <= now e - t) ->
  isInCooldown e k this = false.
Proof.
  intros Hel. unfold isInCooldown.
  destruct (alertCooldown this !! k) as [t |]; [| reflexivity].
  destruct (t =? 0); [reflexivity |].
  apply Z.ltb_ge. now apply Hel.
Qed.

(** A stamp of 0, the epoch itself, reads as no stamp: [!lastAlert]. *)
Lemma zero_stamp_is_no_stamp (e : env) (k : string) (this : service) :
  alertCooldown this !! k = Some 0 -> isInCooldown e k this = false.
Proof. intros Hk. unfold isInCooldown. now rewrite Hk. Qed.

(** A stamped key is in cooldown until the period has elapsed. *)
Lemma stamped_in_cooldown (e : env) (k : string) (this : service) (t : Z) :
  alertCooldown this !! k = Some t -> t <> 0 ->
  now e - t < cooldownPeriod this ->
  isInCooldown e k this = true.
Proof.
  intros Hk Ht Hlt. unfold isInCooldown. rewrite Hk.
  destruct (Z.eqb_spec t 0) as [-> | _]; [contradiction |].
  now apply Z.ltb_lt.
Qed.

Lemma run_cons (e : env) (c : call) (rest : list (env * call)) (this : service) :
  run ((e, c) :: rest) this
  = ((now e, (invoke e c this).1) :: (run rest (invoke e c this).2).1,
     (run rest (invoke e c this).2).2).
Proof.
  simpl. destruct (invoke e c this) as [alerts this']. cbn [fst snd].
  now destruct (run rest this').
Qed.

(** Once a key carries a stamp [s] no earlier than [t0], every later alert
    for the key is created a full period after [t0]. *)
Lemma run_after_stamp (k : string) (t0 : Z) (calls : list (env * call)) :
  forall this s,
    alertCooldown this !! k = Some s ->
    t0 <= s -> 0 < s ->
    0 <= cooldownPeriod this ->
    Forall (fun ec => 0 < now ec.1) calls ->
    forall t out,
      (t, out) ∈ (run calls this).1 ->
      created_for k out <> [] ->
      cooldownPeriod this <= t - t0.
Proof.
  induction calls as [| [e c] calls IH]; intros this s Hs Ht0 Hpos Hper Htimes t out Hin Hcr.
  - simpl in Hin. inversion Hin.
  - rewrite run_cons in Hin. cbn [fst] in Hin.
    apply Forall_cons in Htimes as [Hnow Htimes]. cbn [fst] in Hnow.
    destruct (invoke_spec e c this) as (_ & _ & Hper' & _).
    assert (Hlive : isInCooldown e k this = false -> cooldownPeriod this <= now e - s).
    { unfold isInCooldown. rewrite Hs.
      destruct (Z.eqb_spec s 0) as [-> | _]; [lia |].
      intros H. now apply Z.ltb_ge in H. }
    apply elem_of_cons in Hin as [Heq | Hin].
    + inversion Heq; subst t out.
      apply invoke_created_stamp in Hcr as [Hcd _].
      specialize (Hlive Hcd). lia.
    + destruct (invoke_cooldown_frame e c this k) as [Hsame | [Hcd Hnew]].
      * rewrite <- Hper'.
        apply (IH (invoke e c this).2 s) with (out := out);
          try assumption; [congruence | lia].
      * specialize (Hlive Hcd). rewrite <- Hper'.
        apply (IH (invoke e c this).2 (now e)) with (out := out);
          try assumption; lia.
Qed.

(** Two alerts of one key, created by different invocations of a run, are
    at least a full period apart. *)
Lemma run_separation (k : string) (calls : list (env * call)) :
  forall this,
    0 <= cooldownPeriod this ->
    Forall (fun ec => 0 < now ec.1) calls ->
    forall i j ti tj outi outj,
      (i < j)%nat ->
      (run calls this).1 !! i = Some (ti, outi) ->
      (run calls this).1 !! j = Some (tj, outj) ->
      created_for k outi <> [] ->
      created_for k outj <> [] ->
      cooldownPeriod this <= tj - ti.
Proof.
  induction calls as [| [e c] calls IH];
    intros this Hper Htimes i j ti tj outi outj Hij Hi Hj Hci Hcj.
  - simpl in Hi. rewrite lookup_nil in Hi. discriminate.
  - rewrite run_cons in Hi, Hj. cbn [fst] in Hi, Hj.
    apply Forall_cons in Htimes as [Hnow Htimes]. cbn [fst] in Hnow.
    destruct (invoke_spec e c this) as (_ & _ & Hper' & _).
    destruct j as [| j]; [lia |]. cbn [lookup list_lookup] in Hj.
    destruct i as [| i].
    + cbn [lookup list_lookup] in Hi. inversion Hi; subst ti outi.
      apply invoke_created_stamp in Hci as [_ Hstamp].
      rewrite <- Hper'.
      apply (run_after_stamp k (now e) calls (invoke e c this).2 (now e))
        with (out := outj); try assumption; try lia.
      eapply list_elem_of_lookup_2. exact Hj.
    + cbn [lookup list_lookup] in Hi. rewrite <- Hper'.
      apply (IH (invoke e c this).2) with (i := i) (j := j) (outi := outi) (outj := outj);
        try assumption; lia.
Qed.

Lemma run_unique (k : string) (calls : list (env * call)) :
  forall this t out,
    (t, out) ∈ (run calls this).1 -> (length (created_for k out) <= 1)%nat.
Proof.
  induction calls as [| [e c] calls IH]; intros this t out Hin.
  - simpl in Hin. inversion Hin.
  - rewrite run_cons in Hin. cbn [fst] in Hin.
    apply elem_of_cons in Hin as [Heq | Hin].
    + inversion Heq; subst. apply invoke_unique.
    + eapply IH. exact Hin.
Qed.

Lemma run_preserves (calls : list (env * call)) :
  forall this,
    cooldownPeriod (run calls this).2 = cooldownPeriod this
    /\ thresholds (run calls this).2 = thresholds this.
Proof.
  induction calls as [| [e c] calls IH]; intros this; [split; reflexivity |].
  rewrite run_cons. cbn [snd].
  destruct (IH (invoke e c this).2) as [-> ->].
  destruct (invoke_spec e c this) as (_ & _ & Hper & Hth). now split.
Qed.

(** The cooldown discipline of invocations that do not overlap. In any
    sequence of [checkSystemThresholds] and [checkProcessThresholds]
    invocations made one after another, two alerts created for one
    deduplication key by different invocations are at least [cooldownPeriod]
    apart, however often the condition is observed in between; no
    invocation creates two alerts for one key; and while a key is within
    the period of its stamp an invocation creates no alert for it. Once the
    cooldown of a key has elapsed (or the key was never stamped), an
    invocation whose rule for the key fires creates exactly one alert for
    it, the one of that rule, when its save succeeds. Instants are readings
    of [Date.now()], hence positive. *)
Theorem cooldown_discipline
    (this : service) (calls : list (env * call)) (k : string) :
  0 <= cooldownPeriod this ->
  Forall (fun ec => 0 < now ec.1) calls ->
  (forall i j ti tj outi outj,
      (i < j)%nat ->
      (run calls this).1 !! i = Some (ti, outi) ->
      (run calls this).1 !! j = Some (tj, outj) ->
      created_for k outi <> [] ->
      created_for k outj <> [] ->
      cooldownPeriod this <= tj - ti)
  /\ (forall i t out,
        (run calls this).1 !! i = Some (t, out) ->
        (length (created_for k out) <= 1)%nat)
  /\ (forall e c t,
        alertCooldown (run calls this).2 !! k = Some t ->
        t <> 0 ->
        now e - t < cooldownPeriod this ->
        created_for k (invoke e c (run calls this).2).1 = [])
  /\ (forall e c d,
        (k, d) ∈ fired_rules e (thresholds this) c ->
        (forall t, alertCooldown (run calls this).2 !! k = Some t ->
                   cooldownPeriod this <= now e - t) ->
        save e (new_alert e d) = true ->
        created_for k (invoke e c (run calls this).2).1 = [new_alert e d]).
Proof.
  intros Hper Htimes.
  destruct (run_preserves calls this) as [Hp Ht].
  split; [| split; [| split]].
  - now apply run_separation.
  - intros i t out Hi. eapply run_unique, list_elem_of_lookup_2, Hi.
  - intros e c t Hstamp Ht0 Hwithin. apply invoke_suppressed.
    apply (stamped_in_cooldown e k _ t); [exact Hstamp | exact Ht0 |].
    now rewrite Hp.
  - intros e c d Hrule Helapsed Hsave.
    rewrite (invoke_fired e c _ k d).
    + unfold entry. now rewrite Hsave.
    + now rewrite Ht.
    + apply elapsed_not_in_cooldown. now rewrite Hp.
Qed.

Lemma cooldown_discipline_cpu_critical :
  0 <= cooldownPeriod create
  /\ Forall (fun ec => 0 < now ec.1)
       [(sample_env 1000, CheckSystem (Stats 96 50));
        (sample_env 2000, CheckSystem (Stats 97 50));
        (sample_env 70000, CheckSystem (Stats 96 50))]
  /\ (forall i j ti tj outi outj,
        (i < j)%nat ->
        (run [(sample_env 1000, CheckSystem (Stats 96 50));
              (sample_env 2000, CheckSystem (Stats 97 50));
              (sample_env 70000, CheckSystem (Stats 96 50))] create).1 !! i
          = Some (ti, outi) ->
        (run [(sample_env 1000, CheckSystem (Stats 96 50));
              (sample_env 2000, CheckSystem (Stats 97 50));
              (sample_env 70000, CheckSystem (Stats 96 50))] create).1 !! j
          = Some (tj, outj) ->
        created_for "system-cpu-critical" outi <> [] ->
        created_for "system-cpu-critical" outj <> [] ->
        cooldownPeriod create <= tj - ti).
Proof.
  assert (H1 : 0 <= cooldownPeriod create) by (simpl; lia).
  assert (H2 : Forall (fun ec => 0 < now ec.1)
                 [(sample_env 1000, CheckSystem (Stats 96 50));
                  (sample_env 2000, CheckSystem (Stats 97 50));
                  (sample_env 70000, CheckSystem (Stats 96 50))])
    by (repeat constructor).
  split; [exact H1 | split; [exact H2 |]].
  exact (proj1 (cooldown_discipline create _ "system-cpu-critical" H1 H2)).
Defined.

(** The run of the example above, evaluated: an alert with value 96 at
    instant 1000, none at 2000, one more at 70000. *)
Lemma cooldown_run_evaluated :
  map (fun o => (o.1, length (created_for "system-cpu-critical" o.2),
                 (fun a => currentValue (details (data a))) <$> created o.2))
      (run [(sample_env 1000, CheckSystem (Stats 96 50));
            (sample_env 2000, CheckSystem (Stats 97 50));
            (sample_env 70000, CheckSystem (Stats 96 50))] create).1
  = [(1000, 1%nat, [Some 96%Q]); (2000, 0%nat, []); (70000, 1%nat, [Some 96%Q])].
Proof. vm_compute. reflexivity. Qed.

(** C10. When a rule fires outside its cooldown and [createAlert] fails to
    save, the [null] is pushed onto the returned array (which has one entry
    per rule that fired outside its cooldown), the key is stamped all the
    same, and no alert for the key is created by any later invocation
    within the period. *)
Theorem failed_save_still_sets_cooldown
    (this : service) (e : env) (c : call) (k : string) (d : alert_data) :
  (k, d) ∈ fired_rules e (thresholds this) c ->
  isInCooldown e k this = false ->
  save e (new_alert e d) = false ->
  None ∈ (invoke e c this).1
  /\ length (invoke e c this).1
     = length (live_rules e this (fired_rules e (thresholds this) c))
  /\ alertCooldown (invoke e c this).2 !! k = Some (now e)
  /\ (now e <> 0 ->
      forall e' c',
        now e' - now e < cooldownPeriod this ->
        created_for k (invoke e' c' (invoke e c this).2).1 = []).
Proof.
  intros Hrule Hcd Hsave.
  destruct (invoke_spec e c this) as (Hout & Hmap & Hper & _).
  assert (Hlive : (k, d) ∈ live_rules e this (fired_rules e (thresholds this) c)).
  { unfold live_rules. apply list_elem_of_filter. split; [exact Hcd | exact Hrule]. }
  assert (Hstamp : alertCooldown (invoke e c this).2 !! k = Some (now e)).
  { rewrite Hmap, decide_True; [reflexivity |].
    now apply (list_elem_of_fmap_2 fst) in Hlive. }
  split; [| split; [| split]].
  - rewrite Hout.
    apply (list_elem_of_fmap_2 (fun r => entry e r.2)) in Hlive.
    cbn [snd] in Hlive. unfold entry in Hlive at 1. now rewrite Hsave in Hlive.
  - rewrite Hout. apply length_map.
  - exact Hstamp.
  - intros Hnow e' c' Hwithin. apply invoke_suppressed.
    apply (stamped_in_cooldown e' k _ (now e)); [exact Hstamp | exact Hnow |].
    now rewrite Hper.
Qed.

Lemma failed_save_still_sets_cooldown_cpu :
  ("process-42-cpu",
   process_cpu_alert (failing_env 1000) (Process 42 "node" 96))
    ∈ fired_rules (failing_env 1000) (thresholds create)
        (CheckProcess (Process 42 "node" 96) None)
  /\ isInCooldown (failing_env 1000) "process-42-cpu" create = false
  /\ save (failing_env 1000)
          (new_alert (failing_env 1000)
             (process_cpu_alert (failing_env 1000) (Process 42 "node" 96)))
     = false
  /\ None ∈ (invoke (failing_env 1000)
               (CheckProcess (Process 42 "node" 96) None) create).1
  /\ alertCooldown
       (invoke (failing_env 1000)
          (CheckProcess (Process 42 "node" 96) None) create).2
       !! "process-42-cpu" = Some 1000.
Proof.
  assert (H1 : ("process-42-cpu",
                process_cpu_alert (failing_env 1000) (Process 42 "node" 96))
                 ∈ fired_rules (failing_env 1000) (thresholds create)
                     (CheckProcess (Process 42 "node" 96) None))
    by (vm_compute; left).
  assert (H2 : isInCooldown (failing_env 1000) "process-42-cpu" create = false)
    by reflexivity.
  assert (H3 : save (failing_env 1000)
                 (new_alert (failing_env 1000)
                    (process_cpu_alert (failing_env 1000) (Process 42 "node" 96)))
               = false) by reflexivity.
  pose proof (failed_save_still_sets_cooldown create (failing_env 1000)
                (CheckProcess (Process 42 "node" 96) None) _ _ H1 H2 H3)
    as (Hnull & _ & Hstamp & _).
  repeat split; assumption.
Defined.

Lemma created_of_entries (e : env) (rules : list (string * alert_data)) (a : alert) :
  a ∈ created (map (fun r => entry e r.2) rules) ->
  exists r, r ∈ rules /\ a = new_alert e r.2.
Proof.
  unfold created. intros (o & Ho & Heq)%list_elem_of_omap. subst o.
  apply list_elem_of_fmap in Ho as (r & Hr & Hin).
  exists r. split; [exact Hin |].
  unfold entry in Hr. destruct (save e (new_alert e r.2)); congruence.
Qed.

(** C2, as the code has it. [checkSystemThresholds] compares the memory
    usage with the critical cutoff only: as long as the usage is not above
    that cutoff no alert for the memory metric is created, whatever the
    cooldowns. On a fresh service a usage of 80, above the warning cutoff 75
    and below the critical cutoff 90, gives an empty result and leaves the
    service unchanged. *)
Theorem memory_warning_is_never_emitted :
  (forall e stats this,
      gt (memory_usage stats) (critical (th_memory (thresholds this))) = false ->
      Forall (fun a => metric (data a) <> "memory")
             (created (checkSystemThresholds e stats this).1))
  /\ gt 80 (warning (th_memory (thresholds create))) = true
  /\ gt 80 (critical (th_memory (thresholds create))) = false
  /\ isInCooldown (sample_env 1000) "system-memory-warning" create = false
  /\ checkSystemThresholds (sample_env 1000) (Stats 10 80) create = ([], create).
Proof.
  split; [| repeat split; reflexivity].
  intros e stats this Hmem. apply Forall_forall. intros a Ha.
  change (checkSystemThresholds e stats this) with (invoke e (CheckSystem stats) this) in Ha.
  destruct (invoke_spec e (CheckSystem stats) this) as (Hout & _).
  rewrite Hout in Ha. apply created_of_entries in Ha as (r & Hr & ->).
  unfold live_rules in Hr. apply list_elem_of_filter in Hr as [_ Hr].
  cbn [fired_rules] in Hr. rewrite Hmem, app_nil_r in Hr.
  destruct (gt (cpu_usage stats) (critical (th_cpu (thresholds this))));
    [| destruct (gt (cpu_usage stats) (warning (th_cpu (thresholds this))))].
  - apply list_elem_of_singleton in Hr. subst r. discriminate.
  - apply list_elem_of_singleton in Hr. subst r. discriminate.
  - inversion Hr.
Qed.

End AlertServiceFacts.

(** ** Alert service: the alerts a check creates and their life cycle *)

Module AlertLifecycleFacts.
Import AlertService AlertServiceFacts.
Local Open Scope Z_scope.

(** A property of the alert literal of every fired rule holds of every alert
    that a check returns. *)
Lemma created_invoke_Forall (P : alert -> Prop) (e : env) (c : call)
    (this : service) :
  Forall (fun r => P (new_alert e r.2)) (fired_rules e (thresholds this) c) ->
  Forall P (created (invoke e c this).1).
Proof.
  intros Hall. apply Forall_forall. intros a Ha.
  destruct (invoke_spec e c this) as (Hout & _).
  rewrite Hout in Ha.
  apply created_of_entries in Ha as (r & Hr & ->).
  rewrite Forall_forall in Hall. apply Hall.
  unfold live_rules in Hr. apply list_elem_of_filter in Hr. apply Hr.
Qed.

Ltac each_fired_rule :=
  match goal with
  | |- Forall _ (fired_rules _ _ ?c) =>
      destruct c as [stats | p mlAnalysis]; unfold fired_rules;
      repeat match goal with
             | |- context [if gt ?a ?b then _ else _] =>
                 let H := fresh "Hgt" in destruct (gt a b) eqn:H
             | |- context [match anomaly_flagged ?m with _ => _ end] =>
                 let H := fresh "Han" in destruct (anomaly_flagged m) eqn:H
             | |- context [match prediction_flagged ?m with _ => _ end] =>
                 let H := fresh "Hpr" in destruct (prediction_flagged m) eqn:H
             end;
      cbn [app]; repeat first [apply List.Forall_nil | apply List.Forall_cons]
  end.

(** X1. Every alert that [checkSystemThresholds] or [checkProcessThresholds]
    returns is a document the Alert schema accepts: its type is warning or
    critical, its source is threshold, anomaly or prediction, its severity
    is 9 for a critical and 6 for a warning alert (within the schema's 1 to
    10), it is marked as detected by a model exactly when its source is not
    a threshold, and it names an algorithm exactly then. *)
Theorem created_alerts_fit_schema (e : env) (c : call) (this : service) :
  Forall (fun a =>
            type (data a) ∈ ["warning"; "critical"]
            /\ type (data a) ∈ schema_types
            /\ source (data a) ∈ ["threshold"; "anomaly"; "prediction"]
            /\ source (data a) ∈ schema_sources
            /\ severity a
               = (if String.eqb (type (data a)) "critical" then 9 else 6)%nat
            /\ (1 <= severity a <= 10)%nat
            /\ mlDetected (data a)
               = negb (String.eqb (source (data a)) "threshold")
            /\ (is_Some (algorithm (data a)) <-> mlDetected (data a) = true))
         (created (invoke e c this).1).
Proof.
  apply created_invoke_Forall. each_fired_rule.
  all: cbn [new_alert data type source severity mlDetected algorithm snd
            cpu_critical_alert cpu_warning_alert memory_critical_alert
            system_alert process_cpu_alert anomaly_alert prediction_alert].
  all: try destruct (String.eqb (an_severity _) "critical").
  all: repeat split; try (vm_compute; lia); try reflexivity.
  all: try (unfold schema_types, schema_sources; set_solver).
  all: try (intros [? ?]; discriminate); try discriminate; eauto.
Qed.

Lemma fold_rules_cons (e : env) (k : string) (d : alert_data)
    (rules : list (string * alert_data)) (acc : list (option alert) * service) :
  fold_rules e ((k, d) :: rules) acc = fold_rules e rules (alert_once e k d acc).
Proof. reflexivity. Qed.

Lemma alert_once_eq (e : env) (k : string) (d : alert_data)
    (alerts : list (option alert)) (this : service) :
  alert_once e k d (alerts, this)
  = if isInCooldown e k this then (alerts, this)
    else (alerts ++ [(createAlert e d this).1],
          setCooldown e k (createAlert e d this).2).
Proof.
  unfold alert_once. destruct (isInCooldown e k this); [reflexivity|].
  destruct (createAlert e d this); reflexivity.
Qed.

(** What the repeated block does to the index of active alerts, and that it
    leaves the service alone when it pushes nothing. *)
Lemma fold_rules_frame (e : env) (rules : list (string * alert_data)) :
  forall alerts0 this0,
    exists new,
      (fold_rules e rules (alerts0, this0)).1 = alerts0 ++ new
      /\ activeAlerts (fold_rules e rules (alerts0, this0)).2
         = foldl (fun m a => <[alertId a := a]> m) (activeAlerts this0)
                 (created new)
      /\ (new = [] -> (fold_rules e rules (alerts0, this0)).2 = this0).
Proof.
  induction rules as [|[k d] rules IH]; intros alerts0 this0.
  - exists []. cbn. rewrite app_nil_r. auto.
  - rewrite fold_rules_cons, alert_once_eq.
    destruct (isInCooldown e k this0) eqn:Hcool; [apply IH|].
    unfold createAlert.
    destruct (save e (new_alert e d)) eqn:Hsave; cbn [fst snd].
    + destruct (IH (alerts0 ++ [Some (new_alert e d)])
                  (setCooldown e k
                     (Service (<[alertId (new_alert e d) := new_alert e d]>
                                 (activeAlerts this0))
                              (thresholds this0) (alertCooldown this0)
                              (cooldownPeriod this0))))
        as (new & H1 & H2 & _).
      exists (Some (new_alert e d) :: new).
      rewrite H1, H2, <- app_assoc. cbn. split; [reflexivity|].
      split; [reflexivity | discriminate].
    + destruct (IH (alerts0 ++ [None]) (setCooldown e k this0))
        as (new & H1 & H2 & _).
      exists (None :: new).
      rewrite H1, H2, <- app_assoc. cbn. split; [reflexivity|].
      split; [reflexivity | discriminate].
Qed.

(** X2. A check that returns an empty array has changed nothing: the service
    is exactly as before (no cooldown is stamped and no alert is indexed
    unless an entry, an alert or a null, is pushed). *)
Theorem empty_result_leaves_service_unchanged (e : env) (c : call)
    (this : service) :
  (invoke e c this).1 = [] -> (invoke e c this).2 = this.
Proof.
  rewrite invoke_fired_rules. intros Hout.
  destruct (fold_rules_frame e (fired_rules e (thresholds this) c) [] this)
    as (new & H1 & _ & H3).
  apply H3. rewrite Hout in H1. cbn in H1. congruence.
Qed.

Lemma empty_result_leaves_service_unchanged_in_cooldown :
  (invoke (sample_env 2000) (CheckSystem (Stats 97 50))
     (invoke (sample_env 1000) (CheckSystem (Stats 96 50)) create).2).1 = []
  /\ (invoke (sample_env 2000) (CheckSystem (Stats 97 50))
        (invoke (sample_env 1000) (CheckSystem (Stats 96 50)) create).2).2
     = (invoke (sample_env 1000) (CheckSystem (Stats 96 50)) create).2.
Proof.
  split; [vm_compute; reflexivity|].
  apply (empty_result_leaves_service_unchanged (sample_env 2000)
           (CheckSystem (Stats 97 50))
           (invoke (sample_env 1000) (CheckSystem (Stats 96 50)) create).2).
  vm_compute; reflexivity.
Defined.

(** X3. After a check the index of active alerts is the index before it with
    exactly the alerts of the returned array put under their ids, in order:
    a failed save (a null entry) indexes nothing. *)
Theorem active_alerts_gain_the_created (e : env) (c : call) (this : service) :
  activeAlerts (invoke e c this).2
  = foldl (fun m a => <[alertId a := a]> m) (activeAlerts this)
          (created (invoke e c this).1).
Proof.
  rewrite invoke_fired_rules.
  destruct (fold_rules_frame e (fired_rules e (thresholds this) c) [] this)
    as (new & H1 & H2 & _).
  rewrite H2, H1. reflexivity.
Qed.

(** X4. An alert whose source is a threshold records the reading and the
    cutoff it was compared with, and the reading is above the cutoff. *)
Theorem threshold_alerts_exceed_their_cutoff (e : env) (c : call)
    (this : service) :
  Forall (fun a =>
            source (data a) = "threshold" ->
            exists v t,
              currentValue (details (data a)) = Some v
              /\ threshold (details (data a)) = Some t
              /\ gt v t = true)
         (created (invoke e c this).1).
Proof.
  apply created_invoke_Forall. each_fired_rule.
  all: cbn [new_alert data source details currentValue threshold snd
            cpu_critical_alert cpu_warning_alert memory_critical_alert
            system_alert process_cpu_alert anomaly_alert prediction_alert].
  all: try discriminate.
  all: intros _; eexists _, _; split; [reflexivity|]; split; [reflexivity|];
    assumption.
Qed.

Lemma fired_rules_length (e : env) (th : threshold_table) (c : call) :
  (length (fired_rules e th c)
   <= match c with CheckSystem _ => 2 | CheckProcess _ _ => 3 end)%nat.
Proof.
  destruct c as [stats | p mlAnalysis]; unfold fired_rules.
  - destruct (gt (cpu_usage stats) (critical (th_cpu th)));
      [| destruct (gt (cpu_usage stats) (warning (th_cpu th)))];
      destruct (gt (memory_usage stats) (critical (th_memory th)));
      cbn; lia.
  - destruct (gt (cpu p) 90), (anomaly_flagged mlAnalysis),
      (prediction_flagged mlAnalysis); cbn; lia.
Qed.

Lemma invoke_length (e : env) (c : call) (this : service) :
  (length (invoke e c this).1
   <= length (fired_rules e (thresholds this) c))%nat.
Proof.
  destruct (invoke_spec e c this) as (-> & _).
  rewrite length_map. unfold live_rules. apply length_filter.
Qed.

Lemma created_for_not_fired (e : env) (c : call) (this : service) (k : string) :
  k ∉ (fired_rules e (thresholds this) c).*1 ->
  created_for k (invoke e c this).1 = [].
Proof.
  intros Hk. apply length_zero_iff_nil.
  pose proof (invoke_created_le e c this k) as Hle.
  rewrite keyed_absent in Hle; [cbn in Hle; lia|].
  rewrite live_rules_elem. tauto.
Qed.

Ltac absent_key :=
  let H := fresh in
  intros H; cbn in H;
  repeat (apply elem_of_cons in H as [H|H]; [discriminate H|]);
  apply elem_of_nil in H; exact H.

(** X5. A system check returns at most two entries and never both a
    critical and a warning CPU alert; a process check returns at most
    three entries. *)
Theorem check_results_are_small (e : env) (this : service) :
  (forall stats,
      (length (checkSystemThresholds e stats this).1 <= 2)%nat
      /\ (created_for "system-cpu-critical"
            (checkSystemThresholds e stats this).1 = []
          \/ created_for "system-cpu-warning"
               (checkSystemThresholds e stats this).1 = []))
  /\ (forall p mlAnalysis,
        (length (checkProcessThresholds e p mlAnalysis this).1 <= 3)%nat).
Proof.
  split.
  - intros stats. split.
    + pose proof (invoke_length e (CheckSystem stats) this) as H1.
      pose proof (fired_rules_length e (thresholds this) (CheckSystem stats))
        as H2.
      cbn [invoke] in H1. cbv beta iota in H2. lia.
    + change (checkSystemThresholds e stats this)
        with (invoke e (CheckSystem stats) this).
      destruct (gt (cpu_usage stats) (critical (th_cpu (thresholds this))))
        eqn:Hgt.
      * right. apply created_for_not_fired. unfold fired_rules. rewrite Hgt.
        destruct (gt (memory_usage stats) (critical (th_memory (thresholds this))));
          absent_key.
      * left. apply created_for_not_fired. unfold fired_rules. rewrite Hgt.
        destruct (gt (cpu_usage stats) (warning (th_cpu (thresholds this)))),
          (gt (memory_usage stats) (critical (th_memory (thresholds this))));
          absent_key.
  - intros p mlAnalysis.
    pose proof (invoke_length e (CheckProcess p mlAnalysis) this) as H1.
    pose proof (fired_rules_length e (thresholds this)
                  (CheckProcess p mlAnalysis)) as H2.
    cbn [invoke] in H1. cbv beta iota in H2. lia.
Qed.

Lemma update_alert_frame (findOneAndUpdate : alert_store) (alertId : string)
    (update : alert_update) (this : service) :
  alertCooldown (update_alert findOneAndUpdate alertId update this).2
    = alertCooldown this
  /\ cooldownPeriod (update_alert findOneAndUpdate alertId update this).2
     = cooldownPeriod this
  /\ thresholds (update_alert findOneAndUpdate alertId update this).2
     = thresholds this.
Proof.
  unfold update_alert.
  destruct (findOneAndUpdate alertId update) as [[d|]|err]; cbn; auto.
Qed.

(** X6. Acknowledging or resolving an alert does not lift its cooldown: a
    key that is in cooldown before the update gets no new alert from a
    check made after it, whatever the store answers. *)
Theorem acknowledged_alert_stays_in_cooldown (findOneAndUpdate : alert_store)
    (e0 e : env) (alertId acknowledgedBy : string) (this : service)
    (c : call) (k : string) :
  isInCooldown e k this = true ->
  created_for k
    (invoke e c
       (acknowledgeAlert findOneAndUpdate e0 alertId acknowledgedBy this).2).1
  = []
  /\ created_for k
       (invoke e c (resolveAlert findOneAndUpdate e0 alertId this).2).1
     = [].
Proof.
  intros Hcool. unfold acknowledgeAlert, resolveAlert.
  split; apply invoke_suppressed; rewrite <- Hcool;
    apply isInCooldown_ext;
    match goal with
    | |- context [update_alert ?s ?i ?u ?t] =>
        destruct (update_alert_frame s i u t) as (H1 & H2 & _)
    end; congruence.
Qed.

Lemma acknowledged_alert_stays_in_cooldown_cpu :
  isInCooldown (sample_env 2000) "system-cpu-critical"
    (invoke (sample_env 1000) (CheckSystem (Stats 96 50)) create).2 = true
  /\ created_for "system-cpu-critical"
       (invoke (sample_env 2000) (CheckSystem (Stats 97 50))
          (acknowledgeAlert (fun _ _ => Ok None) (sample_env 1500)
             "1000-r4nd0m" "system"
             (invoke (sample_env 1000) (CheckSystem (Stats 96 50)) create).2).2).1
     = []
  /\ created_for "system-cpu-critical"
       (invoke (sample_env 2000) (CheckSystem (Stats 97 50))
          (resolveAlert (fun _ _ => Ok None) (sample_env 1500) "1000-r4nd0m"
             (invoke (sample_env 1000) (CheckSystem (Stats 96 50)) create).2).2).1
     = [].
Proof.
  split; [vm_compute; reflexivity|].
  apply (acknowledged_alert_stays_in_cooldown (fun _ _ => Ok None)
           (sample_env 1500) (sample_env 2000) "1000-r4nd0m" "system"
           (invoke (sample_env 1000) (CheckSystem (Stats 96 50)) create).2
           (CheckSystem (Stats 97 50)) "system-cpu-critical").
  vm_compute; reflexivity.
Defined.

(** X7. Creating an alert and then acknowledging or resolving it restores
    the index of active alerts: a saved alert is indexed under its id, an
    update that the store confirms for that id returns the store's document
    and removes the entry, and an update that the store does not confirm
    (no such document, or an error) returns null and leaves the alert
    active. *)
Theorem create_then_update_restores_index (findOneAndUpdate : alert_store)
    (e : env) (d : alert_data) (update : alert_update) (doc : alert)
    (this : service) :
  save e (new_alert e d) = true ->
  activeAlerts this !! alertId (new_alert e d) = None ->
  findOneAndUpdate (alertId (new_alert e d)) update = Ok (Some doc) ->
  (createAlert e d this).1 = Some (new_alert e d)
  /\ activeAlerts (createAlert e d this).2 !! alertId (new_alert e d)
     = Some (new_alert e d)
  /\ (update_alert findOneAndUpdate (alertId (new_alert e d)) update
        (createAlert e d this).2).1 = Some doc
  /\ activeAlerts
       (update_alert findOneAndUpdate (alertId (new_alert e d)) update
          (createAlert e d this).2).2
     = activeAlerts this
  /\ (forall unconfirmed : alert_store,
        unconfirmed (alertId (new_alert e d)) update = Ok None
        \/ raises (unconfirmed (alertId (new_alert e d)) update) ->
        update_alert unconfirmed (alertId (new_alert e d)) update
          (createAlert e d this).2
        = (None, (createAlert e d this).2)).
Proof.
  intros Hsave Hfresh Hfound. unfold createAlert, update_alert.
  rewrite Hsave, Hfound. cbn.
  split; [reflexivity|]. split; [apply lookup_insert_eq|].
  split; [reflexivity|]. split; [apply delete_insert_id; exact Hfresh|].
  intros unconfirmed [Hnone | Hraise].
  - rewrite Hnone. reflexivity.
  - destruct (unconfirmed _ update) as [?|err]; [destruct Hraise | reflexivity].
Qed.

Lemma create_then_update_restores_index_cpu :
  save (sample_env 1000)
       (new_alert (sample_env 1000)
          (cpu_critical_alert (sample_env 1000) (thresholds create) (Stats 96 50)))
  = true
  /\ activeAlerts create
       !! alertId (new_alert (sample_env 1000)
                     (cpu_critical_alert (sample_env 1000) (thresholds create)
                        (Stats 96 50)))
     = None
  /\ alertId (new_alert (sample_env 1000)
                (cpu_critical_alert (sample_env 1000) (thresholds create)
                   (Stats 96 50)))
     = "1000-r4nd0m"
  /\ activeAlerts
       (createAlert (sample_env 1000)
          (cpu_critical_alert (sample_env 1000) (thresholds create)
             (Stats 96 50)) create).2
       !! "1000-r4nd0m"
     = Some (new_alert (sample_env 1000)
               (cpu_critical_alert (sample_env 1000) (thresholds create)
                  (Stats 96 50)))
  /\ activeAlerts
       (update_alert
          (fun _ _ => Ok (Some (new_alert (sample_env 1000)
             (cpu_critical_alert (sample_env 1000) (thresholds create)
                (Stats 96 50)))))
          "1000-r4nd0m" (Resolve 1500)
          (createAlert (sample_env 1000)
             (cpu_critical_alert (sample_env 1000) (thresholds create)
                (Stats 96 50)) create).2).2
     = activeAlerts create.
Proof.
  split; [reflexivity|]. split; [reflexivity|]. split; [reflexivity|].
  destruct (create_then_update_restores_index
              (fun _ _ => Ok (Some (new_alert (sample_env 1000)
                 (cpu_critical_alert (sample_env 1000) (thresholds create)
                    (Stats 96 50)))))
              (sample_env 1000)
              (cpu_critical_alert (sample_env 1000) (thresholds create)
                 (Stats 96 50))
              (Resolve 1500)
              (new_alert (sample_env 1000)
                 (cpu_critical_alert (sample_env 1000) (thresholds create)
                    (Stats 96 50)))
              create eq_refl eq_refl eq_refl)
    as (_ & Hindexed & _ & Hrestored & _).
  split; [exact Hindexed | exact Hrestored].
Defined.

End AlertLifecycleFacts.

(** ** Alert service: invocations that overlap *)

Module OverlapFacts.
Import AlertService AlertServiceFacts AlertLifecycleFacts.
Local Open Scope Z_scope.

Lemma returned_is_idle (e e2 : env) (alerts : list (option alert))
    (t2 : task) (this : service) (turns : nat) :
  overlap (replicate turns First) e e2 (Returned alerts) t2 this
  = (Returned alerts, t2, this).
Proof. induction turns as [|turns IH]; [reflexivity | exact IH]. Qed.

(** An invocation that is resumed again and again, nothing running in
    between, returns what [invoke] returns and leaves the service as
    [invoke] leaves it. *)
Lemma resume_alone (e : env) (rules : list (string * alert_data)) :
  forall (turns : nat) (e2 : env) (t2 : task) (alerts : list (option alert))
         (this : service),
    (2 * length rules <= turns)%nat ->
    overlap (replicate turns First) e e2 (advance e rules alerts this) t2 this
    = (Returned (fold_rules e rules (alerts, this)).1, t2,
       (fold_rules e rules (alerts, this)).2).
Proof.
  induction rules as [|[k d] rules IH]; intros turns e2 t2 alerts this Hturns.
  - apply returned_is_idle.
  - rewrite fold_rules_cons, alert_once_eq. cbn [advance].
    cbn [length] in Hturns.
    destruct (isInCooldown e k this) eqn:Hcool.
    + apply IH. lia.
    + destruct turns as [|[|turns]]; [lia | lia |].
      cbn [replicate overlap resume].
      destruct (createAlert e d this) as [created this1]. cbn [fst snd].
      apply IH. lia.
Qed.

Lemma invocation_alone (e e2 : env) (c : call) (t2 : task) (this : service)
    (turns : nat) :
  (6 < turns)%nat ->
  overlap (replicate turns First) e e2 (invocation e c this) t2 this
  = (Returned (invoke e c this).1, t2, (invoke e c this).2).
Proof.
  intros Hturns. destruct turns as [|turns]; [lia|].
  rewrite invoke_fired_rules.
  change (overlap (replicate turns First) e e2
            (advance e (fired_rules e (thresholds this) c) [] this) t2 this
          = (Returned (fold_rules e (fired_rules e (thresholds this) c)
                                  ([], this)).1, t2,
             (fold_rules e (fired_rules e (thresholds this) c) ([], this)).2)).
  apply resume_alone.
  pose proof (fired_rules_length e (thresholds this) c) as Hlen.
  destruct c; lia.
Qed.

(** C1. Two invocations that overlap create two alerts for one key within
    the cooldown. When each of them fires the rule of a key that is not in
    cooldown and both saves succeed, the second invocation, started while
    the first awaits its save, finds the cooldown unset: both pass the
    check, both create their alert and both set the cooldown. On a fresh
    service two overlapping [checkSystemThresholds] calls at a cpu usage
    of 96, read at the instants 1000 and 1001, return one critical CPU
    alert each, and both are active; the same two calls made one after
    the other return one alert and none. *)
Theorem overlapping_checks_create_two_alerts :
  (forall (this : service) (e1 e2 : env) (c1 c2 : call) (k : string)
          (d1 d2 : alert_data),
      fired_rules e1 (thresholds this) c1 = [(k, d1)] ->
      fired_rules e2 (thresholds this) c2 = [(k, d2)] ->
      isInCooldown e1 k this = false ->
      isInCooldown e2 k this = false ->
      save e1 (new_alert e1 d1) = true ->
      save e2 (new_alert e2 d2) = true ->
      (overlap [First; Second; First; First; Second; Second] e1 e2
               (invocation e1 c1 this) (invocation e2 c2 this) this).1
      = (Returned [Some (new_alert e1 d1)], Returned [Some (new_alert e2 d2)])
      /\ dedupKey (data (new_alert e1 d1)) = k
      /\ dedupKey (data (new_alert e2 d2)) = k)
  /\ map (fun t => length (created_for "system-cpu-critical" (returned t)))
         [(overlap [First; Second; First; First; Second; Second]
                   (sample_env 1000) (sample_env 1001)
                   (invocation (sample_env 1000) (CheckSystem (Stats 96 50)) create)
                   (invocation (sample_env 1001) (CheckSystem (Stats 96 50)) create)
                   create).1.1;
          (overlap [First; Second; First; First; Second; Second]
                   (sample_env 1000) (sample_env 1001)
                   (invocation (sample_env 1000) (CheckSystem (Stats 96 50)) create)
                   (invocation (sample_env 1001) (CheckSystem (Stats 96 50)) create)
                   create).1.2]
     = [1%nat; 1%nat]
  /\ 1001 - 1000 < cooldownPeriod create
  /\ size (activeAlerts
             (overlap [First; Second; First; First; Second; Second]
                      (sample_env 1000) (sample_env 1001)
                      (invocation (sample_env 1000) (CheckSystem (Stats 96 50))
                                  create)
                      (invocation (sample_env 1001) (CheckSystem (Stats 96 50))
                                  create)
                      create).2)
     = 2%nat
  /\ map (fun out => length (created_for "system-cpu-critical" out.2))
         (run [(sample_env 1000, CheckSystem (Stats 96 50));
               (sample_env 1001, CheckSystem (Stats 96 50))] create).1
     = [1%nat; 0%nat].
Proof.
  split; [|split; [|split; [|split]]]; try (vm_compute; reflexivity).
  intros this e1 e2 c1 c2 k d1 d2 Hc1 Hc2 Hcool1 Hcool2 Hsave1 Hsave2.
  split.
  - unfold invocation. rewrite Hc1, Hc2.
    cbn [overlap resume advance]. rewrite Hcool1, Hcool2.
    cbn [overlap resume advance]. unfold createAlert. rewrite Hsave1.
    cbn [overlap resume advance app]. unfold createAlert. rewrite Hsave2.
    reflexivity.
  - pose proof (fired_rules_keys e1 (thresholds this) c1) as H1.
    pose proof (fired_rules_keys e2 (thresholds this) c2) as H2.
    rewrite Hc1 in H1. rewrite Hc2 in H2.
    apply Forall_cons_1 in H1 as [H1 _]. apply Forall_cons_1 in H2 as [H2 _].
    cbn in H1, H2. auto.
Qed.

End OverlapFacts.

(** ** ML service: the analysis of one process *)

Module AnalysisFacts.
Import MLService MLServiceFacts.

Lemma lt_threshold_mono (s : JsNum.num) :
  JsNum.lt (JsNum.Fin (8 / 10)%R) s = true ->
  JsNum.lt (JsNum.Fin (6 / 10)%R) s = true.
Proof.
  destruct s as [r| | |]; cbn; try discriminate; try reflexivity.
  destruct (Rlt_dec (8 / 10) r), (Rlt_dec (6 / 10) r);
    try reflexivity; try discriminate.
  lra.
Qed.

(** X8. [detectAnomalies] never raises and its report is consistent: the
    severity is critical, warning or normal; the process is flagged as an
    anomaly exactly when the severity is not normal; a critical severity
    means a score above 0.8 and a flagged process a score above 0.6. A
    [null] process, an untrained detector and a detector without trees give
    the neutral report (not flagged, score 0, normal), and a score that is
    NaN is reported as normal. *)
Theorem detectAnomalies_report_consistent (this : service)
    (proc : option ProcessClassifier.process) :
  exists r,
    detectAnomalies this proc = Ok r
    /\ severity r ∈ ["critical"; "warning"; "normal"]
    /\ (isAnomaly r = true <-> severity r <> "normal")
    /\ (severity r = "critical"
        <-> JsNum.lt (JsNum.Fin (8 / 10)%R) (score r) = true)
    /\ (isAnomaly r = true
        <-> JsNum.lt (JsNum.Fin (6 / 10)%R) (score r) = true)
    /\ (proc = None
        \/ IsolationForest.trained (anomalyDetector this) = false
        \/ IsolationForest.trees (anomalyDetector this) = [] ->
        r = AnomalyReport false (JsNum.Fin 0%R) "normal")
    /\ (score r = JsNum.NaN -> isAnomaly r = false /\ severity r = "normal").
Proof.
  assert (H6 : JsNum.lt (JsNum.Fin (6 / 10)%R) (JsNum.Fin 0%R) = false).
  { cbn. destruct (Rlt_dec (6 / 10) 0); [lra | reflexivity]. }
  assert (H8 : JsNum.lt (JsNum.Fin (8 / 10)%R) (JsNum.Fin 0%R) = false).
  { cbn. destruct (Rlt_dec (8 / 10) 0); [lra | reflexivity]. }
  assert (Hin : forall b8 b6 : bool,
             (if b8 then "critical" else if b6 then "warning" else "normal")
               ∈ ["critical"; "warning"; "normal"]).
  { intros [] []; repeat constructor. }
  unfold detectAnomalies. destruct proc as [p|]; cbn [try_catch].
  2:{ eexists. split; [reflexivity|]. cbn [severity isAnomaly score].
      rewrite H6, H8. split; [apply (Hin false false)|].
      repeat split; try discriminate; try congruence. }
  set (features := [_; _; _; _]).
  destruct (InferenceFacts.forest_predict_total (anomalyDetector this)
              (Some features)) as [s Hs].
  assert (Hs0 : IsolationForest.trained (anomalyDetector this) = false
                \/ IsolationForest.trees (anomalyDetector this) = [] ->
                s = JsNum.Fin 0%R).
  { unfold IsolationForest.predict in Hs. intros [Hun | Hno].
    - rewrite Hun in Hs. cbn in Hs. congruence.
    - rewrite Hno, orb_true_r in Hs. congruence. }
  rewrite Hs. cbn [mbind result_bind rbind try_catch].
  eexists. split; [reflexivity|]. cbn [severity isAnomaly score].
  split; [apply Hin|].
  pose proof (lt_threshold_mono s) as Hmono.
  split; [|split; [|split; [tauto|split]]].
  - destruct (JsNum.lt (JsNum.Fin (8 / 10)%R) s),
      (JsNum.lt (JsNum.Fin (6 / 10)%R) s);
      split; try discriminate; try reflexivity; try (intros H; congruence).
    specialize (Hmono eq_refl). discriminate.
  - destruct (JsNum.lt (JsNum.Fin (8 / 10)%R) s),
      (JsNum.lt (JsNum.Fin (6 / 10)%R) s);
      split; try discriminate; reflexivity.
  - intros [Hnone | Hrest]; [discriminate|].
    rewrite (Hs0 Hrest), H6, H8. reflexivity.
  - intros ->. split; reflexivity.
Qed.

Local Open Scope nat_scope.

Lemma detectAnomalies_total (this : service)
    (proc : option ProcessClassifier.process) :
  exists r, detectAnomalies this proc = Ok r.
Proof.
  unfold detectAnomalies. destruct proc as [p|]; cbn [try_catch]; [|eauto].
  set (features := [_; _; _; _]).
  destruct (InferenceFacts.forest_predict_total (anomalyDetector this)
              (Some features)) as [s ->].
  cbn. eauto.
Qed.

Lemma classifier_predict_total (c : ProcessClassifier.classifier)
    (proc : option ProcessClassifier.process) :
  exists r, ProcessClassifier.predict c proc = Ok r.
Proof.
  unfold ProcessClassifier.predict.
  destruct (ProcessClassifier.trained c); [|eauto].
  destruct (ProcessClassifier.model c) as [m|]; [|eauto].
  destruct (ProcessClassifier.classify c m proc); cbn; eauto.
Qed.

Lemma classifyProcess_total (this : service)
    (proc : option ProcessClassifier.process) :
  exists r, classifyProcess this proc = Ok r.
Proof.
  unfold classifyProcess.
  destruct (classifier_predict_total (classifier this) proc) as [r ->].
  cbn. eauto.
Qed.

(** The three outcomes of [predictFuture]. *)
Lemma predictFuture_cases (this : service) (processId : process_id)
    (steps : nat) :
  exists r,
    predictFuture this processId steps = Ok r
    /\ (r = None
        <-> LSTMPredictor.trained (predictor this) = false
            \/ length (history_of this processId) < 10)
    /\ (forall forecast, r = Some forecast -> length forecast = steps).
Proof.
  unfold predictFuture, history_of.
  destruct (LSTMPredictor.trained (predictor this)) eqn:Htr; cbn [negb].
  2:{ cbn. exists None. split; [reflexivity|]. split; [tauto | discriminate]. }
  destruct (metricsHistory this !! processId) as [history|] eqn:Hh;
    cbn [default].
  2:{ cbn. exists None. split; [reflexivity|].
      split; [split; [intros _; right; lia | reflexivity] | discriminate]. }
  destruct (length history <? 10) eqn:Hlen.
  { apply Nat.ltb_lt in Hlen. cbn. exists None. split; [reflexivity|].
    split; [tauto | discriminate]. }
  apply Nat.ltb_ge in Hlen.
  destruct (predictMultiStep_length (predictor this)
              (slice_last 10 (map (fun m => q_or_else (cpu m) 0) history)) steps)
    as (out & Hout & Hlen').
  rewrite Hout. cbn. exists (Some out). split; [reflexivity|]. split.
  - split; [discriminate|]. intros [Hf | Hlt]; [discriminate | lia].
  - intros forecast [= <-]. exact Hlen'.
Qed.

Lemma analyzeProcess_stores (p : ProcessClassifier.process)
    (processId : process_id) (storedAt finishedAt : Z) (this : service) :
  exists a,
    analyzeProcess (Some p) processId storedAt finishedAt this
    = Ok (a, storeMetrics processId
               (Metrics (ProcessClassifier.cpu p) (ProcessClassifier.memory p)
                        (q_or_else (ProcessClassifier.ioRead p) 0)
                        (q_or_else (ProcessClassifier.ioWrite p) 0))
               storedAt this)
    /\ predictFuture
         (storeMetrics processId
            (Metrics (ProcessClassifier.cpu p) (ProcessClassifier.memory p)
                     (q_or_else (ProcessClassifier.ioRead p) 0)
                     (q_or_else (ProcessClassifier.ioWrite p) 0))
            storedAt this) processId 5
       = Ok (predictions a)
    /\ an_timestamp a = finishedAt.
Proof.
  unfold analyzeProcess.
  set (this' := storeMetrics _ _ _ _).
  destruct (detectAnomalies_total this' (Some p)) as [r1 ->].
  destruct (classifyProcess_total this' (Some p)) as [r2 ->].
  destruct (predictFuture_cases this' processId 5) as (r3 & -> & _).
  cbn. eexists. split; [reflexivity|]. split; reflexivity.
Qed.

(** X9. An analysis stores the reading before it forecasts, so its own
    snapshot counts towards the ten that a forecast needs: with at most
    eight snapshots held for the process the predictions are null, from
    the ninth on (and a trained predictor) they are five values. The
    history of the process gains the snapshot (the oldest one is dropped at
    the cap), other histories stay as they are, and nothing is raised. *)
Theorem analysis_counts_its_own_snapshot (this : service)
    (p : ProcessClassifier.process) (processId : process_id)
    (storedAt finishedAt : Z) :
  length (history_of this processId) <= maxHistorySize this ->
  10 <= maxHistorySize this ->
  exists a this',
    analyzeProcess (Some p) processId storedAt finishedAt this = Ok (a, this')
    /\ history_of this' processId
       = most_recent (maxHistorySize this)
           (history_of this processId
              ++ [Snapshot (ProcessClassifier.cpu p) (ProcessClassifier.memory p)
                    (q_or_else (ProcessClassifier.ioRead p) 0)
                    (q_or_else (ProcessClassifier.ioWrite p) 0) storedAt])
    /\ (forall other, other <> processId ->
          history_of this' other = history_of this other)
    /\ (predictions a = None
        <-> LSTMPredictor.trained (predictor this) = false
            \/ length (history_of this processId) < 9)
    /\ (forall forecast, predictions a = Some forecast -> length forecast = 5)
    /\ an_timestamp a = finishedAt.
Proof.
  intros Hcap Hten.
  destruct (analyzeProcess_stores p processId storedAt finishedAt this)
    as (a & Ha & Hpred & Hts).
  set (m := Metrics _ _ _ _) in *.
  exists a, (storeMetrics processId m storedAt this).
  split; [exact Ha|].
  assert (Hhist : history_of (storeMetrics processId m storedAt this) processId
                  = most_recent (maxHistorySize this)
                      (history_of this processId ++ [stamp m storedAt])).
  { rewrite storeMetrics_history, decide_True by reflexivity.
    rewrite <- most_recent_push, (most_recent_all _ _ Hcap). reflexivity. }
  split; [exact Hhist|].
  split.
  { intros other Hne. rewrite storeMetrics_history, decide_False; congruence. }
  destruct (predictFuture_cases (storeMetrics processId m storedAt this)
              processId 5) as (r & Hr & Hnone & Hlen).
  rewrite Hr in Hpred. injection Hpred as <-.
  split; [|split; [exact Hlen | exact Hts]].
  rewrite Hnone, Hhist. unfold most_recent.
  rewrite length_drop, length_app. cbn [length].
  change (predictor (storeMetrics processId m storedAt this))
    with (predictor this).
  split; (intros [Hf | Hlt]; [left; exact Hf | right; lia]).
Qed.

Lemma analysis_counts_its_own_snapshot_ninth :
  length (history_of (trained_service 9) (PidNum 7))
    <= maxHistorySize (trained_service 9)
  /\ 10 <= maxHistorySize (trained_service 9)
  /\ exists a this',
       analyzeProcess (Some (ProcessClassifier.Process 40 200 4 0 0 0 0 0))
         (PidNum 7) 9%Z 10%Z (trained_service 9) = Ok (a, this')
       /\ exists forecast, predictions a = Some forecast /\ length forecast = 5.
Proof.
  assert (H1 : length (history_of (trained_service 9) (PidNum 7)) = 9)
    by (vm_compute; reflexivity).
  assert (H2 : maxHistorySize (trained_service 9) = 100)
    by (vm_compute; reflexivity).
  split; [rewrite H1, H2; lia|]. split; [rewrite H2; lia|].
  destruct (analysis_counts_its_own_snapshot (trained_service 9)
              (ProcessClassifier.Process 40 200 4 0 0 0 0 0) (PidNum 7) 9%Z 10%Z)
    as (a & this' & Ha & _ & _ & Hnone & Hlen & _);
    [rewrite H1, H2; lia | rewrite H2; lia |].
  exists a, this'. split; [exact Ha|].
  destruct (predictions a) as [forecast|] eqn:Hp.
  - exists forecast. split; [reflexivity | apply Hlen; reflexivity].
  - exfalso. destruct Hnone as [Hnone _].
    destruct (Hnone eq_refl) as [Hf | Hlt].
    + vm_compute in Hf. discriminate.
    + rewrite H1 in Hlt. lia.
Defined.

Lemma storeMetrics_other_key (processId other : process_id) (m : metrics)
    (now : Z) (this : service) :
  other <> processId ->
  metricsHistory (storeMetrics processId m now this) !! other
  = metricsHistory this !! other.
Proof.
  intros Hne. unfold storeMetrics, with_history. cbn [metricsHistory].
  apply lookup_insert_ne. congruence.
Qed.

(** X10. Histories are keyed by the numeric pid that the server passes to
    [analyzeProcess]; a lookup under a string id, as the predictions route
    makes with its request parameter, never finds them. Whatever analyses
    have run (none of them raises), [predictFuture] with a string id
    returns null. *)
Theorem string_id_never_finds_numeric_history
    (calls : list (ProcessClassifier.process * Z * Z * Z)) (this : service) :
  (forall s, metricsHistory this !! PidStr s = None) ->
  exists analyses final,
    analyze_all calls this = Ok (analyses, final)
    /\ length analyses = length calls
    /\ forall s steps, predictFuture final (PidStr s) steps = Ok None.
Proof.
  revert this.
  induction calls as [|[[[p pid] storedAt] finishedAt] rest IH];
    intros this Hnone.
  - exists [], this. split; [reflexivity|]. split; [reflexivity|].
    intros s steps. unfold predictFuture.
    destruct (negb _); [reflexivity|]. rewrite Hnone. reflexivity.
  - destruct (analyzeProcess_stores p (PidNum pid) storedAt finishedAt this)
      as (a & Ha & _).
    set (this' := storeMetrics _ _ _ _) in Ha.
    destruct (IH this') as (others & final & Hrest & Hlen & Hfinal).
    { intros s. unfold this'. rewrite storeMetrics_other_key by discriminate.
      apply Hnone. }
    exists (a :: others), final. cbn [analyze_all].
    rewrite Ha. cbn. rewrite Hrest. cbn.
    split; [reflexivity|]. split; [rewrite Hlen; reflexivity | exact Hfinal].
Qed.

Lemma string_id_never_finds_numeric_history_route :
  (forall s, metricsHistory (trained_service 0) !! PidStr s = None)
  /\ exists analyses final,
       analyze_all
         (map (fun i => (ProcessClassifier.Process 40 200 4 0 0 0 0 0,
                         7%Z, Z.of_nat i, Z.of_nat i))
              (seq 0 12))
         (trained_service 0) = Ok (analyses, final)
       /\ length analyses = 12
       /\ predictFuture final (PidStr "7") 10 = Ok None.
Proof.
  assert (H0 : forall s, metricsHistory (trained_service 0) !! PidStr s = None)
    by (intros s; apply lookup_empty).
  split; [exact H0|].
  destruct (string_id_never_finds_numeric_history
              (map (fun i => (ProcessClassifier.Process 40 200 4 0 0 0 0 0,
                              7%Z, Z.of_nat i, Z.of_nat i))
                   (seq 0 12))
              (trained_service 0) H0)
    as (analyses & final & Hrun & Hlen & Hnull).
  exists analyses, final. split; [exact Hrun|]. split; [exact Hlen|].
  apply Hnull.
Defined.

End AnalysisFacts.

(** ** Isolation forest: growing the trees and scoring a batch *)

Module ForestGrowthFacts.
Import JsNum IsolationForest.

(** [ceil_log2] is the ceiling of the binary logarithm. *)
Lemma ceil_log2_spec (n d : nat) :
  ceil_log2 n = Some d -> n <= 2 ^ d /\ (d = 0 \/ 2 ^ (d - 1) < n).
Proof.
  unfold ceil_log2. destruct (n =? 0) eqn:Hn; [discriminate|].
  apply Nat.eqb_neq in Hn. intros [= <-].
  destruct (decide (n = 1)) as [-> | Hne]; [cbn; lia|].
  destruct (Nat.log2_up_spec n) as [Hlo Hhi]; [lia|].
  split; [exact Hhi|]. right.
  replace (Nat.log2_up n - 1) with (Nat.pred (Nat.log2_up n)) by lia.
  exact Hlo.
Qed.

Lemma random_below_lt (u : unit_draw) (n : nat) :
  0 < n -> random_below u n < n.
Proof.
  intros Hn. unfold random_below.
  destruct (draw_range u) as [H0 H1].
  assert (Hpos : (0 < INR n)%R) by (apply lt_0_INR; lia).
  destruct (base_Int_part (draw u * INR n)) as [Hle Hgt].
  assert (Hlo : (-1 < Int_part (draw u * INR n))%Z).
  { apply lt_IZR. nra. }
  assert (Hhi : (Int_part (draw u * INR n) < Z.of_nat n)%Z).
  { apply lt_IZR. rewrite <- INR_IZR_INZ. nra. }
  lia.
Qed.

Lemma min_of_nan (values : list num) : NaN ∈ values -> min_of values = NaN.
Proof.
  induction values as [|v values IH]; intros Hin.
  - apply elem_of_nil in Hin. destruct Hin.
  - apply elem_of_cons in Hin as [<- | Hin]; cbn.
    + reflexivity.
    + fold (min_of values). rewrite (IH Hin). destruct v; reflexivity.
Qed.

Lemma lt_ge_exclusive (x y : num) : lt x y = true -> ge x y = true -> False.
Proof.
  unfold ge. destruct x, y; cbn; try discriminate;
    try (destruct (Rlt_dec _ _); discriminate).
Qed.

Lemma lt_or_ge (x y : num) :
  x <> NaN -> y <> NaN -> lt x y = true \/ ge x y = true.
Proof.
  intros Hx Hy. unfold ge.
  destruct x, y; try congruence; destruct (lt _ _); cbn; auto.
Qed.

Lemma filter_exclusive_length {A : Type} (P Q : A -> bool) (l : list A) :
  (forall x, P x = true -> Q x = true -> False) ->
  length (filter (fun x => P x = true) l)
  + length (filter (fun x => Q x = true) l) <= length l.
Proof.
  intros Hex. induction l as [|x l IH]; [reflexivity|].
  rewrite !filter_cons.
  destruct (decide (P x = true)) as [HP|HP], (decide (Q x = true)) as [HQ|HQ];
    cbn [length]; try lia.
  destruct (Hex x HP HQ).
Qed.

Lemma filter_cover_length {A : Type} (P Q : A -> bool) (l : list A) :
  (forall x, P x = true -> Q x = true -> False) ->
  (forall x, x ∈ l -> P x = true \/ Q x = true) ->
  length (filter (fun x => P x = true) l)
  + length (filter (fun x => Q x = true) l) = length l.
Proof.
  intros Hex. induction l as [|x l IH]; intros Hcov; [reflexivity|].
  rewrite !filter_cons.
  assert (IH' := IH (fun y Hy => Hcov y (list_elem_of_further _ _ _ Hy))).
  destruct (decide (P x = true)) as [HP|HP], (decide (Q x = true)) as [HQ|HQ];
    cbn [length]; try lia.
  - destruct (Hex x HP HQ).
  - destruct (Hcov x (list_elem_of_here _ _)); contradiction.
Qed.

(** One split: when the left part is not empty the two parts make up the
    array. A reading that is NaN (or missing) turns the minimum and with it
    the split value into NaN, and then nothing is below the split value. *)
Lemma split_covers (data : list (list num)) (featureIndex : nat) (offset : num) :
  let splitValue :=
    add (min_of (map (fun point => elem point featureIndex) data)) offset in
  let leftData :=
    filter (fun point => lt (elem point featureIndex) splitValue = true) data in
  let rightData :=
    filter (fun point => ge (elem point featureIndex) splitValue = true) data in
  length leftData + length rightData <= length data
  /\ (length leftData <> 0 ->
      length leftData + length rightData = length data).
Proof.
  intros splitValue leftData rightData. split.
  - apply (filter_exclusive_length
             (fun point => lt (elem point featureIndex) splitValue)
             (fun point => ge (elem point featureIndex) splitValue)).
    intros x. apply lt_ge_exclusive.
  - intros Hleft.
    apply (filter_cover_length
             (fun point => lt (elem point featureIndex) splitValue)
             (fun point => ge (elem point featureIndex) splitValue)).
    { intros x. apply lt_ge_exclusive. }
    destruct leftData as [|p rest] eqn:Eleft; [contradiction Hleft; reflexivity|].
    assert (Hp : p ∈ leftData) by (rewrite Eleft; apply list_elem_of_here).
    apply list_elem_of_filter in Hp as [Hp _].
    assert (Hsplit : splitValue <> NaN).
    { intros Hnan. rewrite Hnan in Hp. destruct (elem p featureIndex); discriminate. }
    intros x Hx. apply lt_or_ge; [|exact Hsplit].
    intros Hnan. apply Hsplit. unfold splitValue.
    rewrite min_of_nan; [reflexivity|].
    rewrite <- Hnan. apply (list_elem_of_fmap_2 (fun point => elem point featureIndex)).
    exact Hx.
Qed.

Lemma buildTree_rec_leaf (fuel : nat) (random : random_source) (drawn : nat)
    (data : list (list num)) (currentDepth : nat) (maxDepth : option nat) :
  (length data <=? 1) || depth_reached currentDepth maxDepth = true ->
  buildTree_rec fuel random drawn data currentDepth maxDepth
  = (Leaf (length data), drawn).
Proof. intros H. destruct fuel; cbn; rewrite H; reflexivity. Qed.

(** The result does not depend on the fuel once it covers the array. *)
Lemma buildTree_rec_fuel (fuel1 : nat) :
  forall fuel2 random drawn data currentDepth maxDepth,
    length data <= fuel1 -> length data <= fuel2 ->
    buildTree_rec fuel1 random drawn data currentDepth maxDepth
    = buildTree_rec fuel2 random drawn data currentDepth maxDepth.
Proof.
  induction fuel1 as [|fuel1 IH];
    intros fuel2 random drawn data currentDepth maxDepth H1 H2.
  - rewrite !buildTree_rec_leaf; [reflexivity | |];
      (apply orb_true_iff; left; apply Nat.leb_le; lia).
  - destruct ((length data <=? 1) || depth_reached currentDepth maxDepth)
      eqn:Hguard.
    { rewrite !buildTree_rec_leaf by exact Hguard. reflexivity. }
    apply orb_false_iff in Hguard as [Hlen Hdepth].
    apply Nat.leb_gt in Hlen.
    destruct fuel2 as [|fuel2]; [lia|].
    cbn [buildTree_rec]. rewrite Hdepth.
    replace (length data <=? 1) with false by (symmetry; apply Nat.leb_gt; lia).
    cbn [orb].
    set (featureIndex := random_below _ _).
    set (offset := mul _ _).
    destruct (split_covers data featureIndex offset) as [Hsum _].
    cbv zeta in Hsum.
    set (leftData := filter (fun point => lt _ _ = true) data) in *.
    set (rightData := filter (fun point => ge _ _ = true) data) in *.
    destruct ((length leftData =? 0) || (length rightData =? 0)) eqn:Hempty;
      [reflexivity|].
    apply orb_false_iff in Hempty as [Hl Hr].
    apply Nat.eqb_neq in Hl, Hr.
    rewrite (IH fuel2 random (S (S drawn)) leftData) by lia.
    destruct (buildTree_rec fuel2 random (S (S drawn)) leftData
                (S currentDepth) maxDepth) as [tleft drawn1].
    rewrite (IH fuel2 random drawn1 rightData) by lia.
    reflexivity.
Qed.

Lemma buildTree_rec_spec (fuel : nat) :
  forall random drawn data currentDepth maxDepth,
    length data <= fuel ->
    leaf_total (buildTree_rec fuel random drawn data currentDepth maxDepth).1
    = length data
    /\ (forall d, maxDepth = Some d ->
          height (buildTree_rec fuel random drawn data currentDepth maxDepth).1
          <= d - currentDepth)
    /\ (1 <= length data ->
        leaves_inhabited
          (buildTree_rec fuel random drawn data currentDepth maxDepth).1 = true)
    /\ drawn <= (buildTree_rec fuel random drawn data currentDepth maxDepth).2.
Proof.
  induction fuel as [|fuel IH]; intros random drawn data currentDepth maxDepth Hfuel.
  - rewrite buildTree_rec_leaf
      by (apply orb_true_iff; left; apply Nat.leb_le; lia).
    cbn [fst snd leaf_total height leaves_inhabited].
      split; [reflexivity|]. split; [intros; lia|].
    split; [intros H; apply Nat.leb_le; exact H | lia].
  - destruct ((length data <=? 1) || depth_reached currentDepth maxDepth)
      eqn:Hguard.
    { rewrite buildTree_rec_leaf by exact Hguard.
      cbn [fst snd leaf_total height leaves_inhabited].
      split; [reflexivity|]. split; [intros; lia|].
      split; [intros H; apply Nat.leb_le; exact H | lia]. }
    apply orb_false_iff in Hguard as [Hlen Hdepth].
    apply Nat.leb_gt in Hlen.
    cbn [buildTree_rec]. rewrite Hdepth.
    replace (length data <=? 1) with false by (symmetry; apply Nat.leb_gt; lia).
    cbn [orb].
    set (featureIndex := random_below _ _).
    set (offset := mul _ _).
    destruct (split_covers data featureIndex offset) as [Hsum Hcover].
    cbv zeta in Hsum, Hcover.
    set (leftData := filter (fun point => lt _ _ = true) data) in *.
    set (rightData := filter (fun point => ge _ _ = true) data) in *.
    destruct ((length leftData =? 0) || (length rightData =? 0)) eqn:Hempty.
    { cbn [fst snd leaf_total height leaves_inhabited].
      split; [reflexivity|]. split; [intros; lia|].
      split; [intros H; apply Nat.leb_le; exact H | lia]. }
    apply orb_false_iff in Hempty as [Hl Hr].
    apply Nat.eqb_neq in Hl, Hr.
    specialize (Hcover Hl).
    destruct (IH random (S (S drawn)) leftData (S currentDepth) maxDepth)
      as (IHl1 & IHl2 & IHl3 & IHl4); [lia|].
    destruct (buildTree_rec fuel random (S (S drawn)) leftData
                (S currentDepth) maxDepth) as [tleft drawn1].
    destruct (IH random drawn1 rightData (S currentDepth) maxDepth)
      as (IHr1 & IHr2 & IHr3 & IHr4); [lia|].
    destruct (buildTree_rec fuel random drawn1 rightData
                (S currentDepth) maxDepth) as [tright drawn2].
    cbn [fst snd] in *. cbn [leaf_total height leaves_inhabited].
    split; [lia|]. split.
    + intros d Hd. specialize (IHl2 d Hd). specialize (IHr2 d Hd).
      rewrite Hd in Hdepth. cbn in Hdepth. apply Nat.leb_gt in Hdepth. lia.
    + split; [|lia]. intros _. rewrite IHl3, IHr3 by lia. reflexivity.
Qed.

(** X11. An isolation tree partitions the array it is built from: the sizes
    of its leaves add up to the number of points (a point whose reading is
    missing or NaN is never dropped, since such a reading makes the split
    value NaN and the node a leaf), no branch is longer than
    [maxDepth - currentDepth], every leaf of a non-empty array holds a
    point, an array of at most one point and a [maxDepth] of [-Infinity]
    give a single leaf, and the recursion ends within as many levels as
    the array has points. *)
Theorem buildTree_partitions_the_sample (random : random_source) (drawn : nat)
    (data : list (list num)) (currentDepth : nat) (maxDepth : option nat) :
  leaf_total (buildTree random drawn data currentDepth maxDepth).1 = length data
  /\ (forall d, maxDepth = Some d ->
        height (buildTree random drawn data currentDepth maxDepth).1
        <= d - currentDepth)
  /\ (1 <= length data ->
      leaves_inhabited (buildTree random drawn data currentDepth maxDepth).1
      = true)
  /\ (length data <= 1 \/ maxDepth = None ->
      buildTree random drawn data currentDepth maxDepth
      = (Leaf (length data), drawn))
  /\ (forall fuel, length data <= fuel ->
        buildTree_rec fuel random drawn data currentDepth maxDepth
        = buildTree random drawn data currentDepth maxDepth).
Proof.
  unfold buildTree.
  destruct (buildTree_rec_spec (length data) random drawn data currentDepth
              maxDepth (le_n _)) as (H1 & H2 & H3 & _).
  split; [exact H1|]. split; [exact H2|]. split; [exact H3|]. split.
  - intros Hleaf. apply buildTree_rec_leaf. apply orb_true_iff.
    destruct Hleaf as [Hlen | ->]; [left; apply Nat.leb_le; exact Hlen|].
    right. reflexivity.
  - intros fuel Hfuel. apply buildTree_rec_fuel; [exact Hfuel | apply le_n].
Qed.

Lemma bootstrap_length (random : random_source) (data : list (list num))
    (remaining : nat) :
  forall drawn sample,
    remaining <= length data ->
    length (bootstrap random drawn data remaining sample).1
    = length sample + remaining.
Proof.
  induction remaining as [|remaining IH]; intros drawn sample Hle.
  - cbn. lia.
  - cbn [bootstrap].
    destruct (lookup_lt_is_Some_2 data
                (random_below (random drawn) (length data))) as [p Hp].
    { apply random_below_lt. lia. }
    rewrite Hp, IH by lia. cbn [option_list]. rewrite length_app. cbn. lia.
Qed.

Lemma grow_trees_spec (random : random_source) (sampleSize : nat)
    (data : list (list num)) (remaining : nat) :
  forall drawn trees,
    exists new,
      (grow_trees random drawn sampleSize data remaining trees).1 = trees ++ new
      /\ length new = remaining
      /\ Forall (fun t =>
                   leaf_total t = Nat.min sampleSize (length data)
                   /\ (forall d, ceil_log2 sampleSize = Some d -> height t <= d)
                   /\ (sampleSize = 0 \/ data = [] -> t = Leaf 0))
                new.
Proof.
  induction remaining as [|remaining IH]; intros drawn trees.
  - exists []. cbn. rewrite app_nil_r. auto.
  - cbn [grow_trees].
    pose proof (bootstrap_length random data (Nat.min sampleSize (length data))
                  drawn [] (Nat.le_min_r _ _)) as Hsample.
    destruct (bootstrap random drawn data (Nat.min sampleSize (length data)) [])
      as [sample drawn1].
    cbn [fst length] in Hsample.
    destruct (buildTree_rec_spec (length sample) random drawn1
                sample 0 (ceil_log2 sampleSize) (le_n _)) as (H1 & H2 & _).
    assert (Hdeg : sampleSize = 0 \/ data = [] ->
                   (buildTree random drawn1 sample 0 (ceil_log2 sampleSize)).1
                   = Leaf 0).
    { intros Hdeg.
      assert (Hzero : length sample = 0).
      { destruct Hdeg as [-> | ->]; cbn in Hsample; lia. }
      unfold buildTree. rewrite buildTree_rec_leaf; rewrite Hzero; reflexivity. }
    fold (buildTree random drawn1 sample 0 (ceil_log2 sampleSize)) in H1, H2.
    destruct (buildTree random drawn1 sample 0 (ceil_log2 sampleSize))
      as [t drawn2].
    cbn [fst] in H1, H2, Hdeg.
    destruct (IH drawn2 (trees ++ [t])) as (new & Hnew & Hlen & Hall).
    exists (t :: new). rewrite Hnew, <- app_assoc. cbn [app length].
    split; [reflexivity|]. split; [lia|].
    apply List.Forall_cons; [|exact Hall].
    split; [lia|]. split; [|exact Hdeg].
    intros d Hd. specialize (H2 d Hd). lia.
Qed.

(** X12. [fit] replaces whatever trees the forest had by [numTrees] new
    ones and marks it trained, keeping its parameters. Each tree is built
    from a bootstrap sample of [min(sampleSize, data.length)] points, all of
    which it holds in its leaves, and is at most [ceil(log2(sampleSize))]
    deep; with a sample size of 0 or no data every tree is a leaf of size
    0. The result is the forest that the abstract [fit] describes for some
    way of growing the trees. *)
Theorem fit_random_grows_the_forest (random : random_source) (drawn : nat)
    (f : forest) (data : list (list num)) :
  trained (fit_random random drawn f data).1 = true
  /\ numTrees (fit_random random drawn f data).1 = numTrees f
  /\ sampleSize (fit_random random drawn f data).1 = sampleSize f
  /\ contamination (fit_random random drawn f data).1 = contamination f
  /\ length (trees (fit_random random drawn f data).1) = numTrees f
  /\ Forall (fun t =>
               leaf_total t = Nat.min (sampleSize f) (length data)
               /\ (forall d, ceil_log2 (sampleSize f) = Some d -> height t <= d)
               /\ (sampleSize f = 0 \/ data = [] -> t = Leaf 0))
            (trees (fit_random random drawn f data).1)
  /\ (exists grow, (fit_random random drawn f data).1 = fit grow f data)
  /\ (fit_random random drawn f data).1
     = (fit_random random drawn
          (Forest (numTrees f) (sampleSize f) (contamination f) [] false)
          data).1.
Proof.
  unfold fit_random. cbn [numTrees sampleSize contamination].
  destruct (grow_trees_spec random (sampleSize f) data (numTrees f) drawn [])
    as (new & Hnew & Hlen & Hall).
  destruct (grow_trees random drawn (sampleSize f) data (numTrees f) [])
    as [grown drawn'].
  cbn [fst app] in Hnew. subst grown.
  cbn [fst trained numTrees sampleSize contamination trees].
  repeat (split; [first [reflexivity | exact Hlen | exact Hall]|]).
  split; [|reflexivity].
  exists (fun i _ => default (Leaf 0) (new !! i)).
  unfold fit. f_equal.
  rewrite <- Hlen. clear.
  induction new as [|t new IH] using rev_ind; [reflexivity|].
  rewrite length_app. cbn [length]. rewrite Nat.add_1_r, seq_S, map_app.
  cbn [map Nat.add]. rewrite lookup_app_r, Nat.sub_diag by lia.
  cbn. f_equal. rewrite IH at 1.
  apply map_ext_in. intros i Hi. apply in_seq in Hi.
  rewrite lookup_app_l by lia. reflexivity.
Qed.

Lemma predict_each_spec (f : forest) (pts : list point) :
  exists scores,
    predict_each f pts = Ok scores
    /\ Forall2 (fun pt s => predict f pt = Ok s) pts scores.
Proof.
  induction pts as [|pt pts (scores & Hscores & Hall)].
  - exists []. split; [reflexivity | constructor].
  - destruct (InferenceFacts.forest_predict_total f pt) as [s Hs].
    exists (s :: scores). cbn [predict_each]. rewrite Hs, Hscores.
    split; [reflexivity | constructor; assumption].
Qed.

(** X13. [predictBatch] never raises: an argument that is not an array
    gives the empty array, and an array gives one score per point, each the
    one that [predict] returns for the point (0 for every point, a [null]
    among them too, while the forest is untrained or has no tree). *)
Theorem predictBatch_scores_every_point (f : forest)
    (data : option (list point)) :
  exists scores,
    predictBatch f data = Ok scores
    /\ Forall2 (fun pt s => predict f pt = Ok s) (default [] data) scores
    /\ length scores = length (default [] data)
    /\ (trained f = false \/ trees f = [] ->
        scores = replicate (length (default [] data)) (Fin 0)).
Proof.
  destruct data as [pts|]; cbn [predictBatch default].
  2:{ exists []. repeat split; constructor. }
  destruct (predict_each_spec f pts) as (scores & Hscores & Hall).
  exists scores. split; [exact Hscores|]. split; [exact Hall|].
  split; [symmetry; apply (Forall2_length _ _ _ Hall)|].
  intros Hun.
  assert (Hzero : forall pt, predict f pt = Ok (Fin 0)).
  { intros pt. unfold predict. destruct Hun as [-> | ->]; [reflexivity|].
    cbn. rewrite orb_true_r. reflexivity. }
  clear Hscores. induction Hall as [|pt s pts scores Hs _ IH]; [reflexivity|].
  cbn. rewrite Hzero in Hs. injection Hs as <-. rewrite IH. reflexivity.
Qed.

End ForestGrowthFacts.

(** ** Data preprocessor: windows, missing values, trend and scaling *)

Module SeriesFacts.
Import JsNum DataPreprocessor JsNumFacts.

Lemma slice_length {A : Type} (from to : nat) (arr : list A) :
  to <= length arr -> length (slice from to arr) = to - from.
Proof.
  intros Hto. unfold slice. rewrite length_take, length_drop. lia.
Qed.

(** The number of windows of a series of [len] elements. *)
Lemma windows_from_closed {A : Type} (data : list A) (windowSize stride : nat) :
  0 < stride ->
  forall fuel i,
    (if i + windowSize <=? length data
     then (length data - windowSize - i) / stride + 1 else 0) <= fuel ->
    windows_from fuel data windowSize stride i
    = map (fun k => slice (i + k * stride) (i + k * stride + windowSize) data)
          (seq 0 (if i + windowSize <=? length data
                  then (length data - windowSize - i) / stride + 1 else 0)).
Proof.
  intros Hstride. induction fuel as [|fuel IH]; intros i Hfuel.
  - destruct (i + windowSize <=? length data); [lia | reflexivity].
  - cbn [windows_from].
    destruct (i + windowSize <=? length data) eqn:Hfit; [|reflexivity].
    apply Nat.leb_le in Hfit.
    rewrite Nat.add_1_r. cbn [seq map].
    rewrite Nat.mul_0_l, Nat.add_0_r. f_equal.
    rewrite <- seq_shift, map_map.
    assert (Hcount :
      (length data - windowSize - i) / stride
      = if i + stride + windowSize <=? length data
        then (length data - windowSize - (i + stride)) / stride + 1 else 0).
    { destruct (i + stride + windowSize <=? length data) eqn:Hnext.
      - apply Nat.leb_le in Hnext.
        replace (length data - windowSize - i)
          with (length data - windowSize - (i + stride) + 1 * stride) by lia.
        rewrite Nat.div_add by lia. reflexivity.
      - apply Nat.leb_gt in Hnext. apply Nat.div_small. lia. }
    rewrite Hcount, IH by (rewrite <- Hcount; lia).
    apply map_ext. intros k. f_equal; lia.
Qed.

(** X14. [createWindows] with a positive stride returns the windows that
    start at the multiples of the stride and fit into the series: there are
    [floor((length - windowSize) / stride) + 1] of them, none when the
    series is shorter than a window, and each has exactly [windowSize]
    elements. With a stride of 0 the call returns (an empty array) only
    when the series is shorter than a window. *)
Theorem createWindows_tiles_the_series {A : Type} (data : list A)
    (windowSize stride : nat) :
  (0 < stride ->
   exists windows,
     createWindows data windowSize stride = Some windows
     /\ windows
        = map (fun k => slice (k * stride) (k * stride + windowSize) data)
              (seq 0 (if windowSize <=? length data
                      then (length data - windowSize) / stride + 1 else 0))
     /\ Forall (fun w => length w = windowSize) windows
     /\ (length data < windowSize -> windows = []))
  /\ (stride = 0 ->
      createWindows data windowSize stride
      = if windowSize <=? length data then None else Some []).
Proof.
  split.
  - intros Hstride. unfold createWindows.
    replace (stride =? 0) with false by (symmetry; apply Nat.eqb_neq; lia).
    cbn [andb]. eexists. split; [reflexivity|].
    pose proof (windows_from_closed data windowSize stride Hstride
                  (S (length data)) 0) as Hclosed.
    cbn [Nat.add] in Hclosed. rewrite Nat.sub_0_r in Hclosed.
    rewrite Hclosed.
    2:{ destruct (windowSize <=? length data); [|lia].
        pose proof (Nat.Div0.div_le_upper_bound (length data - windowSize) stride
                      (length data)) as Hdiv.
        assert ((length data - windowSize) / stride <= length data); [|lia].
        apply Nat.Div0.div_le_upper_bound. nia. }
    split; [reflexivity|]. split.
    + apply Forall_forall. intros w Hw.
      apply list_elem_of_fmap in Hw as (k & -> & Hk).
      apply elem_of_seq in Hk.
      destruct (windowSize <=? length data) eqn:Hfit; [|lia].
      apply Nat.leb_le in Hfit.
      rewrite slice_length; [lia|].
      assert (k * stride <= length data - windowSize); [|lia].
      assert (k <= (length data - windowSize) / stride) by lia.
      pose proof (Nat.Div0.mul_div_le (length data - windowSize) stride).
      nia.
    + intros Hshort.
      replace (windowSize <=? length data) with false
        by (symmetry; apply Nat.leb_gt; lia).
      reflexivity.
  - intros ->. unfold createWindows. cbn [Nat.eqb andb].
    destruct (windowSize <=? length data) eqn:Hfit; [reflexivity|].
    cbn [windows_from]. apply Nat.leb_gt in Hfit.
    replace (0 + windowSize <=? length data) with false
      by (symmetry; apply Nat.leb_gt; lia).
    reflexivity.
Qed.

Lemma kept_present (data : list (option num)) (v : num) :
  v ∈ kept data -> present (Some v) = true /\ Some v ∈ data.
Proof.
  unfold kept. rewrite list_elem_of_omap. intros (val & Hin & Hval).
  destruct (present val) eqn:Hp; [|discriminate]. subst val. auto.
Qed.

Lemma kept_nil (data : list (option num)) :
  kept data = [] <-> Forall (fun val => present val = false) data.
Proof.
  unfold kept. induction data as [|val data IH]; [split; auto|].
  rewrite Forall_cons, <- IH.
  destruct val as [[r| | |]|]; cbn; split; try discriminate; try tauto;
    intros [? ?]; discriminate.
Qed.

Lemma sum_with_fin (values : list num) :
  Forall (fun v => exists r, v = Fin r) values ->
  forall s, exists total,
    foldl (fun sum val => add sum val) (Fin s) values = Fin total.
Proof.
  induction 1 as [|v values [r ->] _ IH]; intros s; [eauto|].
  cbn. apply IH.
Qed.

Lemma fill_value_present (data : list (option num)) (strategy : string) :
  kept data <> [] ->
  strategy <> "mean"
  \/ Forall (fun val => present val = true -> exists r, val = Some (Fin r)) data ->
  present
    (if String.eqb strategy "mean"
     then Some (div (sum_with (fun val => val) (kept data))
                    (of_nat (length (kept data))))
     else if String.eqb strategy "median"
     then merge_sort sorts_before (kept data) !! (length (kept data) / 2)
     else Some (Fin 0)) = true.
Proof.
  intros Hsome Hfin.
  assert (Hlen : 0 < length (kept data)).
  { destruct (kept data); [congruence | cbn; lia]. }
  destruct (String.eqb strategy "mean") eqn:Hmean.
  - apply String.eqb_eq in Hmean.
    destruct Hfin as [Hne | Hfin]; [contradiction|].
    destruct (sum_with_fin (kept data)) with (s := 0%R) as [total Htotal].
    { apply Forall_forall. intros v Hv.
      apply kept_present in Hv as [Hp Hin].
      rewrite Forall_forall in Hfin.
      destruct (Hfin _ Hin Hp) as [r [= ->]]. eauto. }
    unfold sum_with. rewrite Htotal. unfold of_nat.
    rewrite div_fin; [reflexivity|].
    apply not_0_INR. lia.
  - destruct (String.eqb strategy "median"); [|reflexivity].
    pose proof (merge_sort_Permutation sorts_before (kept data)) as Hperm.
    destruct (lookup_lt_is_Some_2 (merge_sort sorts_before (kept data))
                (length (kept data) / 2)) as [v Hv].
    { rewrite (Permutation_length Hperm).
      apply Nat.Div0.div_lt_upper_bound. lia. }
    rewrite Hv.
    apply list_elem_of_lookup_2 in Hv. rewrite Hperm in Hv.
    apply kept_present in Hv. apply Hv.
Qed.

(** X15. [fillMissing] keeps the length of the series and every reading
    that is present (not [null], [undefined] or NaN). When no reading is
    present the series is returned as it is, gaps included, whatever the
    strategy. Otherwise every gap is filled, and with the strategies median
    and zero, or with the mean of finite readings, the result has no gap
    left. *)
Theorem fillMissing_fills_the_gaps (data : list (option num))
    (strategy : string) :
  length (fillMissing data strategy) = length data
  /\ (forall i val,
        data !! i = Some val -> present val = true ->
        fillMissing data strategy !! i = Some val)
  /\ (Forall (fun val => present val = false) data ->
      fillMissing data strategy = data)
  /\ (Exists (fun val => present val = true) data ->
      strategy <> "mean"
      \/ Forall (fun val => present val = true -> exists r, val = Some (Fin r))
                data ->
      Forall (fun val => present val = true) (fillMissing data strategy)).
Proof.
  unfold fillMissing. fold (kept data).
  destruct (length (kept data) =? 0) eqn:Hlen.
  - apply Nat.eqb_eq, length_zero_iff_nil in Hlen.
    split; [reflexivity|]. split; [auto|]. split; [auto|].
    intros Hex. apply kept_nil in Hlen.
    apply Exists_exists in Hex as (val & Hin & Hp).
    rewrite Forall_forall in Hlen. rewrite (Hlen _ Hin) in Hp. discriminate.
  - apply Nat.eqb_neq in Hlen.
    assert (Hsome : kept data <> []).
    { intros Hnil. rewrite Hnil in Hlen. contradiction Hlen. reflexivity. }
    split; [apply length_map|]. split.
    { intros i val Hi Hp. rewrite list_lookup_fmap, Hi. cbn. rewrite Hp.
      reflexivity. }
    split.
    { intros Hall. apply kept_nil in Hall. contradiction. }
    intros _ Hfin. apply Forall_forall. intros val Hval.
    apply list_elem_of_fmap in Hval as (val0 & -> & _).
    destruct (present val0) eqn:Hp; [exact Hp|].
    apply fill_value_present; assumption.
Qed.

Local Open Scope R_scope.


Lemma foldl_map {A B C : Type} (g : A -> C -> A) (h : B -> C) (l : list B) :
  forall s, foldl g s (map h l) = foldl (fun a x => g a (h x)) s l.
Proof. induction l as [|x l IH]; intros s; cbn; [reflexivity | apply IH]. Qed.






(** X17. [normalize] maps a non-empty series of finite readings whose
    spread [max - min] is within the range of binary64 into the unit
    interval: every result is a number between 0 and 1, the smallest
    reading goes to 0 and, unless the series is constant, the largest one
    goes to 1; a constant series goes to zeros. *)
Theorem normalize_maps_into_unit_interval
    (data : data_arg) (values : list R) (featureName : string)
    (this : preprocessor) :
  as_values data = map Fin values ->
  values <> [] ->
  (forall v w, In v values -> In w values -> v - w < overflow_bound) ->
  exists lo hi,
    Forall (fun v => lo <= v <= hi) values /\ In lo values /\ In hi values
    /\ (normalize data featureName this).1
       = map (fun v => Fin ((v - lo) / (if Req_dec_T hi lo then 1 else hi - lo)))
             values
    /\ Forall (fun x => exists r, x = Fin r /\ 0 <= r <= 1)
              (normalize data featureName this).1
    /\ Fin 0 ∈ (normalize data featureName this).1
    /\ (lo <> hi -> Fin 1 ∈ (normalize data featureName this).1)
    /\ (lo = hi ->
        (normalize data featureName this).1 = map (fun _ => Fin 0) values).
Proof.
  intros Hdata Hne Hspread.
  destruct (DataPreprocessorFacts.min_of_fin values Hne)
    as (lo & Hmin & Hlo & Hinlo).
  destruct (DataPreprocessorFacts.max_of_fin values Hne)
    as (hi & Hmax & Hhi & Hinhi).
  assert (Hle : lo <= hi).
  { rewrite Forall_forall in Hlo. apply Hlo. apply list_elem_of_In. exact Hinhi. }
  specialize (Hspread hi lo Hinhi Hinlo).
  exists lo, hi.
  assert (Hboth : Forall (fun v => lo <= v <= hi) values).
  { rewrite Forall_forall in *. intros v Hv. split; auto. }
  assert (Hout : (normalize data featureName this).1
                 = map (fun v => Fin ((v - lo)
                                      / (if Req_dec_T hi lo then 1 else hi - lo)))
                       values).
  { unfold normalize. cbn [fst].
    rewrite Hdata, Hmin, Hmax,
      (DataPreprocessorFacts.range64_value lo hi Hle Hspread).
    rewrite map_map. apply map_ext_in. intros v Hv.
    rewrite Forall_forall in Hboth.
    specialize (Hboth v (proj2 (list_elem_of_In _ _) Hv)).
    apply (DataPreprocessorFacts.normalized_value lo hi v Hboth Hspread). }
  split; [exact Hboth|]. split; [exact Hinlo|]. split; [exact Hinhi|].
  split; [exact Hout|]. rewrite Hout.
  split; [|split; [|split]].
  - apply Forall_forall. intros x Hx.
    apply list_elem_of_fmap in Hx as (v & -> & Hv).
    rewrite Forall_forall in Hboth. specialize (Hboth v Hv).
    eexists. split; [reflexivity|].
    apply (DataPreprocessorFacts.normalized_value lo hi v Hboth Hspread).
  - apply list_elem_of_fmap. exists lo. split.
    + f_equal. unfold Rdiv. ring.
    + apply list_elem_of_In. exact Hinlo.
  - intros Hneq. apply list_elem_of_fmap. exists hi. split.
    + destruct (Req_dec_T hi lo); [lra|]. f_equal. field. lra.
    + apply list_elem_of_In. exact Hinhi.
  - intros Heq. apply map_ext_in. intros v Hv.
    rewrite Forall_forall in Hboth.
    specialize (Hboth v (proj2 (list_elem_of_In _ _) Hv)).
    assert (v = lo) by lra. subst v. f_equal. unfold Rdiv. ring.
Qed.

Lemma normalize_maps_into_unit_interval_example :
  as_values (Many [Fin 10; Fin 30; Fin 20]) = map Fin [10; 30; 20]
  /\ [10; 30; 20] <> []
  /\ Forall (fun x => exists r, x = Fin r /\ 0 <= r <= 1)
            (normalize (Many [Fin 10; Fin 30; Fin 20]) "cpu" create).1.
Proof.
  split; [reflexivity|]. split; [discriminate|].
  pose proof overflow_bound_thousands as Hbig.
  assert (H20 : 2 ^ 20 = 1048576) by (simpl; lra).
  assert (Hspread : forall v w, In v [10; 30; 20] -> In w [10; 30; 20] ->
                                v - w < overflow_bound).
  { intros v w Hv Hw. cbn in Hv, Hw.
    destruct Hv as [<- | [<- | [<- | []]]];
      destruct Hw as [<- | [<- | [<- | []]]]; lra. }
  destruct (normalize_maps_into_unit_interval
              (Many [Fin 10; Fin 30; Fin 20]) [10; 30; 20] "cpu" create
              eq_refl ltac:(discriminate) Hspread)
    as (lo & hi & _ & _ & _ & _ & Hunit & _).
  exact Hunit.
Defined.

(** X18. The scalers of a feature are shared by [normalize] and
    [standardize], and the last call wins. After [standardize],
    [denormalize] of the feature does not raise but finds no [range] and no
    [min] in the scaler and returns NaN for every element; after
    [normalize], it uses the minimum and range of that call, whatever was
    recorded before. *)
Theorem last_scaling_call_wins (data normalized : data_arg)
    (featureName : string) (this other : preprocessor) :
  denormalize normalized featureName (standardize data featureName this).2
  = Ok (map (fun _ => NaN) (as_values normalized))
  /\ denormalize normalized featureName (normalize data featureName this).2
     = denormalize normalized featureName (normalize data featureName other).2
  /\ denormalize normalized featureName
       (normalize data featureName
          (standardize data featureName this).2).2
     = denormalize normalized featureName (normalize data featureName this).2.
Proof.
  unfold denormalize, standardize, normalize. cbn [snd scalers].
  rewrite !lookup_insert_eq. cbn [scaler_range scaler_min].
  repeat split; reflexivity.
Qed.








(** Out of range the scalings and the trend go to the infinities and NaN as
    in the source: the constant series of three readings [2 ^ 1023] has
    trend NaN, and the series [2 ^ 600; - 2 ^ 600] is standardized with
    deviation [Infinity] to zeros. *)
Lemma out_of_range_examples :
  calculateTrend [Fin (2 ^ 1023); Fin (2 ^ 1023); Fin (2 ^ 1023)] = NaN
  /\ (standardize (Many [Fin (2 ^ 600); Fin (- 2 ^ 600)]) "cpu" create).1
     = [Fin 0; Fin 0]
  /\ scalers (standardize (Many [Fin (2 ^ 600); Fin (- 2 ^ 600)]) "cpu" create).2
       !! "cpu" = Some (Standard (Fin 0) PInf).
Proof.
  pose proof overflow_bound_large as Hlarge.
  pose proof overflow_bound_below as Hbelow.
  pose proof overflow_bound_thousands as Hbig.
  assert (H20 : 2 ^ 20 = 1048576) by (simpl; lra).
  assert (Hpos : 0 < 2 ^ 1023) by (apply pow_lt; lra).
  assert (Hdouble : 2 ^ 1024 = 2 * 2 ^ 1023) by reflexivity.
  split.
  - unfold calculateTrend. cbn [length Nat.ltb Nat.leb].
    unfold sum_with64, of_nat. cbn [foldl INR].
    rewrite (sub64_fin (1 + 1 + 1) 1) by (rewrite Rabs_pos_eq; lra).
    rewrite (div64_fin (1 + 1 + 1 - 1) 2) by (try rewrite Rabs_pos_eq; lra).
    rewrite (add64_fin 0 (2 ^ 1023)) by (rewrite Rabs_pos_eq; lra).
    assert (Hinf : add64 (Fin (0 + 2 ^ 1023)) (Fin (2 ^ 1023)) = PInf).
    { unfold add64. cbn [add ranged]. apply in_range_high. lra. }
    rewrite Hinf. cbn [add64 add ranged].
    assert (Hmean : div64 PInf (Fin (1 + 1 + 1)) = PInf).
    { unfold div64. cbn [div]. rewrite sign_pos by lra. reflexivity. }
    rewrite Hmean. cbn [trend_sums]. unfold of_nat. cbn [INR].
    rewrite (sub64_fin 0 ((1 + 1 + 1 - 1) / 2)) by (rewrite Rabs_left; lra).
    rewrite (sub64_fin 1 ((1 + 1 + 1 - 1) / 2))
      by (replace (1 - (1 + 1 + 1 - 1) / 2) with 0 by lra; rewrite Rabs_R0; lra).
    rewrite (sub64_fin (1 + 1) ((1 + 1 + 1 - 1) / 2))
      by (rewrite Rabs_pos_eq; lra).
    assert (Hsub : forall r, sub64 (Fin r) PInf = NInf) by reflexivity.
    rewrite !Hsub.
    assert (H1 : mul64 (Fin (0 - (1 + 1 + 1 - 1) / 2)) NInf = PInf).
    { unfold mul64. cbn [mul]. rewrite sign_neg by lra. reflexivity. }
    assert (H2 : mul64 (Fin (1 - (1 + 1 + 1 - 1) / 2)) NInf = NaN).
    { unfold mul64. cbn [mul]. rewrite sign_zero by lra. reflexivity. }
    rewrite H1, H2.
    rewrite !mul64_fin by (try rewrite Rabs_pos_eq; nra).
    rewrite !add64_fin by (try rewrite Rabs_pos_eq; nra).
    assert (Hnan : forall y, add64 (add64 (add64 (Fin 0) PInf) NaN) y = NaN)
      by reflexivity.
    rewrite Hnan.
    unfold is_zero. rewrite sign_pos by nra. reflexivity.
  - assert (H600 : 0 < 2 ^ 600) by (apply pow_lt; lra).
    assert (H600' : 2 ^ 600 < 2 ^ 1023) by (apply Rlt_pow; [lra | lia]).
    assert (Hsq : overflow_bound <= 2 ^ 600 * 2 ^ 600).
    { rewrite <- pow_add.
      assert (2 ^ 1024 <= 2 ^ (600 + 600)) by (apply Rle_pow; [lra | lia]).
      lra. }
    assert (Hsum : sum_with64 (fun val => val) [Fin (2 ^ 600); Fin (- 2 ^ 600)]
                   = Fin 0).
    { unfold sum_with64. cbn [foldl].
      rewrite (add64_fin 0 (2 ^ 600)) by (rewrite Rabs_pos_eq; lra).
      rewrite add64_fin.
      - f_equal. lra.
      - replace (0 + 2 ^ 600 + - 2 ^ 600) with 0 by lra. rewrite Rabs_R0. lra. }
    assert (Hmean : div64 (Fin 0) (of_nat 2) = Fin 0).
    { unfold of_nat. cbn [INR]. rewrite div64_fin.
      - f_equal. lra.
      - lra.
      - replace (0 / (1 + 1)) with 0 by lra. rewrite Rabs_R0. lra. }
    assert (Hsquares :
      sum_with64 (fun val => mul64 (sub64 val (Fin 0)) (sub64 val (Fin 0)))
                 [Fin (2 ^ 600); Fin (- 2 ^ 600)] = PInf).
    { unfold sum_with64. cbn [foldl].
      rewrite (sub64_fin (2 ^ 600) 0) by (rewrite Rabs_pos_eq; lra).
      rewrite (sub64_fin (- 2 ^ 600) 0) by (rewrite Rabs_left; lra).
      assert (Hone : mul64 (Fin (2 ^ 600 - 0)) (Fin (2 ^ 600 - 0)) = PInf).
      { unfold mul64. cbn [mul ranged]. apply in_range_high. nra. }
      assert (Htwo : mul64 (Fin (- 2 ^ 600 - 0)) (Fin (- 2 ^ 600 - 0)) = PInf).
      { unfold mul64. cbn [mul ranged]. apply in_range_high. nra. }
      rewrite Hone, Htwo. reflexivity. }
    assert (Hstd : or_else (sqrt (div64 PInf (of_nat 2))) (Fin 1) = PInf).
    { unfold of_nat, div64. cbn [INR div]. rewrite sign_pos by lra. reflexivity. }
    unfold standardize. cbn [fst snd scalers as_values length].
    rewrite lookup_insert_eq, Hsum, Hmean, Hsquares, Hstd.
    split; [|reflexivity].
    cbn [map].
    rewrite (sub64_fin (2 ^ 600) 0) by (rewrite Rabs_pos_eq; lra).
    rewrite (sub64_fin (- 2 ^ 600) 0) by (rewrite Rabs_left; lra).
    unfold div64. cbn [div ranged]. rewrite in_range_fin by lra. reflexivity.
Qed.

End SeriesFacts.

(** ** Sequence predictor: training sequences and multi-step forecasts *)

Module ForecastFacts.
Import LSTMPredictor.

Lemma sequences_from_closed {A : Type} (data : list A) (lookback : nat)
    (remaining : nat) :
  forall i X y,
    sequences_from data lookback remaining i X y
    = (X ++ map (fun j => slice j (j + lookback) data) (seq i remaining),
       y ++ map (fun j => data !! (j + lookback)) (seq i remaining)).
Proof.
  induction remaining as [|remaining IH]; intros i X y.
  - cbn. rewrite !app_nil_r. reflexivity.
  - cbn [sequences_from seq map]. rewrite IH, <- !app_assoc. reflexivity.
Qed.

(** X20. [prepareSequences] pairs every window of [lookback] consecutive
    readings with the reading that follows it: there are
    [data.length - lookback] pairs (none when the series is not longer than
    the window), every window has [lookback] elements, every target is an
    element of the series (never [undefined]), and a window followed by its
    target is a stretch of the series. *)
Theorem prepareSequences_pairs_windows_with_successors {A : Type}
    (data : list A) (lookback : nat) :
  (prepareSequences data lookback).1
  = map (fun i => slice i (i + lookback) data)
        (seq 0 (length data - lookback))
  /\ (prepareSequences data lookback).2
     = map (fun i => data !! (i + lookback)) (seq 0 (length data - lookback))
  /\ length (prepareSequences data lookback).1 = length data - lookback
  /\ length (prepareSequences data lookback).2 = length data - lookback
  /\ Forall (fun w => length w = lookback) (prepareSequences data lookback).1
  /\ Forall is_Some (prepareSequences data lookback).2
  /\ (forall i w t,
        (prepareSequences data lookback).1 !! i = Some w ->
        (prepareSequences data lookback).2 !! i = Some (Some t) ->
        slice i (i + lookback + 1) data = w ++ [t]).
Proof.
  unfold prepareSequences. rewrite sequences_from_closed. cbn [fst snd app].
  split; [reflexivity|]. split; [reflexivity|].
  split; [rewrite length_map, length_seq; reflexivity|].
  split; [rewrite length_map, length_seq; reflexivity|].
  split; [|split].
  - apply Forall_forall. intros w Hw.
    apply list_elem_of_fmap in Hw as (i & -> & Hi). apply elem_of_seq in Hi.
    unfold slice. rewrite length_take, length_drop. lia.
  - apply Forall_forall. intros t Ht.
    apply list_elem_of_fmap in Ht as (i & -> & Hi). apply elem_of_seq in Hi.
    apply lookup_lt_is_Some_2. lia.
  - intros i w t Hw Ht.
    rewrite list_lookup_fmap in Hw.
    rewrite (list_lookup_fmap (fun j => data !! (j + lookback))) in Ht.
    destruct (seq 0 (length data - lookback) !! i) as [j|] eqn:Hj;
      [|discriminate].
    apply lookup_seq in Hj as [-> Hlt]. cbn in Hw, Ht.
    injection Hw as <-. injection Ht as Ht.
    unfold slice.
    replace (i + lookback + 1 - i) with (S lookback) by lia.
    replace (i + lookback - i) with lookback by lia.
    rewrite (take_S_r _ _ t); [reflexivity|].
    rewrite lookup_drop. exact Ht.
Qed.

Lemma predict_unusable (this : predictor) (sequence : option (list Q)) :
  unusable this = true -> predict this sequence = Ok (last_known sequence).
Proof.
  unfold unusable, predict.
  destruct (trained this), (model this), (normParams this); cbn;
    try discriminate; reflexivity.
Qed.

Lemma last_slice_last {A : Type} (n : nat) (l : list A) :
  last (slice_last n l) = last l.
Proof.
  unfold slice_last. destruct (n =? 0) eqn:Hn; [reflexivity|].
  apply Nat.eqb_neq in Hn.
  destruct l as [|x l] using rev_ind; [reflexivity|].
  rewrite length_app. cbn [length].
  rewrite drop_app_le by lia. rewrite !last_snoc. reflexivity.
Qed.

Lemma last_known_replicate (values : list Q) (k : nat) :
  last_known (Some (values ++ replicate k (last_known (Some values))))
  = last_known (Some values).
Proof.
  destruct k as [|k]; [rewrite app_nil_r; reflexivity|].
  rewrite replicate_S_end, app_assoc. cbn [last_known].
  rewrite last_snoc. reflexivity.
Qed.

Lemma multi_step_loop_extends (this : predictor) (remaining : nat) :
  forall predictions currentSequence,
    exists new v,
      multi_step_loop this remaining predictions currentSequence
      = Ok (predictions ++ new)
      /\ length new = remaining
      /\ predict this
           (Some (slice_last (inputShape this) (currentSequence ++ new)))
         = Ok v
      /\ multi_step_loop this (S remaining) predictions currentSequence
         = Ok (predictions ++ new ++ [v]).
Proof.
  induction remaining as [|remaining IH]; intros predictions currentSequence.
  - destruct (InferenceFacts.lstm_predict_total this
                (Some (slice_last (inputShape this) currentSequence)))
      as [v Hv].
    exists [], v. rewrite !app_nil_r. cbn [multi_step_loop].
    rewrite Hv. cbn. auto.
  - destruct (InferenceFacts.lstm_predict_total this
                (Some (slice_last (inputShape this) currentSequence)))
      as [v0 Hv0].
    destruct (IH (predictions ++ [v0]) (currentSequence ++ [v0]))
      as (new & v & Hloop & Hlen & Hv & Hnext).
    exists (v0 :: new), v.
    change (multi_step_loop this (S (S remaining)) predictions currentSequence)
      with (nextValue ← predict this
                          (Some (slice_last (inputShape this) currentSequence));
            multi_step_loop this (S remaining) (predictions ++ [nextValue])
                            (currentSequence ++ [nextValue])).
    change (multi_step_loop this (S remaining) predictions currentSequence)
      with (nextValue ← predict this
                          (Some (slice_last (inputShape this) currentSequence));
            multi_step_loop this remaining (predictions ++ [nextValue])
                            (currentSequence ++ [nextValue])).
    rewrite Hv0. cbn [mbind result_bind rbind].
    rewrite Hloop, Hnext, <- !app_assoc. cbn [app length].
    rewrite <- app_assoc in Hv. cbn [app] in Hv.
    split; [reflexivity|]. split; [lia|]. split; [exact Hv | reflexivity].
Qed.

(** X21. A multi-step forecast is rolled out one step at a time: the
    forecast for [steps + 1] steps is the forecast for [steps] steps
    followed by the one-step prediction on the last [inputShape] elements
    of the sequence extended by those forecasts. This holds for a usable
    and for an unusable predictor alike (the latter repeats the last known
    value), and no step raises. *)
Theorem predictMultiStep_rolls_forward (this : predictor) (values : list Q)
    (steps : nat) :
  exists forecast v,
    predictMultiStep this (Some values) steps = Ok forecast
    /\ length forecast = steps
    /\ predict this
         (Some (slice_last (inputShape this) (values ++ forecast))) = Ok v
    /\ predictMultiStep this (Some values) (S steps) = Ok (forecast ++ [v])
    /\ (unusable this = true ->
        forecast = replicate steps (last_known (Some values))).
Proof.
  unfold predictMultiStep. destruct (unusable this) eqn:Hun.
  - exists (replicate steps (last_known (Some values))),
      (last_known (Some values)).
    split; [reflexivity|]. split; [apply length_replicate|].
    split; [|split; [rewrite replicate_S_end; reflexivity | reflexivity]].
    rewrite predict_unusable by exact Hun. f_equal.
    cbn [last_known]. rewrite last_slice_last.
    apply (last_known_replicate values steps).
  - destruct (multi_step_loop_extends this steps [] values)
      as (new & v & Hloop & Hlen & Hv & Hnext).
    exists new, v. cbn [app] in Hloop, Hnext.
    split; [exact Hloop|]. split; [exact Hlen|]. split; [exact Hv|].
    split; [exact Hnext | discriminate].
Qed.

(** X27. A predictor restored with [load] is marked as trained but has no
    scaling parameters (only [train] sets them), so it never consults the
    loaded network: [predict] returns the last value of its input (0 for an
    empty or missing one) and [predictMultiStep] repeats it. A [load] that
    fails raises. *)
Theorem loaded_predictor_repeats_last_value (inputShape hiddenUnits : nat)
    (net : network) (sequence : option (list Q)) (steps : nat) :
  exists restored,
    load (Ok net) (create inputShape hiddenUnits) = Ok restored
    /\ trained restored = true
    /\ model restored = Some net
    /\ unusable restored = true
    /\ predict restored sequence = Ok (last_known sequence)
    /\ predictMultiStep restored sequence steps
       = Ok (replicate steps (last_known sequence))
    /\ (forall e this, load (Throw e) this = Throw e).
Proof.
  eexists. split; [reflexivity|]. cbn.
  repeat split; reflexivity.
Qed.

Local Open Scope Q_scope.

(** [denormalize] with [min] equal to [max], on every number. *)
Lemma denormalize_num_constant (c : R) (value : JsNum.num) :
  (Rabs c < JsNum.overflow_bound)%R ->
  denormalize_num value (JsNum.Fin c) (JsNum.Fin c)
  = match value with JsNum.Fin _ => JsNum.Fin c | _ => JsNum.NaN end.
Proof.
  intros Hc. unfold denormalize_num.
  assert (Hzero : JsNum.sub64 (JsNum.Fin c) (JsNum.Fin c) = JsNum.Fin 0%R).
  { rewrite JsNumFacts.sub64_fin.
    - f_equal. lra.
    - replace (c - c)%R with 0%R by lra. rewrite Rabs_R0.
      pose proof (Rabs_pos c). lra. }
  rewrite Hzero.
  assert (Hsign : JsNum.sign 0 = Eq) by (apply JsNumFacts.sign_zero; reflexivity).
  destruct value as [r | | |]; cbn [JsNum.mul64 JsNum.mul JsNum.ranged];
    unfold JsNum.mul64, JsNum.mul; rewrite ?Hsign; cbn [JsNum.scale_inf JsNum.ranged];
    try reflexivity.
  replace (r * 0)%R with 0%R by lra.
  rewrite JsNumFacts.in_range_abs
    by (rewrite Rabs_R0; pose proof (Rabs_pos c); lra).
  rewrite JsNumFacts.add64_fin by (replace (0 + c)%R with c by lra; exact Hc).
  f_equal. lra.
Qed.

(** X22. A predictor whose scaling parameters have [min] equal to [max] (it
    was trained on a constant series) forecasts that constant whatever the
    input window is and whatever finite number the network answers:
    [denormalize] scales by [max - min], which is 0, without the fallback
    to 1 that the normalisation uses. When the network throws, the forecast
    is the last value of the window instead. An answer [value[0]] that is
    NaN or an infinity is not pinned: [denormalize] turns it into NaN. *)
Theorem constant_training_pins_the_forecast (this : predictor)
    (net : network) (np : norm_params) (values : list Q) :
  trained this = true ->
  model this = Some net ->
  normParams this = Some np ->
  min np == max np ->
  exists v,
    predict this (Some values) = Ok v
    /\ (forall out,
          net (map (fun val => (val - min np) / 1) values) = Ok out ->
          v == min np)
    /\ (raises (net (map (fun val => (val - min np) / 1) values)) ->
        v = last_known (Some values))
    /\ ((Rabs (Q2R (min np)) < JsNum.overflow_bound)%R ->
        forall value : JsNum.num,
          denormalize_num value (JsNum.Fin (Q2R (min np)))
                          (JsNum.Fin (Q2R (max np)))
          = match value with
            | JsNum.Fin _ => JsNum.Fin (Q2R (min np))
            | _ => JsNum.NaN
            end).
Proof.
  intros Htr Hm Hnp Heq. unfold predict. rewrite Htr, Hm, Hnp.
  unfold infer.
  assert (Hrange : q_or_else (max np - min np) 1 = 1).
  { unfold q_or_else.
    replace (Qeq_bool (max np - min np) 0) with true; [reflexivity|].
    symmetry. apply Qeq_bool_iff. rewrite Heq. ring. }
  rewrite Hrange.
  assert (Hnum : (Rabs (Q2R (min np)) < JsNum.overflow_bound)%R ->
                 forall value : JsNum.num,
                   denormalize_num value (JsNum.Fin (Q2R (min np)))
                                   (JsNum.Fin (Q2R (max np)))
                   = match value with
                     | JsNum.Fin _ => JsNum.Fin (Q2R (min np))
                     | _ => JsNum.NaN
                     end).
  { intros Hc value. rewrite <- (Qeq_eqR _ _ Heq).
    apply denormalize_num_constant, Hc. }
  destruct (net (map (fun val => (val - min np) / 1) values)) as [out|err];
    cbn.
  - eexists. split; [reflexivity|]. split; [|split; [intros []|exact Hnum]].
    intros out' [= <-]. unfold denormalize. rewrite Heq. ring.
  - eexists. split; [reflexivity|].
    split; [discriminate | split; [reflexivity | exact Hnum]].
Qed.

Lemma constant_training_pins_the_forecast_example :
  trained (Predictor 10 50 (Some (fun _ => Ok (7 # 10)))
             (Some (NormParams 40 40)) true) = true
  /\ 40 == 40
  /\ (exists v,
        predict (Predictor 10 50 (Some (fun _ => Ok (7 # 10)))
                   (Some (NormParams 40 40)) true)
                (Some [10; 95; 60]) = Ok v
        /\ v == 40)
  /\ denormalize_num JsNum.PInf (JsNum.Fin (Q2R 40)) (JsNum.Fin (Q2R 40))
     = JsNum.NaN.
Proof.
  split; [reflexivity|]. split; [reflexivity|].
  destruct (constant_training_pins_the_forecast
              (Predictor 10 50 (Some (fun _ => Ok (7 # 10)))
                 (Some (NormParams 40 40)) true)
              (fun _ => Ok (7 # 10)) (NormParams 40 40) [10; 95; 60]
              eq_refl eq_refl eq_refl (Qeq_refl 40))
    as (v & Hv & Hpin & _ & Hnum).
  split.
  - exists v. split; [exact Hv|]. apply (Hpin (7 # 10)). reflexivity.
  - apply (Hnum ltac:(
      pose proof JsNumFacts.overflow_bound_thousands as Hbig;
      assert (H20 : (2 ^ 20 = 1048576)%R) by (simpl; lra);
      assert (H40 : Q2R 40 = 40%R) by (unfold Q2R; cbn; lra);
      cbn [min]; rewrite H40, Rabs_pos_eq; lra) JsNum.PInf).
Defined.

End ForecastFacts.

(** ** Process classifier: the answer of a trained classifier *)

Module ClassificationFacts.
Import ProcessClassifier.

Lemma class_probabilities_absent (proba : option (list Q)) (cls : list string)
    (c : string) :
  forall idx acc,
    c ∉ cls -> class_probabilities proba cls idx acc !! c = acc !! c.
Proof.
  induction cls as [|c0 cls IH]; intros idx acc Hnot; [reflexivity|].
  apply not_elem_of_cons in Hnot as [Hne Hnot].
  cbn [class_probabilities]. rewrite IH by exact Hnot.
  apply lookup_insert_ne. congruence.
Qed.

Lemma class_probabilities_present (proba : option (list Q)) (cls : list string)
    (c : string) :
  forall idx acc j,
    NoDup cls -> cls !! j = Some c ->
    class_probabilities proba cls idx acc !! c
    = Some (proba_at proba (Some (idx + j)%nat)).
Proof.
  induction cls as [|c0 cls IH]; intros idx acc j Hnd Hj; [discriminate|].
  apply NoDup_cons in Hnd as [Hnot Hnd]. cbn [class_probabilities].
  destruct j as [|j]; cbn in Hj.
  - injection Hj as ->. rewrite class_probabilities_absent by exact Hnot.
    rewrite lookup_insert_eq, Nat.add_0_r. reflexivity.
  - rewrite (IH (S idx) _ j Hnd Hj). do 3 f_equal. lia.
Qed.

Lemma class_probabilities_keys (proba : option (list Q)) (cls : list string)
    (c : string) :
  forall idx acc,
    is_Some (class_probabilities proba cls idx acc !! c)
    <-> c ∈ cls \/ is_Some (acc !! c).
Proof.
  induction cls as [|c0 cls IH]; intros idx acc.
  - cbn. rewrite elem_of_nil. tauto.
  - cbn [class_probabilities]. rewrite IH, elem_of_cons.
    destruct (decide (c = c0)) as [-> | Hne].
    + rewrite lookup_insert_eq. split; [auto|]. intros _. right. eauto.
    + rewrite lookup_insert_ne by congruence. tauto.
Qed.

(** X23. [predict] of the classifier never raises. A [null] process and a
    model that throws give the default answer (class unknown, confidence 0,
    no probabilities), and every class that is reported otherwise is one of
    the classifier's classes. *)
Theorem classifier_predict_never_raises (this : classifier)
    (proc : option process) :
  exists r,
    predict this proc = Ok r
    /\ (proc = None -> r = defaultResult)
    /\ (trained this = false \/ model this = None -> r = defaultResult)
    /\ (forall m, model this = Some m -> raises (classify this m proc) ->
                  r = defaultResult)
    /\ (forall c, class r = Some c -> c = "unknown" \/ c ∈ classes this).
Proof.
  unfold predict.
  destruct (trained this) eqn:Htr.
  2:{ exists defaultResult. repeat split; auto. intros c [= <-]. auto. }
  destruct (model this) as [m|] eqn:Hm.
  2:{ exists defaultResult. repeat split; auto. intros c [= <-]. auto. }
  destruct (classify this m proc) as [r|err] eqn:Hc; cbn [try_catch].
  - exists r. split; [reflexivity|]. split.
    { intros ->. discriminate. }
    split; [intros [? | ?]; discriminate|]. split.
    { intros m' [= <-]. rewrite Hc. intros []. }
    intros c Hclass. right.
    unfold classify in Hc.
    destruct (extractFeatures proc) as [features|]; [|discriminate].
    cbn in Hc.
    destruct (rf_predict m features) as [pred|]; [|discriminate].
    cbn in Hc.
    assert (Hname : pred ≫= (fun i => classes this !! i) = Some c).
    { destruct (rf_predictionProba m) as [pp|].
      - destruct (pp features) as [proba|]; [|discriminate].
        cbn in Hc. injection Hc as <-. exact Hclass.
      - injection Hc as <-. exact Hclass. }
    destruct pred as [i|]; [|discriminate]. cbn in Hname.
    apply (list_elem_of_lookup_2 _ i). exact Hname.
  - exists defaultResult. repeat split; auto. intros c [= <-]. auto.
Qed.

(** X24. When the model of a trained classifier answers a class index
    within the class list and a probability vector, the reported class is
    the class at that index, the reported confidence is the probability at
    that index (0 when the vector is shorter or missing), the probabilities
    object has exactly the classes as keys, each with the probability at
    its index, and the confidence is the probability listed for the
    reported class. *)
Theorem confidence_is_probability_of_reported_class (this : classifier)
    (m : rf_model) (p : process) (features : list Q) (i : nat) (c : string)
    (predictionProba : list Q -> result (option (list Q)))
    (proba : option (list Q)) :
  trained this = true ->
  model this = Some m ->
  NoDup (classes this) ->
  extractFeatures (Some p) = Ok features ->
  rf_predict m features = Ok (Some i) ->
  classes this !! i = Some c ->
  rf_predictionProba m = Some predictionProba ->
  predictionProba features = Ok proba ->
  exists r,
    predict this (Some p) = Ok r
    /\ class r = Some c
    /\ confidence r = proba_at proba (Some i)
    /\ probabilities r !! c = Some (confidence r)
    /\ (forall cls, is_Some (probabilities r !! cls) <-> cls ∈ classes this)
    /\ (forall j cls, classes this !! j = Some cls ->
                      probabilities r !! cls = Some (proba_at proba (Some j))).
Proof.
  intros Htr Hm Hnd Hfeat Hpred Hclass Hpp Hproba.
  unfold predict, classify. rewrite Htr, Hm, Hfeat. cbn.
  rewrite Hpred. cbn. rewrite Hpp, Hproba, Hclass. cbn.
  eexists. split; [reflexivity|]. cbn [class confidence probabilities].
  split; [reflexivity|]. split; [reflexivity|].
  split; [apply (class_probabilities_present proba _ c 0 ∅ i Hnd Hclass)|].
  split.
  - intros cls. rewrite class_probabilities_keys, lookup_empty.
    split; [intros [H | [x Hx]]; [exact H | discriminate] | auto].
  - intros j cls Hj.
    apply (class_probabilities_present proba _ cls 0 ∅ j Hnd Hj).
Qed.

Lemma confidence_is_probability_of_reported_class_example :
  NoDup (classes create)
  /\ exists r,
       predict
         (Classifier
            (Some (RfModel (fun _ => Ok (Some 1%nat))
                     (Some (fun _ => Ok (Some [1 # 10; 7 # 10; 2 # 10])))))
            (classes create) true)
         (Some (Process 50 200 4 0 0 0 0 0)) = Ok r
       /\ class r = Some "database"
       /\ probabilities r !! "database" = Some (confidence r).
Proof.
  assert (Hnd : NoDup (classes create)).
  { apply (bool_decide_unpack _). vm_compute. exact I. }
  split; [exact Hnd|].
  destruct (confidence_is_probability_of_reported_class
              (Classifier
                 (Some (RfModel (fun _ => Ok (Some 1%nat))
                          (Some (fun _ => Ok (Some [1 # 10; 7 # 10; 2 # 10])))))
                 (classes create) true)
              (RfModel (fun _ => Ok (Some 1%nat))
                 (Some (fun _ => Ok (Some [1 # 10; 7 # 10; 2 # 10]))))
              (Process 50 200 4 0 0 0 0 0)
              [50; 200; 4; 0; 0; 0; 0; 0]%Q 1 "database"
              (fun _ => Ok (Some [1 # 10; 7 # 10; 2 # 10]))
              (Some [1 # 10; 7 # 10; 2 # 10])
              eq_refl eq_refl Hnd eq_refl eq_refl eq_refl eq_refl eq_refl)
    as (r & Hr & Hc & _ & Hp & _).
  exists r. split; [exact Hr|]. split; [exact Hc | exact Hp].
Defined.

End ClassificationFacts.

(** ** Model trainer: the labels handed to the classifier *)

Module TrainingLabelFacts.
Import ModelTrainer.
Local Open Scope Q_scope.

Lemma label_of_cases (record : metrics_record) :
  label_of record
    ∈ ["web-server"; "database"; "cache"; "ml-training"; "system";
       "application"].
Proof.
  unfold label_of.
  repeat match goal with
         | |- context [if ?b then _ else _] => destruct b
         end;
    repeat constructor.
Qed.

(** X25. The heuristic labelling only produces labels that the classifier
    knows: every item of [createLabeledData] carries one of the six classes,
    so the label vector that [train] computes with [indexOf] holds indices
    from 0 to 5 and never -1. There is one item per record, with a thread
    count that is not 0 and priority 10. A name that contains nginx is a web
    server whatever else it contains, and a record is labelled as ML
    training only with a cpu reading above 50. *)
Theorem training_labels_are_class_indices (random : nat -> Q)
    (data : list metrics_record) :
  length (createLabeledData random data) = length data
  /\ Forall (fun item =>
               label item ∈ ProcessClassifier.classes ProcessClassifier.create
               /\ ~ ProcessClassifier.threads (process item) == 0
               /\ ProcessClassifier.priority (process item) = 10)
            (createLabeledData random data)
  /\ Forall (fun index => (0 <= index < 6)%Z)
            (training_labels ProcessClassifier.create
               (createLabeledData random data))
  /\ (forall record,
        includes (toLowerCase (processName record)) "nginx" = true ->
        label_of record = "web-server")
  /\ (forall record,
        label_of record = "ml-training" -> 50 < r_cpu record).
Proof.
  split; [apply length_imap|].
  assert (Hitems : forall item, item ∈ createLabeledData random data ->
                     exists record, label item = label_of record
                       /\ ProcessClassifier.threads (process item)
                          = q_or_else (r_threads record) 1
                       /\ ProcessClassifier.priority (process item) = 10).
  { intros item Hin. unfold createLabeledData in Hin.
    apply list_elem_of_lookup in Hin as [i Hi].
    rewrite list_lookup_imap in Hi.
    destruct (data !! i) as [record|]; [|discriminate].
    cbn in Hi. injection Hi as <-. exists record. auto. }
  split; [|split; [|split]].
  - apply Forall_forall. intros item Hin.
    destruct (Hitems item Hin) as (record & Hl & Ht & Hp).
    split; [|split; [|exact Hp]].
    + rewrite Hl.
      pose proof (label_of_cases record) as Hcases.
      unfold ProcessClassifier.create. cbn [ProcessClassifier.classes].
      repeat (apply elem_of_cons in Hcases as [-> | Hcases];
              [repeat constructor|]).
      apply elem_of_nil in Hcases. destruct Hcases.
    + rewrite Ht. unfold q_or_else.
      destruct (Qeq_bool (r_threads record) 0) eqn:Hz.
      * intros H. discriminate H.
      * intros H. apply Qeq_bool_iff in H. congruence.
  - unfold training_labels. apply Forall_forall. intros index Hin.
    apply list_elem_of_fmap in Hin as (item & -> & Hitem).
    destruct (Hitems item Hitem) as (record & -> & _).
    pose proof (label_of_cases record) as Hcases.
    repeat (apply elem_of_cons in Hcases as [-> | Hcases];
            [vm_compute; split; [discriminate | reflexivity]|]).
    apply elem_of_nil in Hcases. destruct Hcases.
  - intros record Hnginx. unfold label_of. rewrite Hnginx. reflexivity.
  - intros record. unfold label_of.
    repeat match goal with
           | |- context [if ?b then _ else _] => destruct b eqn:?
           end; try discriminate.
    intros _.
    match goal with
    | H : _ && negb (Qle_bool _ _) = true |- _ =>
        apply andb_true_iff in H as [_ H]; apply negb_true_iff in H
    end.
    apply Qnot_le_lt. intros Hle. apply Qle_bool_iff in Hle. congruence.
Qed.

End TrainingLabelFacts.

(** ** Alert service: statistics *)

Module AlertStatsFacts.
Import AlertService.

Lemma NoDup_fst_functional {A B : Type} (l : list (A * B)) (x : A) (y1 y2 : B) :
  NoDup l.*1 -> (x, y1) ∈ l -> (x, y2) ∈ l -> y1 = y2.
Proof.
  induction l as [|[x0 y0] l IH]; intros Hnd H1 H2.
  - apply elem_of_nil in H1. destruct H1.
  - rewrite fmap_cons in Hnd. cbn [fst] in Hnd.
    apply NoDup_cons in Hnd as [Hnot Hnd].
    assert (Hfst : forall y, (x0, y) ∈ l -> False).
    { intros y Hy. apply Hnot. apply list_elem_of_fmap. exists (x0, y). auto. }
    apply elem_of_cons in H1 as [H1 | H1];
      apply elem_of_cons in H2 as [H2 | H2].
    + congruence.
    + injection H1 as -> ->. destruct (Hfst _ H2).
    + injection H2 as -> ->. destruct (Hfst _ H1).
    + exact (IH Hnd H1 H2).
Qed.

Lemma stats_fold (stats : list (string * nat)) :
  forall (sum : nat) (acc : gmap string nat),
    NoDup stats.*1 ->
    (forall t, t ∈ stats.*1 -> acc !! t = None) ->
    map_fold (fun _ count s => (count + s)%nat) 0%nat
      (foldl (fun acc item => <[item.1 := item.2]> acc) acc stats)
    = (foldl (fun sum item => (sum + item.2)%nat) sum stats
       + map_fold (fun _ count s => (count + s)%nat) 0%nat acc - sum)%nat
    /\ (sum <= foldl (fun sum item => (sum + item.2)%nat) sum stats)%nat
    /\ (forall t,
          foldl (fun acc item => <[item.1 := item.2]> acc) acc stats !! t
          = match list_find (fun item => item.1 = t) stats with
            | Some (_, item) => Some item.2
            | None => acc !! t
            end).
Proof.
  induction stats as [|[t0 c0] stats IH]; intros sum acc Hnd Hfresh.
  - cbn. split; [lia|]. split; [lia | reflexivity].
  - rewrite fmap_cons in Hnd. cbn [fst] in Hnd.
    apply NoDup_cons in Hnd as [Hnot Hnd].
    cbn [foldl fst snd].
    destruct (IH (sum + c0)%nat (<[t0 := c0]> acc) Hnd) as (H1 & H2 & H3).
    { intros t Ht. rewrite lookup_insert_ne.
      - apply Hfresh. rewrite fmap_cons. apply list_elem_of_further. exact Ht.
      - intros ->. contradiction. }
    rewrite H1.
    rewrite map_fold_insert_L.
    2:{ intros. lia. }
    2:{ apply Hfresh. rewrite fmap_cons. apply list_elem_of_here. }
    split; [lia|]. split; [lia|].
    intros t. rewrite H3. cbn [list_find].
    destruct (decide ((t0, c0).1 = t)) as [Heq | Hne]; cbn [fst] in *.
    + subst t0.
      destruct (list_find (fun item => item.1 = t) stats) as [[i item]|] eqn:Hf.
      * apply list_find_Some in Hf as (Hi & Hitem & _).
        contradiction Hnot. rewrite <- Hitem.
        apply list_elem_of_fmap. exists item. split; [reflexivity|].
        apply (list_elem_of_lookup_2 _ i). exact Hi.
      * cbn. apply lookup_insert_eq.
    + destruct (list_find (fun item => item.1 = t) stats) as [[i item]|];
        cbn; [reflexivity|].
      apply lookup_insert_ne. exact Hne.
Qed.

(** X26. [getAlertStats] returns null when one of its two queries fails and
    never raises. Otherwise, the groups of the aggregation having distinct
    types, [total] is the sum of the counts that [byType] lists, [byType]
    lists exactly the groups, and [mlDetected] and [timeRange] are the
    count and the range as given. *)
Theorem alert_stats_total_is_sum_by_type (aggregate : result (list (string * nat)))
    (countDocuments : result nat) (range : Z) :
  (raises aggregate \/ raises countDocuments ->
   getAlertStats aggregate countDocuments range = None)
  /\ (forall stats mlAlerts,
        aggregate = Ok stats -> countDocuments = Ok mlAlerts ->
        NoDup stats.*1 ->
        exists r,
          getAlertStats aggregate countDocuments range = Some r
          /\ total r
             = map_fold (fun _ count s => (count + s)%nat) 0%nat (byType r)
          /\ (forall t count, byType r !! t = Some count <-> (t, count) ∈ stats)
          /\ st_mlDetected r = mlAlerts
          /\ timeRange r = range).
Proof.
  split.
  - unfold getAlertStats.
    destruct aggregate as [stats|e1]; [|reflexivity].
    destruct countDocuments as [n|e2]; [|reflexivity].
    intros [[] | []].
  - intros stats mlAlerts -> -> Hnd. unfold getAlertStats. cbn.
    eexists. split; [reflexivity|]. cbn [total byType st_mlDetected timeRange].
    destruct (stats_fold stats 0%nat ∅ Hnd) as (H1 & _ & H3).
    { intros t _. apply lookup_empty. }
    rewrite H1, map_fold_empty. split; [lia|].
    split; [|split; reflexivity].
    intros t count. rewrite H3, lookup_empty.
    destruct (list_find (fun item => item.1 = t) stats) as [[i item]|] eqn:Hf.
    + apply list_find_Some in Hf as (Hi & Hitem & _).
      assert (Hin : item ∈ stats) by (apply (list_elem_of_lookup_2 _ i); exact Hi).
      split.
      * intros [= <-]. destruct item as [t' c']. cbn in Hitem. subst t'. exact Hin.
      * intros Hin'. f_equal.
        destruct item as [t' c']. cbn in Hitem. subst t'. cbn.
        exact (NoDup_fst_functional stats t c' count Hnd Hin Hin').
    + split; [discriminate|]. intros Hin.
      apply list_find_None in Hf. rewrite Forall_forall in Hf.
      contradiction (Hf _ Hin). reflexivity.
Qed.

End AlertStatsFacts.
